(** * Awesome Agent: run controller, session store, tool registry, filesystem tool

    A shallow embedding of the TypeScript sources
      - [src/types/index.ts]            (data model)
      - [src/core/tools/base.ts]        (AgentTool, BaseTool.validateArgs)
      - [src/core/tools/registry.ts]    (ToolRegistry)
      - [src/core/tools/filesystem.ts]  (FileSystemTool)
      - [src/core/session/manager.ts]   (SessionManager)
      - [src/core/agent.ts]             (AwesomeAgent)
    followed by the properties of the design document that concern them.

    Asynchronous functions are embedded as computations over an explicit
    world (the agent's fields, the session store, the heaps of shared
    objects, the session files) that mark every [await]; a computation can
    be run to its end, or resumed from one [await] to the next while other
    computations take their turns. *)

From Stdlib Require Import ZArith List String Ascii Bool Lia.
From stdpp Require Import base option list gmap strings.

Set Warnings "-register-all".
Local Open Scope string_scope.
Local Open Scope list_scope.

(** ** JavaScript values that cross the tool and model boundaries *)

(** The sources type tool arguments and tool results as [unknown] /
    [Record<string, unknown>].  They are modelled as JSON-like trees. *)
Inductive JsValue : Type :=
| JNull
| JUndefined
| JBool (b : bool)
| JNum (z : Z)
| JStr (s : string)
| JArr (items : list JsValue)
| JObj (fields : list (string * JsValue)).

(** A JS object used as a string-keyed record, in property order. *)
Definition JsObject : Type := list (string * JsValue).

(** [obj[key]] for a key that [Object.prototype] does not define, as are
    all the keys the sources read: the own property, [undefined] when
    absent. *)
Fixpoint js_get (key : string) (o : JsObject) : JsValue :=
  match o with
  | [] => JUndefined
  | (k, v) :: rest => if String.eqb k key then v else js_get key rest
  end.

(** [Object.hasOwn(obj, key)] *)
Fixpoint js_own (key : string) (o : JsObject) : bool :=
  match o with
  | [] => false
  | (k, _) :: rest => String.eqb k key || js_own key rest
  end.

(** The properties an object inherits from [Object.prototype]. *)
Definition objectPrototypeNames : list string :=
  ["constructor"; "__defineGetter__"; "__defineSetter__"; "hasOwnProperty";
   "__lookupGetter__"; "__lookupSetter__"; "isPrototypeOf";
   "propertyIsEnumerable"; "toString"; "valueOf"; "__proto__";
   "toLocaleString"].

(** [key in obj], for an object written as a literal or made by
    [JSON.parse]: the key is an own property or one inherited from
    [Object.prototype]. *)
Definition js_in (key : string) (o : JsObject) : bool :=
  js_own key o || existsb (String.eqb key) objectPrototypeNames.

(** JS truthiness, as used by [if (x)], [!x] and [x || y]. *)
Definition truthy (v : JsValue) : bool :=
  match v with
  | JNull | JUndefined => false
  | JBool b => b
  | JNum z => negb (Z.eqb z 0)
  | JStr s => negb (String.eqb s "")
  | JArr _ | JObj _ => true
  end.

(** The outcome of a call that may throw (or of a promise that may reject):
    [Throw msg] carries the message of the thrown [Error]. *)
Inductive Result (A : Type) : Type :=
| Ok (a : A)
| Throw (msg : string).
Arguments Ok {A} a.
Arguments Throw {A} msg.

(** ** POSIX [path] module of Node.js, as far as the sources use it *)
Module Path.

(** Split a string at every ['/']; [cur] is the segment being read. *)
Fixpoint split_aux (s : string) (cur : string) : list string :=
  match s with
  | EmptyString => [cur]
  | String c rest =>
      if Ascii.eqb c "/"%char
      then cur :: split_aux rest EmptyString
      else split_aux rest (cur +:+ String c EmptyString)
  end.

Definition split (s : string) : list string := split_aux s EmptyString.

(** [normalizeString]: drop empty and ["."] segments; [".."] removes the
    last kept segment, unless there is none or it is itself [".."], in
    which case [".."] is kept when [allowAboveRoot] and dropped otherwise.
    [acc] holds the kept segments in reverse order. *)
Definition normalize_step (allowAboveRoot : bool) (acc : list string)
    (seg : string) : list string :=
  if String.eqb seg "" then acc
  else if String.eqb seg "." then acc
  else if String.eqb seg ".." then
    match acc with
    | [] => if allowAboveRoot then [".."] else []
    | last :: before =>
        if String.eqb last ".."
        then (if allowAboveRoot then ".." :: acc else acc)
        else before
    end
  else seg :: acc.

Definition normalizeSegments (allowAboveRoot : bool) (segs : list string)
  : list string :=
  rev (fold_left (normalize_step allowAboveRoot) segs []).

Fixpoint joinWith (sep : string) (segs : list string) : string :=
  match segs with
  | [] => ""
  | [s] => s
  | s :: rest => s +:+ sep +:+ joinWith sep rest
  end.

Definition normalizeString (path : string) (allowAboveRoot : bool) : string :=
  joinWith "/" (normalizeSegments allowAboveRoot (split path)).

Definition isAbsolute (p : string) : bool :=
  match p with
  | String c _ => Ascii.eqb c "/"%char
  | EmptyString => false
  end.

Fixpoint endsWithSlash (p : string) : bool :=
  match p with
  | EmptyString => false
  | String c EmptyString => Ascii.eqb c "/"%char
  | String _ rest => endsWithSlash rest
  end.

(** The right-to-left scan of [path.resolve]: [args] is given last
    argument first; empty arguments are skipped; the scan stops at the
    first absolute one.  Returns the concatenation and whether it is
    absolute. *)
Fixpoint resolve_scan (revArgs : list string) (resolvedPath : string)
  : string * bool :=
  match revArgs with
  | [] => (resolvedPath, false)
  | p :: rest =>
      if String.eqb p "" then resolve_scan rest resolvedPath
      else
        let resolvedPath' := p +:+ "/" +:+ resolvedPath in
        if isAbsolute p then (resolvedPath', true)
        else resolve_scan rest resolvedPath'
  end.

(** [path.resolve(...args)] in a process whose working directory is
    [cwd]: the working directory is consulted only when no argument is
    absolute. *)
Definition resolve (cwd : string) (args : list string) : string :=
  let '(resolvedPath, resolvedAbsolute) := resolve_scan (rev args ++ [cwd]) "" in
  let normalized := normalizeString resolvedPath (negb resolvedAbsolute) in
  if resolvedAbsolute then "/" +:+ normalized
  else if String.eqb normalized "" then "." else normalized.

(** [path.normalize(path)] *)
Definition normalize (path : string) : string :=
  if String.eqb path "" then "."
  else
    let isAbs := isAbsolute path in
    let trailing := endsWithSlash path in
    let p := normalizeString path (negb isAbs) in
    if String.eqb p "" then
      (if isAbs then "/" else if trailing then "./" else ".")
    else
      let p' := if trailing then p +:+ "/" else p in
      if isAbs then "/" +:+ p' else p'.

(** [path.join(...args)] *)
Definition join (args : list string) : string :=
  let nonEmpty := filter (fun a => negb (String.eqb a "")) args in
  match nonEmpty with
  | [] => "."
  | _ => normalize (joinWith "/" nonEmpty)
  end.

End Path.

(** ** [src/core/tools/base.ts] *)

(** [BaseTool.validateArgs]: every key of the tool's [parameters] must be
    present in [args]; the first missing one (in property order) is
    reported. *)
Fixpoint validateArgs (parameterNames : list string) (args : JsObject)
  : Result unit :=
  match parameterNames with
  | [] => Ok tt
  | key :: rest =>
      if js_in key args then validateArgs rest args
      else Throw ("Missing required parameter: " +:+ key)
  end.

(** ** [src/core/tools/filesystem.ts] *)
Module FileSystemTool.

(** The calls the tool makes into Node's [fs.promises]. *)
Inductive FsCall : Type :=
| ReadFile (path : string)
| Mkdir (path : string)
| WriteFile (path : string) (data : JsValue)
| Readdir (path : string)
| Stat (path : string)
| Unlink (path : string).

Record DirEntry : Type := mkDirEntry {
  entry_name : string;
  entry_isDirectory : bool
}.

Record StatInfo : Type := mkStat {
  stat_size : Z;
  stat_mtime : Z
}.

(** The Node.js runtime the tool runs against: what each call of
    [fs.promises] answers ([writeFile] is handed [args.content] as it is,
    whatever its type), and two texts that Node makes of a value. *)
Record FileSystem : Type := mkFs {
  fs_readFile : string -> Result string;
  fs_mkdir : string -> Result unit;
  fs_writeFile : string -> JsValue -> Result unit;
  fs_readdir : string -> Result (list DirEntry);
  fs_stat : string -> Result StatInfo;
  fs_unlink : string -> Result unit;
  (** the message of the [TypeError] that [path.resolve] throws for an
      argument that is not a string *)
  resolve_TypeError : JsValue -> string;
  (** the text of a value that is not a string in a template literal *)
  template_text : JsValue -> string
}.

(** A computation that issues filesystem calls: the calls issued, in
    order, and its outcome. *)
Definition Fs (A : Type) : Type := list FsCall * Result A.

Definition ret {A} (a : A) : Fs A := ([], Ok a).
Definition throw {A} (msg : string) : Fs A := ([], Throw msg).
Definition bind {A B} (m : Fs A) (f : A -> Fs B) : Fs B :=
  match m with
  | (calls, Ok a) => let '(calls', r) := f a in (calls ++ calls', r)
  | (calls, Throw msg) => (calls, Throw msg)
  end.
Definition call {A} (c : FsCall) (answer : Result A) : Fs A := ([c], answer).
Definition lift {A} (r : Result A) : Fs A := ([], r).

(** [try { m } catch (error) { throw new Error(prefix + message) }] *)
Definition rethrow {A} (prefix : string) (m : Fs A) : Fs A :=
  match m with
  | (calls, Ok a) => (calls, Ok a)
  | (calls, Throw msg) => (calls, Throw (prefix +:+ msg))
  end.

#[global] Instance Fs_ret : MRet Fs := @ret.
#[global] Instance Fs_bind : MBind Fs := fun A B f m => bind m f.

Definition parameterNames : list string :=
  ["action"; "path"; "content"; "recursive"].

Section Tool.
(** [process.cwd()] and the constructor argument. *)
Variable cwd : string.
Variable workspaceRoot : string.
Variable fs : FileSystem.

(** [resolveSafePath] *)
Definition resolveSafePath (inputPath : string) : Result string :=
  let resolved := Path.resolve cwd [workspaceRoot; inputPath] in
  let workspaceResolved := Path.resolve cwd [workspaceRoot] in
  if negb (String.prefix workspaceResolved resolved)
  then Throw "Path traversal detected"
  else Ok resolved.

(** The [list] branch: one [stat] per directory entry, all issued
    ([Promise.all] over [entries.map]); when several fail, the failure
    that [Promise.all] reports is taken to be that of the first entry
    among them. *)
Fixpoint statAll (safePath : string) (entries : list DirEntry)
  : list FsCall * list (Result JsValue) :=
  match entries with
  | [] => ([], [])
  | e :: rest =>
      let fullPath := Path.join [safePath; entry_name e] in
      let item :=
        match fs_stat fs fullPath with
        | Ok st =>
            Ok (JObj [("name", JStr (entry_name e));
                      ("type", JStr (if entry_isDirectory e
                                     then "directory" else "file"));
                      ("size", JNum (stat_size st));
                      ("modified", JNum (stat_mtime st))])
        | Throw msg => Throw msg
        end in
      let '(calls, items) := statAll safePath rest in
      (Stat fullPath :: calls, item :: items)
  end.

Fixpoint allOk (rs : list (Result JsValue)) : Result (list JsValue) :=
  match rs with
  | [] => Ok []
  | Ok v :: rest =>
      match allOk rest with
      | Ok vs => Ok (v :: vs)
      | Throw msg => Throw msg
      end
  | Throw msg :: _ => Throw msg
  end.

(** The [switch (action)] of [execute], for an [action] that is a
    string. *)
Definition perform (action path safePath : string) (args : JsObject)
  : Fs JsValue :=
  if String.eqb action "read" then
    content ← call (ReadFile safePath) (fs_readFile fs safePath);
    ret (JObj [("success", JBool true); ("path", JStr path);
               ("content", JStr content);
               ("size", JNum (Z.of_nat (String.length content)))])
  else if String.eqb action "write" then
    if negb (truthy (js_get "content" args))
    then throw "Content required for write"
    else
      _ ← call (Mkdir (Path.resolve cwd [safePath; ".."]))
                (fs_mkdir fs (Path.resolve cwd [safePath; ".."]));
      (* [args.content as string]: the cast does nothing at run time *)
      _ ← call (WriteFile safePath (js_get "content" args))
                (fs_writeFile fs safePath (js_get "content" args));
      ret (JObj [("success", JBool true); ("path", JStr path);
                 ("message", JStr "File written successfully")])
  else if String.eqb action "list" then
    entries ← call (Readdir safePath) (fs_readdir fs safePath);
    let '(calls, items) := statAll safePath entries in
    items' ← ((calls, allOk items) : Fs _);
    ret (JObj [("success", JBool true); ("path", JStr path);
               ("items", JArr items')])
  else if String.eqb action "delete" then
    _ ← call (Unlink safePath) (fs_unlink fs safePath);
    ret (JObj [("success", JBool true); ("path", JStr path);
               ("message", JStr "File deleted successfully")])
  else throw ("Unknown action: " +:+ action).

(** [v as string]: the cast does nothing at run time; the string when
    [v] is one. *)
Definition asString (v : JsValue) : option string :=
  match v with
  | JStr s => Some s
  | _ => None
  end.

(** [execute(callId, args)] *)
Definition execute (callId : string) (args : JsObject) : Fs JsValue :=
  _ ← lift (validateArgs parameterNames args);
  match asString (js_get "path" args) with
  | None =>
      (* [path.resolve] throws a TypeError on an argument that is not a
         string *)
      throw (resolve_TypeError fs (js_get "path" args))
  | Some path =>
      safePath ← lift (resolveSafePath path);
      rethrow "File system error: "
        (match asString (js_get "action" args) with
         | Some action => perform action path safePath args
         | None =>
             (* no [case] matches a value that is not a string *)
             throw ("Unknown action: " +:+ template_text fs (js_get "action" args))
         end)
  end.

End Tool.

(** [p] lies inside the directory [root] (both absolute and normalized):
    it is [root] itself or [root] followed by a separator. *)
Definition inside (root p : string) : bool :=
  String.eqb p root
  || String.prefix (if String.eqb root "/" then "/" else root +:+ "/") p.

End FileSystemTool.

(** ** [src/types/index.ts] *)

(** The string-literal unions [Message.role] and [AgentRun.status]. *)
Module Role.
Inductive t : Type := user | assistant | system | tool.
End Role.

Module Status.
Inductive t : Type := pending | running | completed | error | cancelled.
End Status.

Record ToolCall : Type := mkToolCall {
  tc_id : string;
  tc_name : string;
  tc_arguments : JsObject
}.

(** [error?: string] is [None] when the property is absent. *)
Record ToolResult : Type := mkToolResult {
  tr_callId : string;
  tr_name : string;
  tr_result : JsValue;
  tr_error : option string
}.

Record Message : Type := mkMessage {
  role : Role.t;
  content : string;
  toolCalls : option (list ToolCall);
  toolResults : option (list ToolResult);
  timestamp : Z
}.

Record Session : Type := mkSession {
  s_id : string;
  s_key : string;
  createdAt : Z;
  updatedAt : Z;
  messages : list Message;
  metadata : option JsObject
}.

Record AgentRun : Type := mkAgentRun {
  r_id : string;
  r_sessionId : string;
  status : Status.t;
  startedAt : option Z;
  endedAt : option Z;
  r_error : option string
}.

Record ToolConfig : Type := mkToolConfig {
  cfg_name : string;
  cfg_description : string;
  cfg_parameters : JsObject;
  enabled : option bool;
  allowlist : option (list string);
  denylist : option (list string)
}.

Record ModelConfig : Type := mkModelConfig {
  provider : string;
  model : string
}.

Record AgentConfig : Type := mkAgentConfig {
  cfg_model : ModelConfig;
  workspace : string;
  cfg_tools : option (list ToolConfig);
  maxConcurrent : option Z;
  timeoutSeconds : option Z;
  thinkingLevel : option string
}.

(** The [data] payloads of the events the agent emits. *)
Inductive EventData : Type :=
| LifecycleStart
| LifecycleEnd (result : string)
| LifecycleError (err : string)
| AssistantDelta (delta full : string)
| ToolStart (name callId : string)
| ToolEnd (name callId : string) (result : JsValue)
| ToolError (name callId err : string).

Record AgentEvent : Type := mkEvent {
  ev_type : string;
  ev_runId : string;
  ev_data : EventData
}.

(** The three terminal states of a run. *)
Definition is_terminal (st : Status.t) : bool :=
  match st with
  | Status.completed | Status.error | Status.cancelled => true
  | Status.pending | Status.running => false
  end.

#[global] Instance Status_eq_dec : EqDecision Status.t.
Proof. solve_decision. Defined.

(** ** [src/core/tools/registry.ts] *)

(** [AgentTool]: [execute] is an external capability; its answer may differ
    from call to call, so it is indexed by the number of the interaction
    with the environment at which it is invoked. *)
Record AgentTool : Type := mkTool {
  t_name : string;
  t_description : string;
  t_parameters : JsObject;
  t_execute : nat -> string -> JsObject -> Result JsValue
}.

Record ToolInfo : Type := mkToolInfo {
  ti_name : string;
  ti_description : string;
  ti_parameters : JsObject
}.

(** A JS [Map] that is iterated: an association list in insertion order
    with unique keys. [Map.prototype.set] replaces in place or appends. *)
Fixpoint map_set {V : Type} (key : string) (v : V) (m : list (string * V))
  : list (string * V) :=
  match m with
  | [] => [(key, v)]
  | (k, v') :: rest =>
      if String.eqb k key then (k, v) :: rest
      else (k, v') :: map_set key v rest
  end.

Fixpoint map_get {V : Type} (key : string) (m : list (string * V)) : option V :=
  match m with
  | [] => None
  | (k, v) :: rest => if String.eqb k key then Some v else map_get key rest
  end.

Module ToolRegistry.

Record t : Type := mk {
  tools : list (string * AgentTool);
  configs : gmap string ToolConfig
}.

(** [constructor(configs)] *)
Definition new (cfgs : list ToolConfig) : t :=
  {| tools := [];
     configs := foldl (fun m c => <[cfg_name c := c]> m) ∅ cfgs |}.

(** [register(tool)] *)
Definition register (tool : AgentTool) (reg : t) : t :=
  {| tools := map_set (t_name tool) tool (tools reg);
     configs := configs reg |}.

(** [config?.enabled === false] *)
Definition disabled (reg : t) (name : string) : bool :=
  match configs reg !! name with
  | Some cfg => match enabled cfg with Some false => true | _ => false end
  | None => false
  end.

(** [get(name)] *)
Definition get (reg : t) (name : string) : option AgentTool :=
  match map_get name (tools reg) with
  | None => None
  | Some tool => if disabled reg name then None else Some tool
  end.

(** [getAvailableTools()] *)
Definition getAvailableTools (reg : t) : list ToolInfo :=
  omap (fun '(name, tool) =>
          if disabled reg name then None
          else Some {| ti_name := name;
                       ti_description := t_description tool;
                       ti_parameters := t_parameters tool |})
       (tools reg).

(** [Array.prototype.includes] on a list of strings. *)
Definition includes (l : list string) (x : string) : bool :=
  existsb (String.eqb x) l.

(** [checkPermission(toolName, context)]; [context] is not used by the
    source. *)
Definition checkPermission (reg : t) (toolName : string) : bool :=
  match configs reg !! toolName with
  | None => true
  | Some config =>
      if (match allowlist config with
          | Some al => Nat.ltb 0 (List.length al)
          | None => false
          end)
      then true (* the source's placeholder: no check is made *)
      else if (match denylist config with
               | Some dl => includes dl toolName
               | None => false
               end)
      then false
      else true
  end.





End ToolRegistry.

(** ** The world the controller runs in *)

(** [src/core/models/provider.ts]: [GenerateOptions] and [GenerateResult]. *)
Record GenerateOptions : Type := mkGenerateOptions {
  go_messages : list Message;
  go_thinkingLevel : option string;
  go_tools : list ToolInfo
}.

Record GenerateResult : Type := mkGenerateResult {
  text : string;
  gr_toolCalls : option (list ToolCall);
  usage : option (Z * Z)
}.

(** How a [fs.writeFile] ends: the promise resolves; or it rejects
    without the file having been opened (the directory is missing, as for
    a session id with a ['/'] in it, or the file may not be written),
    which leaves the file system as it was; or it rejects after the file
    has been truncated (the disk is full), which leaves the file
    incomplete. *)
Inductive WriteOutcome : Type :=
| Completes
| Refused (msg : string)
| Breaks (msg : string).

(** The environment: what lies outside the controller and answers it.
    Every answer is indexed by the number of the interaction at which it
    is asked, so that repeated questions may be answered differently. *)
Record Env : Type := mkEnv {
  Date_now : nat -> Z;
  (** [`run_${Date.now()}_${Math.random().toString(36).slice(2)}`] *)
  freshRunId : nat -> string;
  (** [ModelProvider.generate]: resolves with a result or rejects *)
  generate : nat -> GenerateOptions -> Result GenerateResult;
  JSON_stringify : JsValue -> string;
  (** [fs.writeFile(path, data, 'utf-8')] on a session file: how the
      write of [path] ends *)
  writeFile : nat -> string -> WriteOutcome
}.

(** A session file on disk.  [fs.writeFile] writes in place: from the call
    until its promise settles the file is open for writing, truncated and
    filled piecewise.  [Writing s] is that state; [Written s] is a file
    holding the complete serialization of [s]. *)
Inductive FileState : Type :=
| Written (s : Session)
| Writing (s : Session).

(** The interactions with the outside, recorded in the order they occur. *)
Inductive Effect : Type :=
| ModelCall (opts : GenerateOptions)
| ToolExec (name callId : string) (args : JsObject)
| Emit (channel : string) (event : AgentEvent)
| FsWriteFile (path : string) (data : Session)
| FsReadFile (path : string)
| FsRename (src dst : string).

(** Objects ([AgentRun], [Session]) live in heaps and are referred to by
    address: the controller, its index of live runs and the session cache
    hold references to the same objects. *)
Record World : Type := mkWorld {
  tick : nat;
  trace : list Effect;
  runObjs : list AgentRun;
  sessObjs : list Session;
  (** [AwesomeAgent.activeRuns] *)
  activeRuns : gmap string nat;
  (** [SessionManager.sessions] *)
  sessions : gmap string nat;
  disk : gmap string FileState;
  (** [AwesomeAgent.toolRegistry] and [AwesomeAgent.config] *)
  toolRegistry : ToolRegistry.t;
  config : AgentConfig
}.

Definition set_tick (f : nat -> nat) (w : World) : World :=
  mkWorld (f (tick w)) (trace w) (runObjs w) (sessObjs w) (activeRuns w)
          (sessions w) (disk w) (toolRegistry w) (config w).
Definition set_trace (f : list Effect -> list Effect) (w : World) : World :=
  mkWorld (tick w) (f (trace w)) (runObjs w) (sessObjs w) (activeRuns w)
          (sessions w) (disk w) (toolRegistry w) (config w).
Definition set_runObjs (f : list AgentRun -> list AgentRun) (w : World) : World :=
  mkWorld (tick w) (trace w) (f (runObjs w)) (sessObjs w) (activeRuns w)
          (sessions w) (disk w) (toolRegistry w) (config w).
Definition set_sessObjs (f : list Session -> list Session) (w : World) : World :=
  mkWorld (tick w) (trace w) (runObjs w) (f (sessObjs w)) (activeRuns w)
          (sessions w) (disk w) (toolRegistry w) (config w).
Definition set_activeRuns (f : gmap string nat -> gmap string nat) (w : World) : World :=
  mkWorld (tick w) (trace w) (runObjs w) (sessObjs w) (f (activeRuns w))
          (sessions w) (disk w) (toolRegistry w) (config w).
Definition set_sessions (f : gmap string nat -> gmap string nat) (w : World) : World :=
  mkWorld (tick w) (trace w) (runObjs w) (sessObjs w) (activeRuns w)
          (f (sessions w)) (disk w) (toolRegistry w) (config w).
Definition set_disk (f : gmap string FileState -> gmap string FileState) (w : World) : World :=
  mkWorld (tick w) (trace w) (runObjs w) (sessObjs w) (activeRuns w)
          (sessions w) (f (disk w)) (toolRegistry w) (config w).

(** ** Asynchronous computations *)

(** An [async] function body: it ends ([Done]) by returning or throwing,
    performs a synchronous step on the world ([Step]), or reaches an
    [await] ([Yield]) where other pending computations may run before it
    is resumed. *)
Inductive Proc (A : Type) : Type :=
| Done (r : Result A)
| Step (k : World -> World * Proc A)
| Yield (k : Proc A).
Arguments Done {A} r.
Arguments Step {A} k.
Arguments Yield {A} k.

Module Proc.

Definition ret {A} (a : A) : Proc A := Done (Ok a).
Definition throw {A} (msg : string) : Proc A := Done (Throw msg).

Fixpoint bind {A B} (p : Proc A) (f : A -> Proc B) : Proc B :=
  match p with
  | Done (Ok a) => f a
  | Done (Throw msg) => Done (Throw msg)
  | Step k => Step (fun w => let '(w', p') := k w in (w', bind p' f))
  | Yield k => Yield (bind k f)
  end.

(** A synchronous action on the world. *)
Definition act {A} (m : World -> A * World) : Proc A :=
  Step (fun w => let '(a, w') := m w in (w', Done (Ok a))).
Definition read {A} (f : World -> A) : Proc A := act (fun w => (f w, w)).
Definition modify (f : World -> World) : Proc unit := act (fun w => (tt, f w)).
Definition lift {A} (r : Result A) : Proc A := Done r.

(** [try { p } catch (error) { h(error.message) }] *)
Fixpoint catch {A} (p : Proc A) (h : string -> Proc A) : Proc A :=
  match p with
  | Done (Ok a) => Done (Ok a)
  | Done (Throw msg) => h msg
  | Step k => Step (fun w => let '(w', p') := k w in (w', catch p' h))
  | Yield k => Yield (catch k h)
  end.

(** [try { p } finally { fin }], for a [fin] that completes normally. *)
Fixpoint finally {A} (p : Proc A) (fin : World -> World) : Proc A :=
  match p with
  | Done r => Step (fun w => (fin w, Done r))
  | Step k => Step (fun w => let '(w', p') := k w in (w', finally p' fin))
  | Yield k => Yield (finally k fin)
  end.

(** [await p] for the promise of an async call [p]: the caller is
    suspended until the promise settles and resumed in a later turn. *)
Fixpoint await {A} (p : Proc A) : Proc A :=
  match p with
  | Done r => Yield (Done r)
  | Step k => Step (fun w => let '(w', p') := k w in (w', await p'))
  | Yield k => Yield (await k)
  end.

(** Run a computation to its end with nothing else scheduled in
    between. *)
Fixpoint exec {A} (p : Proc A) (w : World) : Result A * World :=
  match p with
  | Done r => (r, w)
  | Step k => let '(w', p') := k w in exec p' w'
  | Yield k => exec k w
  end.

(** Run a computation up to its next suspension point (or its end):
    the world it leaves and what remains to be run on resumption. *)
Fixpoint resume {A} (p : Proc A) (w : World) : Proc A * World :=
  match p with
  | Done r => (Done r, w)
  | Step k => let '(w', p') := k w in resume p' w'
  | Yield k => (k, w)
  end.

Definition finished {A} (p : Proc A) : option (Result A) :=
  match p with
  | Done r => Some r
  | _ => None
  end.

End Proc.

#[global] Instance Proc_ret : MRet Proc := @Proc.ret.
#[global] Instance Proc_bind : MBind Proc := fun A B f p => Proc.bind p f.

(** Primitive steps shared by the session manager and the agent. *)
Section Primitives.
Variable env : Env.

(** [Date.now()] *)
Definition dateNow : Proc Z :=
  Proc.act (fun w => (Date_now env (tick w), set_tick S w)).

Definition logEffect (e : Effect) : Proc unit :=
  Proc.modify (set_trace (fun t => t ++ [e])).

(** [emit(event, data)]: every listener is called inside its own
    try/catch, so [emit] completes normally; listeners are observers of
    the event and are recorded as such. *)
Definition emit (channel : string) (event : AgentEvent) : Proc unit :=
  logEffect (Emit channel event).

Definition readSession (a : nat) : Proc Session :=
  s ← Proc.read (fun w => sessObjs w !! a);
  match s with
  | Some s => mret s
  | None => Proc.throw "Cannot read properties of undefined"
  end.

Definition updateSession (a : nat) (f : Session -> Session) : Proc unit :=
  Proc.modify (set_sessObjs (fun h => alter f a h)).

Definition updateRun (a : nat) (f : AgentRun -> AgentRun) : Proc unit :=
  Proc.modify (set_runObjs (fun h => alter f a h)).

(** [session.messages.push(m)] *)
Definition pushMessage (session : nat) (m : Message) : Proc unit :=
  updateSession session
    (fun s => mkSession (s_id s) (s_key s) (createdAt s) (updatedAt s)
                        (messages s ++ [m]) (metadata s)).

Definition set_status (st : Status.t) (r : AgentRun) : AgentRun :=
  mkAgentRun (r_id r) (r_sessionId r) st (startedAt r) (endedAt r) (r_error r).
Definition set_endedAt (t : Z) (r : AgentRun) : AgentRun :=
  mkAgentRun (r_id r) (r_sessionId r) (status r) (startedAt r) (Some t) (r_error r).
Definition set_error (msg : string) (r : AgentRun) : AgentRun :=
  mkAgentRun (r_id r) (r_sessionId r) (status r) (startedAt r) (endedAt r) (Some msg).
Definition set_updatedAt (t : Z) (s : Session) : Session :=
  mkSession (s_id s) (s_key s) (createdAt s) t (messages s) (metadata s).

End Primitives.

(** ** [src/core/session/manager.ts] *)
Module SessionManager.
Section Manager.
Variable env : Env.

(** [join(this.sessionsDir, `${sessionId}.json`)] with
    [sessionsDir = join(workspaceRoot, 'sessions')] *)
Definition getSessionPath (workspaceRoot sessionId : string) : string :=
  Path.join [Path.join [workspaceRoot; "sessions"]; sessionId +:+ ".json"].

Definition sessionPath (sessionId : string) : Proc string :=
  Proc.read (fun w => getSessionPath (workspace (config w)) sessionId).

(** [fs.writeFile(path, JSON.stringify(session, null, 2), 'utf-8')]:
    the data is serialized at the call; the file is written in place
    and is complete when the promise resolves; the promise may also
    reject, with the file untouched or left incomplete. *)
Definition fs_writeFile (path : string) (data : Session) : Proc unit :=
  _ ← logEffect (FsWriteFile path data);
  outcome ← Proc.read (fun w => writeFile env (tick w) path);
  match outcome with
  | Completes =>
      _ ← Proc.modify (set_disk (fun d => <[path := Writing data]> d));
      Yield (Proc.modify (set_disk (fun d => <[path := Written data]> d)))
  | Refused msg => Yield (Proc.throw msg)
  | Breaks msg =>
      _ ← Proc.modify (set_disk (fun d => <[path := Writing data]> d));
      Yield (Proc.throw msg)
  end.

(** [save(session)] *)
Definition save (session : nat) : Proc unit :=
  now ← dateNow env;
  _ ← updateSession session (set_updatedAt now);
  s ← readSession session;
  _ ← Proc.modify (set_sessions (fun c => <[s_id s := session]> c));
  sessionPath ← sessionPath (s_id s);
  fs_writeFile sessionPath s.

(** [loadSession(sessionId)]: [fs.readFile] then [JSON.parse], which
    yields a new object; a file that is missing or caught in the
    middle of a write does not parse. *)
Definition loadSession (sessionId : string) : Proc nat :=
  sessionPath ← sessionPath sessionId;
  _ ← logEffect (FsReadFile sessionPath);
  Yield (
    file ← Proc.read (fun w => disk w !! sessionPath);
    match file with
    | Some (Written s) =>
        Proc.act (fun w => (List.length (sessObjs w),
                            set_sessObjs (fun h => h ++ [s]) w))
    | Some (Writing _) => Proc.throw "Unexpected end of JSON input"
    | None => Proc.throw "ENOENT: no such file or directory"
    end).

(** [getOrCreate(sessionId)] *)
Definition getOrCreate (sessionId : string) : Proc nat :=
  cached ← Proc.read (fun w => sessions w !! sessionId);
  match cached with
  | Some session => mret session
  | None =>
      sessionPath ← sessionPath sessionId;
      existsSync ← Proc.read (fun w => bool_decide (is_Some (disk w !! sessionPath)));
      if (existsSync : bool) then
        session ← Proc.await (loadSession sessionId);
        _ ← Proc.modify (set_sessions (fun c => <[sessionId := session]> c));
        mret session
      else
        created ← dateNow env;
        updated ← dateNow env;
        session ← Proc.act (fun w =>
          (List.length (sessObjs w),
           set_sessObjs (fun h => h ++ [mkSession sessionId sessionId
                                          created updated [] None]) w));
        _ ← Proc.modify (set_sessions (fun c => <[sessionId := session]> c));
        _ ← Proc.await (save session);
        mret session
  end.

End Manager.
End SessionManager.

(** ** [src/core/agent.ts] *)
Module AwesomeAgent.

Record RunParams : Type := mkRunParams {
  p_sessionId : string;
  p_message : string;
  p_runId : option string
}.

Definition maxIterations : nat := 10.

Definition newline : string := String (ascii_of_nat 10) EmptyString.

(** [x || y] on an optional string: absent and empty are falsy *)
Definition nonEmpty (o : option string) : option string :=
  match o with
  | Some s => if String.eqb s "" then None else Some s
  | None => None
  end.

Section Agent.
Variable env : Env.

(** [buildSystemPrompt()]: a text computed from the registry and the
    configuration. *)
Definition systemPrompt (w : World) : string :=
    let tools := ToolRegistry.getAvailableTools (toolRegistry w) in
    let toolDescriptions :=
      Path.joinWith newline
        (map (fun t => "- " +:+ ti_name t +:+ ": " +:+ ti_description t) tools) in
    let cfg := config w in
    "You are Awesome Agent, an advanced AI assistant with access to powerful tools."
    +:+ newline +:+ newline
    +:+ "Available Tools:" +:+ newline
    +:+ toolDescriptions +:+ newline +:+ newline
    +:+ "Guidelines:" +:+ newline
    +:+ "- Use tools when needed to accomplish tasks" +:+ newline
    +:+ "- Think step by step for complex problems" +:+ newline
    +:+ "- Provide clear, helpful responses" +:+ newline
    +:+ "- If a tool fails, try alternative approaches" +:+ newline +:+ newline
    +:+ "Current Configuration:" +:+ newline
    +:+ "- Model: " +:+ provider (cfg_model cfg) +:+ "/" +:+ model (cfg_model cfg)
    +:+ newline
    +:+ "- Thinking Level: " +:+ default "medium" (nonEmpty (thinkingLevel cfg))
    +:+ newline
    +:+ "- Workspace: " +:+ workspace cfg.

Definition buildSystemPrompt : Proc string := Proc.read systemPrompt.

(** [array.slice(-n)]: the last [n] elements *)
Definition lastN {A} (n : nat) (l : list A) : list A :=
  drop (List.length l - n) l.

(** [buildContext(session)] *)
Definition buildContext (session : nat) : Proc (list Message) :=
  prompt ← buildSystemPrompt;
  now ← dateNow env;
  s ← readSession session;
  let recentMessages := lastN 20 (messages s) in
  mret (mkMessage Role.system prompt None None now :: recentMessages).

(** [this.modelProvider.generate(options)]: the call is issued, and
    the promise settles with the backend's answer. *)
Definition modelGenerate (opts : GenerateOptions) : Proc GenerateResult :=
  _ ← logEffect (ModelCall opts);
  n ← Proc.act (fun w => (tick w, set_tick S w));
  Proc.lift (generate env n opts).

(** [tool.execute(callId, args)] *)
Definition toolExecute (tool : AgentTool) (callId : string) (args : JsObject)
  : Proc JsValue :=
  _ ← logEffect (ToolExec (t_name tool) callId args);
  n ← Proc.act (fun w => (tick w, set_tick S w));
  Proc.lift (t_execute tool n callId args).

Definition toolEvent (runId : string) (data : EventData) : AgentEvent :=
  mkEvent "tool" runId data.

(** The body of the [for] loop of [executeTools] for one call:
    the entry pushed to [results]. *)
Definition executeTool (call : ToolCall) (runId : string) : Proc ToolResult :=
  Proc.catch
    (_ ← emit "tool" (toolEvent runId (ToolStart (tc_name call) (tc_id call)));
     found ← Proc.read (fun w => ToolRegistry.get (toolRegistry w) (tc_name call));
     match found with
     | None => Proc.throw ("Tool not found: " +:+ tc_name call)
     | Some tool =>
         result ← Proc.await (toolExecute tool (tc_id call) (tc_arguments call));
         _ ← emit "tool" (toolEvent runId
                            (ToolEnd (tc_name call) (tc_id call) result));
         mret (mkToolResult (tc_id call) (tc_name call) result None)
     end)
    (fun errorMessage =>
       _ ← emit "tool" (toolEvent runId
                          (ToolError (tc_name call) (tc_id call) errorMessage));
       mret (mkToolResult (tc_id call) (tc_name call) JNull (Some errorMessage))).

(** [executeTools(toolCalls, runId)]; [results] is the array built so
    far. *)
Fixpoint executeToolsFrom (toolCalls : list ToolCall) (runId : string)
    (results : list ToolResult) : Proc (list ToolResult) :=
  match toolCalls with
  | [] => mret results
  | call :: rest =>
      entry ← executeTool call runId;
      executeToolsFrom rest runId (results ++ [entry])
  end.

Definition executeTools (toolCalls : list ToolCall) (runId : string)
  : Proc (list ToolResult) :=
  executeToolsFrom toolCalls runId [].

(** The tool message pushed for one result. *)
Definition toolMessage (result : ToolResult) (now : Z) : Message :=
  mkMessage Role.tool (JSON_stringify env (tr_result result)) None
            (Some [mkToolResult (tr_callId result) (tr_name result)
                                (tr_result result) (tr_error result)])
            now.

Fixpoint pushToolResults (session : nat) (toolResults : list ToolResult)
  : Proc unit :=
  match toolResults with
  | [] => mret tt
  | result :: rest =>
      now ← dateNow env;
      _ ← pushMessage session (toolMessage result now);
      pushToolResults session rest
  end.

(** [response.toolCalls && response.toolCalls.length > 0] *)
Definition requestedTools (response : GenerateResult) : option (list ToolCall) :=
  match gr_toolCalls response with
  | Some (c :: cs) => Some (c :: cs)
  | _ => None
  end.

(** The tool branch of the loop body (step 4 of [agentLoop]): run the
    tools, then push the assistant message that carries the calls and
    one tool message per result. *)
Definition handleToolCalls (session : nat) (runId : string)
    (assistantResponse : string) (response : GenerateResult)
    (calls : list ToolCall) : Proc unit :=
  toolResults ← Proc.await (executeTools calls runId);
  now ← dateNow env;
  _ ← pushMessage session
        (mkMessage Role.assistant assistantResponse
                   (gr_toolCalls response) None now);
  pushToolResults session toolResults.

(** The [while (iteration < maxIterations)] loop of [agentLoop], with
    [remaining = maxIterations - iteration] iterations left. *)
Fixpoint agentLoopFrom (remaining : nat) (session : nat) (runId : string)
    (assistantResponse : string) : Proc string :=
  match remaining with
  | 0 => mret assistantResponse
  | S remaining' =>
      context ← buildContext session;
      level ← Proc.read (fun w => thinkingLevel (config w));
      tools ← Proc.read (fun w => ToolRegistry.getAvailableTools (toolRegistry w));
      response ← Proc.await (modelGenerate (mkGenerateOptions context level tools));
      let assistantResponse' :=
        if String.eqb (text response) "" then assistantResponse
        else assistantResponse +:+ text response in
      _ ← (if String.eqb (text response) "" then mret tt
           else emit "assistant"
                  (mkEvent "assistant" runId
                           (AssistantDelta (text response) assistantResponse')));
      match requestedTools response with
      | Some calls =>
          _ ← handleToolCalls session runId assistantResponse' response calls;
          (* continue *)
          agentLoopFrom remaining' session runId assistantResponse'
      | None =>
          now ← dateNow env;
          _ ← pushMessage session
                (mkMessage Role.assistant assistantResponse' None None now);
          (* break *)
          mret assistantResponse'
      end
  end.

(** [agentLoop(session, runId)] *)
Definition agentLoop (session : nat) (runId : string) : Proc string :=
  agentLoopFrom maxIterations session runId "".

Definition lifecycle (runId : string) (data : EventData) : AgentEvent :=
  mkEvent "lifecycle" runId data.

(** The [try] block of [run]. *)
Definition runBody (params : RunParams) (runId : string) (run : nat)
  : Proc nat :=
  _ ← updateRun run (set_status Status.running);
  session ← Proc.await (SessionManager.getOrCreate env (p_sessionId params));
  now ← dateNow env;
  _ ← pushMessage session
        (mkMessage Role.user (p_message params) None None now);
  result ← Proc.await (agentLoop session runId);
  _ ← Proc.await (SessionManager.save env session);
  _ ← updateRun run (set_status Status.completed);
  ended ← dateNow env;
  _ ← updateRun run (set_endedAt ended);
  _ ← emit "lifecycle" (lifecycle runId (LifecycleEnd result));
  mret run.

(** The [catch] block of [run]. *)
Definition runCatch (runId : string) (run : nat) (message : string)
  : Proc nat :=
  _ ← updateRun run (set_status Status.error);
  _ ← updateRun run (set_error message);
  ended ← dateNow env;
  _ ← updateRun run (set_endedAt ended);
  _ ← emit "lifecycle" (lifecycle runId (LifecycleError message));
  Proc.throw message.

(** [params.runId || `run_...`] *)
Definition chooseRunId (params : RunParams) : Proc string :=
  match nonEmpty (p_runId params) with
  | Some runId => mret runId
  | None => Proc.act (fun w => (freshRunId env (tick w), set_tick S w))
  end.

(** [run(params)]: the result is the reference to the [AgentRun]
    object the caller receives. *)
Definition run (params : RunParams) : Proc nat :=
  runId ← chooseRunId params;
  started ← dateNow env;
  run ← Proc.act (fun w =>
    (List.length (runObjs w),
     set_runObjs (fun h => h ++ [mkAgentRun runId (p_sessionId params)
                                   Status.pending (Some started) None None]) w));
  _ ← Proc.modify (set_activeRuns (fun m => <[runId := run]> m));
  _ ← emit "lifecycle" (lifecycle runId LifecycleStart);
  Proc.finally
    (Proc.catch (runBody params runId run) (runCatch runId run))
    (set_activeRuns (fun m => delete runId m)).

End Agent.

(** [cancel(runId)] *)
Definition cancel (env : Env) (runId : string) (w : World) : bool * World :=
  match activeRuns w !! runId with
  | Some run =>
      match runObjs w !! run with
      | Some r =>
          if decide (status r = Status.running) then
            let now := Date_now env (tick w) in
            let w1 := set_tick S w in
            let w2 := set_runObjs (fun h => alter (set_status Status.cancelled) run h) w1 in
            let w3 := set_runObjs (fun h => alter (set_endedAt now) run h) w2 in
            (true, set_activeRuns (fun m => delete runId m) w3)
          else (false, w)
      | None => (false, w)
      end
  | None => (false, w)
  end.

(** [getRun(runId)] *)
Definition getRun (runId : string) (w : World) : option AgentRun :=
  match activeRuns w !! runId with
  | Some run => runObjs w !! run
  | None => None
  end.

End AwesomeAgent.

(** ** Several runs in flight *)
Module Scheduler.
Import Proc AwesomeAgent.

(** What happens next: a pending run is resumed up to its next
    suspension point (a run not started yet is started), or somebody
    calls [cancel]. *)
Inductive Action : Type :=
| Resume (i : nat)
| Cancel (runId : string).

Abbreviation Pool := (list (Proc nat)).

Definition step (env : Env) (st : Pool * World) (a : Action) : Pool * World :=
  let '(pool, w) := st in
  match a with
  | Resume i =>
      match pool !! i with
      | Some p => let '(p', w') := resume p w in (<[i := p']> pool, w')
      | None => (pool, w)
      end
  | Cancel runId => (pool, (cancel env runId w).2)
  end.

Definition interleave (env : Env) (acts : list Action) (st : Pool * World)
  : Pool * World :=
  foldl (step env) st acts.

(** The runs started for the given requests, none of them begun. *)
Definition start (env : Env) (requests : list RunParams) : Pool :=
  map (run env) requests.

End Scheduler.

(** ** Concrete environments *)
Module Demo.
Import AwesomeAgent.

Definition stringify (v : JsValue) : string :=
  match v with
  | JNull => "null"
  | JBool true => "true"
  | JBool false => "false"
  | JStr s => s
  | _ => "{}"
  end.

Definition envWith (gen : nat -> GenerateOptions -> Result GenerateResult) : Env :=
  {| Date_now := fun n => (1700000000000 + Z.of_nat n)%Z;
     freshRunId := fun _ => "run_1700000000000_k3x9";
     generate := gen;
     JSON_stringify := stringify;
     writeFile := fun _ _ => Completes |}.

Definition listTool : AgentTool :=
  {| t_name := "filesystem";
     t_description := "Read, write, edit, and list files in the workspace";
     t_parameters := [("action", JStr "string"); ("path", JStr "string")];
     t_execute := fun _ _ _ => Ok (JObj [("success", JBool true)]) |}.

Definition baseConfig : AgentConfig :=
  {| cfg_model := {| provider := "openai"; model := "gpt-4" |};
     workspace := "./workspace";
     cfg_tools := None;
     maxConcurrent := Some 4%Z;
     timeoutSeconds := None;
     thinkingLevel := Some "medium" |}.

(** A freshly constructed agent with the filesystem tool registered. *)
Definition world0 : World :=
  {| tick := 0; trace := []; runObjs := []; sessObjs := [];
     activeRuns := ∅; sessions := ∅; disk := ∅;
     toolRegistry := ToolRegistry.register listTool (ToolRegistry.new []);
     config := baseConfig |}.

(** An agent without tools in which session "main" is cached and holds
    one user message. *)
Definition session1 : Session :=
  mkSession "main" "main" 0 0 [mkMessage Role.user "list files" None None 0] None.

Definition world1 : World :=
  {| tick := 0; trace := []; runObjs := []; sessObjs := [session1];
     activeRuns := ∅; sessions := {["main" := 0]}; disk := ∅;
     toolRegistry := ToolRegistry.new [];
     config := baseConfig |}.

Definition listCall : ToolCall :=
  {| tc_id := "call_1"; tc_name := "filesystem";
     tc_arguments := [("action", JStr "list"); ("path", JStr ".")] |}.

(** A backend that asks for a tool on every turn. *)
Definition alwaysTools : nat -> GenerateOptions -> Result GenerateResult :=
  fun _ _ => Ok {| text := ""; gr_toolCalls := Some [listCall]; usage := None |}.

Definition lastRole (ms : list Message) : option Role.t :=
  role <$> last ms.

(** A backend that asks for one tool call and answers in plain text once
    it sees the tool's result. *)
Definition toolThenText : nat -> GenerateOptions -> Result GenerateResult :=
  fun _ opts =>
    match lastRole (go_messages opts) with
    | Some Role.tool => Ok {| text := "Done"; gr_toolCalls := None; usage := None |}
    | _ => Ok {| text := ""; gr_toolCalls := Some [listCall]; usage := None |}
    end.

(** A backend that answers in plain text at once. *)
Definition plainText : nat -> GenerateOptions -> Result GenerateResult :=
  fun _ _ => Ok {| text := "Hello"; gr_toolCalls := None; usage := None |}.

Definition request (sessionId message runId : string) : RunParams :=
  {| p_sessionId := sessionId; p_message := message; p_runId := Some runId |}.

Definition roles (w : World) (a : nat) : list Role.t :=
  match sessObjs w !! a with
  | Some s => map role (messages s)
  | None => []
  end.

End Demo.

(** ** [src/core/tools/exec.ts] *)
Module ExecTool.

Record ExecToolConfig : Type := mkConfig {
  timeout : option Z;
  maxOutputBytes : option Z;
  allowedCommands : option (list string);
  blockedCommands : option (list string);
  sandbox : option bool
}.

(** [constructor(config)]: [??] fills in what is absent. *)
Definition new (config : ExecToolConfig) : ExecToolConfig :=
  {| timeout := Some (default 30000%Z (timeout config));
     maxOutputBytes := Some (default 1000000%Z (maxOutputBytes config));
     allowedCommands := allowedCommands config;
     blockedCommands := Some (default ["rm -rf"; "format"; "del /f"]
                                      (blockedCommands config));
     sandbox := Some (default false (sandbox config)) |}.

(** [s.includes(pattern)]: [pattern] occurs in [s] as a substring. *)
Fixpoint includes (s pattern : string) : bool :=
  String.prefix pattern s
  || match s with
     | EmptyString => false
     | String _ rest => includes rest pattern
     end.

(** The [for] loop over [blockedCommands]: the first pattern, in list
    order, that occurs in the command. *)
Fixpoint firstBlocked (command : string) (blocked : list string) : option string :=
  match blocked with
  | [] => None
  | pattern :: rest =>
      if includes command pattern then Some pattern
      else firstBlocked command rest
  end.

(** [validateCommand(command)] *)
Definition validateCommand (config : ExecToolConfig) (command : string)
  : Result unit :=
  match (match blockedCommands config with
         | Some blocked => firstBlocked command blocked
         | None => None
         end) with
  | Some blocked => Throw ("Blocked command pattern: " +:+ blocked)
  | None =>
      match allowedCommands config with
      | Some (p :: ps) =>
          if existsb (fun pattern => includes command pattern) (p :: ps)
          then Ok tt
          else Throw "Command not in allowlist"
      | _ => Ok tt
      end
  end.

Definition truncationMark : string :=
  String (ascii_of_nat 10) "... (truncated)".

(** [this.config.maxOutputBytes || 1000000]: absent and 0 are falsy.
    Numbers are integers here. *)
Definition outputLimit (config : ExecToolConfig) : Z :=
  match maxOutputBytes config with
  | Some n => if Z.eqb n 0 then 1000000%Z else n
  | None => 1000000%Z
  end.

(** [truncateOutput(output)]; [substring(0, m)] takes a negative [m]
    for 0. *)
Definition truncateOutput (config : ExecToolConfig) (output : string) : string :=
  let maxBytes := outputLimit config in
  if (maxBytes <? Z.of_nat (String.length output))%Z
  then String.substring 0 (Z.to_nat maxBytes) output +:+ truncationMark
  else output.

(** What [exec] of [child_process] is asked, and what it answers: the
    two output streams, or an error that may carry them and an exit
    code. *)
Record ExecCall : Type := mkExecCall {
  ec_command : string;
  ec_timeout : JsValue;
  ec_cwd : JsValue;
  ec_maxBuffer : option Z
}.

Record ExecError : Type := mkExecError {
  ee_stdout : option string;
  ee_stderr : option string;
  ee_code : JsValue;
  ee_message : string
}.

Inductive ExecOutcome : Type :=
| Exited (stdout stderr : string)
| Failed (e : ExecError).

Definition parameterNames : list string := ["command"; "timeout"; "cwd"].

Section Tool.
Variable config : ExecToolConfig.
(** [process.cwd()] and the operating system's answer to an [exec]. *)
Variable processCwd : string.
Variable execAsync : ExecCall -> ExecOutcome.

(** [x || ''] on an optional string *)
Definition orEmpty (o : option string) : string :=
  match o with
  | Some s => s
  | None => ""
  end.

(** The body of [execute] once [args.command] is known to be the string
    [command]: the [exec] calls issued and the outcome. *)
Definition executeCommand (command : string) (args : JsObject)
  : list ExecCall * Result JsValue :=
  let timeoutArg :=
    if truthy (js_get "timeout" args) then js_get "timeout" args
    else match timeout config with
         | Some t => if Z.eqb t 0 then JNum 30000 else JNum t
         | None => JNum 30000
         end in
  let cwd :=
    if truthy (js_get "cwd" args) then js_get "cwd" args
    else JStr processCwd in
  match validateCommand config command with
  | Throw msg => ([], Throw msg)
  | Ok _ =>
      let call := mkExecCall command timeoutArg cwd (maxOutputBytes config) in
      match execAsync call with
      | Exited stdout stderr =>
          ([call],
           Ok (JObj [("success", JBool true); ("command", JStr command);
                     ("stdout", JStr (truncateOutput config stdout));
                     ("stderr", JStr (truncateOutput config stderr));
                     ("exitCode", JNum 0)]))
      | Failed e =>
          ([call],
           Ok (JObj [("success", JBool false); ("command", JStr command);
                     ("stdout", JStr (truncateOutput config (orEmpty (ee_stdout e))));
                     ("stderr", JStr (truncateOutput config (orEmpty (ee_stderr e))));
                     ("exitCode", if truthy (ee_code e) then ee_code e else JNum 1);
                     ("error", JStr (ee_message e))]))
      end
  end.

(** [execute(callId, args)].  The embedding covers the calls whose
    [command] is a string, as the parameter schema declares it; [None]
    stands for the others. *)
Definition execute (callId : string) (args : JsObject)
  : option (list ExecCall * Result JsValue) :=
  match validateArgs parameterNames args with
  | Throw msg => Some ([], Throw msg)
  | Ok _ =>
      match js_get "command" args with
      | JStr command => Some (executeCommand command args)
      | _ => None
      end
  end.

End Tool.
End ExecTool.

(** ** JavaScript string methods used by the gateway and the session store *)
Module JsString.

(** [s.replace(pattern, replacement)] for a string pattern: the first
    occurrence, if any, is replaced. *)
Fixpoint replaceFirst (pattern replacement s : string) : string :=
  if String.prefix pattern s
  then replacement +:+ String.substring (String.length pattern)
                                         (String.length s - String.length pattern) s
  else match s with
       | EmptyString => EmptyString
       | String c rest => String c (replaceFirst pattern replacement rest)
       end.

(** [s.endsWith(suffix)] *)
Definition endsWith (s suffix : string) : bool :=
  Nat.leb (String.length suffix) (String.length s)
  && String.eqb (String.substring (String.length s - String.length suffix)
                                  (String.length suffix) s) suffix.

End JsString.

(** ** [src/gateway/server.ts]: the authentication check *)
Module Gateway.

Inductive AuthMode : Type := token | password | none.

(** [GatewayConfig.auth] *)
Record Auth : Type := mkAuth {
  mode : AuthMode;
  auth_token : option string;
  auth_password : option string
}.

(** [authenticate(req)]: [auth] is [config.auth] and [authorization] the
    request's [Authorization] header, both possibly absent. *)
Definition authenticate (auth : option Auth) (authorization : option string) : bool :=
  match auth with
  | None => true
  | Some a =>
      match mode a with
      | none => true
      | token =>
          let presented := JsString.replaceFirst "Bearer " "" <$> authorization in
          bool_decide (presented = auth_token a)
      | password => false
      end
  end.

End Gateway.

(** ** [src/core/agent.ts]: the event system *)
Module Events.

(** A listener is a function object; what matters to the registry is its
    identity, here a number.  [Map<string, Set<EventListener>>], both in
    insertion order. *)
Abbreviation Registry := (list (string * list nat)).

(** [Set.prototype.add] and [Set.prototype.delete] *)
Definition set_add (listener : nat) (s : list nat) : list nat :=
  if existsb (Nat.eqb listener) s then s else s ++ [listener].

Definition set_delete (listener : nat) (s : list nat) : list nat :=
  List.filter (fun l => negb (Nat.eqb l listener)) s.

(** [on(event, listener)] *)
Definition on (event : string) (listener : nat) (reg : Registry) : Registry :=
  let reg' :=
    match map_get event reg with
    | Some _ => reg
    | None => map_set event [] reg
    end in
  match map_get event reg' with
  | Some s => map_set event (set_add listener s) reg'
  | None => reg'
  end.

(** [off(event, listener)] *)
Definition off (event : string) (listener : nat) (reg : Registry) : Registry :=
  match map_get event reg with
  | Some s => map_set event (set_delete listener s) reg
  | None => reg
  end.

(** What [emit] does to the outside: it calls a listener, and it reports
    the failure of one on the console. *)
Inductive Delivery : Type :=
| Called (listener : nat)
| ConsoleError (event : string) (msg : string).

(** [emit(event, data)], for listeners that behave as [behaviour] says
    and leave the registry alone while they run. *)
Definition emit {D : Type} (behaviour : nat -> D -> Result unit)
    (reg : Registry) (event : string) (data : D) : list Delivery :=
  match map_get event reg with
  | Some s =>
      flat_map (fun listener =>
                  match behaviour listener data with
                  | Ok _ => [Called listener]
                  | Throw msg => [Called listener; ConsoleError event msg]
                  end) s
  | None => []
  end.

End Events.

(** ** [src/core/session/manager.ts]: removing and listing sessions *)
Module SessionFiles.
Section Manager.

(** [fs.readdir(this.sessionsDir)]: the names the directory lists, in the
    order the system gives them, or the failure of the call. *)
Variable readdir : World -> Result (list string).

(** Whether the system lets go of an existing file when [fs.unlink] asks
    for it, or why not (the file may not be removed, it is a
    directory). *)
Variable unlink : World -> string -> Result unit.

(** [fs.unlink(path)]: the entry is gone when the promise resolves; the
    promise rejects when there is no such entry or the system refuses. *)
Definition fs_unlink (path : string) : Proc unit :=
  Yield (
    file ← Proc.read (fun w => disk w !! path);
    match file with
    | Some _ =>
        answer ← Proc.read (fun w => unlink w path);
        match answer with
        | Ok _ => Proc.modify (set_disk (fun d => base.delete path d))
        | Throw msg => Proc.throw msg
        end
    | None => Proc.throw "ENOENT: no such file or directory"
    end).

(** [delete(sessionId)] *)
Definition delete (sessionId : string) : Proc unit :=
  _ ← Proc.modify (set_sessions (fun c => base.delete sessionId c));
  sessionPath ← SessionManager.sessionPath sessionId;
  existsSync ← Proc.read (fun w => bool_decide (is_Some (disk w !! sessionPath)));
  if (existsSync : bool) then Proc.await (fs_unlink sessionPath) else mret tt.

Definition fs_readdir : Proc (list string) :=
  Yield (r ← Proc.read readdir; Proc.lift r).

(** The body of the [for (const file of files)] loop of [list], with the
    sessions collected so far. *)
Fixpoint loadEach (files : list string) (sessions : list nat) : Proc (list nat) :=
  match files with
  | [] => mret sessions
  | file :: rest =>
      if JsString.endsWith file ".json" then
        let sessionId := JsString.replaceFirst ".json" "" file in
        sessions' ← Proc.catch
                      (session ← Proc.await (SessionManager.loadSession sessionId);
                       mret (sessions ++ [session]))
                      (fun _ => mret sessions);
        loadEach rest sessions'
      else loadEach rest sessions
  end.

(** [Array.prototype.sort] with the comparator
    [(a, b) => key(b) - key(a)]: descending, and stable. *)
Fixpoint insertDesc (key : nat -> Z) (x : nat) (sorted : list nat) : list nat :=
  match sorted with
  | [] => [x]
  | y :: rest =>
      if (key y <=? key x)%Z then x :: y :: rest
      else y :: insertDesc key x rest
  end.

Definition sortDesc (key : nat -> Z) (l : list nat) : list nat :=
  foldr (insertDesc key) [] l.

Definition updatedAtOf (heap : list Session) (a : nat) : Z :=
  match heap !! a with
  | Some s => updatedAt s
  | None => 0%Z
  end.

(** [list()] *)
Definition list : Proc (list nat) :=
  files ← Proc.await fs_readdir;
  sessions ← loadEach files [];
  heap ← Proc.read sessObjs;
  mret (sortDesc (updatedAtOf heap) sessions).

End Manager.
End SessionFiles.

(** * Properties *)

(** ** Path resolution on examples *)
Example resolve_relative :
  Path.resolve "/home/u" ["./workspace"; "notes/../a.txt"] = "/home/u/workspace/a.txt".
Proof. reflexivity. Qed.

Example resolve_absolute_wins :
  Path.resolve "/home/u" ["/ws"; "/etc/passwd"] = "/etc/passwd".
Proof. reflexivity. Qed.

Example resolve_above_root :
  Path.resolve "/" ["/ws"; "../../.."] = "/".
Proof. reflexivity. Qed.

Example join_sessions :
  Path.join ["./workspace"; "sessions"] = "workspace/sessions".
Proof. reflexivity. Qed.

(** ** The traversal guard of the filesystem tool *)
Module FileSystemToolFacts.
Import FileSystemTool.

(** What the guard does establish: a path that [resolveSafePath] lets
    through has the resolved workspace root as a string prefix. *)
Lemma resolveSafePath_prefix (cwd root inputPath safePath : string) :
  resolveSafePath cwd root inputPath = Ok safePath ->
  safePath = Path.resolve cwd [root; inputPath] /\
  String.prefix (Path.resolve cwd [root]) safePath = true.
Proof.
  unfold resolveSafePath.
  destruct (String.prefix _ _) eqn:Hp; simpl; intros H; inversion H; subst.
  split; [reflexivity | exact Hp].
Qed.

(** When the resolved path does not even start with the resolved root,
    [execute] throws before issuing any filesystem call. *)
Lemma execute_rejects_unprefixed (cwd root : string) (fs : FileSystem)
    (callId path : string) (args : JsObject) :
  validateArgs parameterNames args = Ok tt ->
  js_get "path" args = JStr path ->
  String.prefix (Path.resolve cwd [root])
                (Path.resolve cwd [root; path]) = false ->
  execute cwd root fs callId args = ([], Throw "Path traversal detected").
Proof.
  intros Hv Hp Hpre. unfold execute, resolveSafePath.
  rewrite Hv. cbn [mbind Fs_bind bind lift].
  rewrite Hp. cbn [asString]. rewrite Hpre. reflexivity.
Qed.

(** A filesystem in which one file outside the workspace exists. *)
Definition outsideFs : FileSystem :=
  {| fs_readFile := fun p => if String.eqb p "/ws-evil/secret"
                             then Ok "top secret" else Throw "ENOENT";
     fs_mkdir := fun _ => Ok tt;
     fs_writeFile := fun _ _ => Ok tt;
     fs_readdir := fun _ => Ok [];
     fs_stat := fun _ => Throw "ENOENT";
     fs_unlink := fun _ => Ok tt;
     resolve_TypeError := fun _ => "The path argument must be of type string";
     template_text := fun _ => "[object Object]" |}.

Definition escapingArgs : JsObject :=
  [("action", JStr "read"); ("path", JStr "../ws-evil/secret");
   ("content", JStr ""); ("recursive", JBool false)].

(** C10 (the code at the failing input): with workspace root [/ws], the
    input path [../ws-evil/secret] resolves to [/ws-evil/secret], which is
    outside the workspace directory; the guard compares strings with
    [startsWith], lets it through, and [execute] reads the file instead of
    failing with 'Path traversal detected'. *)
Theorem execute_reads_sibling_of_workspace :
  Path.resolve "/home/agent" ["/ws"; "../ws-evil/secret"] = "/ws-evil/secret" /\
  inside (Path.resolve "/home/agent" ["/ws"]) "/ws-evil/secret" = false /\
  resolveSafePath "/home/agent" "/ws" "../ws-evil/secret" = Ok "/ws-evil/secret" /\
  execute "/home/agent" "/ws" outsideFs "call_1" escapingArgs =
    ([ReadFile "/ws-evil/secret"],
     Ok (JObj [("success", JBool true); ("path", JStr "../ws-evil/secret");
               ("content", JStr "top secret"); ("size", JNum 10)])).
Proof. repeat split; vm_compute; reflexivity. Qed.

End FileSystemToolFacts.

(** ** Policy evaluation of the registry *)
Module ToolRegistryFacts.
Import ToolRegistry.

(** The verdict of the registry's two checks on an invocation of a
    registered tool: [get] filters on the enabled flag, [checkPermission]
    on the lists. *)
Definition permitted (reg : t) (toolName : string) : bool :=
  match get reg toolName with
  | None => false
  | Some _ => checkPermission reg toolName
  end.

Lemma get_registered (reg : t) (name : string) (tool : AgentTool) :
  map_get name (tools reg) = Some tool ->
  get reg name = if disabled reg name then None else Some tool.
Proof. intros H. unfold get. rewrite H. reflexivity. Qed.

(** A tool without any configuration is resolved and permitted. *)
Lemma permitted_unconfigured (reg : t) (name : string) (tool : AgentTool) :
  map_get name (tools reg) = Some tool ->
  configs reg !! name = None ->
  permitted reg name = true.
Proof.
  intros Ht Hc. unfold permitted, get, disabled, checkPermission.
  rewrite Ht, Hc. reflexivity.
Qed.


Definition nopTool (name : string) : AgentTool :=
  {| t_name := name; t_description := "";
     t_parameters := []; t_execute := fun _ _ _ => Ok JNull |}.

Definition denyOnly : ToolConfig :=
  {| cfg_name := "exec"; cfg_description := ""; cfg_parameters := [];
     enabled := Some true; allowlist := None; denylist := Some ["exec"] |}.




End ToolRegistryFacts.

(** ** Reasoning about computations *)
Module ProcFacts.
Import Proc.

(** Structural induction on computations, through the step function. *)
Fixpoint Proc_induction {A : Type} (P : Proc A -> Prop)
    (HDone : forall r, P (Done r))
    (HStep : forall k, (forall w, P (k w).2) -> P (Step k))
    (HYield : forall k, P k -> P (Yield k))
    (p : Proc A) : P p :=
  match p with
  | Done r => HDone r
  | Step k =>
      HStep k (fun w => match k w as kw return P kw.2 with
                        | (_, p') => Proc_induction P HDone HStep HYield p'
                        end)
  | Yield k => HYield k (Proc_induction P HDone HStep HYield k)
  end.

Section Exec.
Context {A B : Type}.

Lemma exec_bind (p : Proc A) (f : A -> Proc B) (w : World) :
  exec (p ≫= f) w =
  match exec p w with
  | (Ok a, w') => exec (f a) w'
  | (Throw msg, w') => (Throw msg, w')
  end.
Proof.
  unfold mbind, Proc_bind. revert w.
  induction p as [[a|msg]|k IH|k IH] using Proc_induction;
    intros w; simpl; try reflexivity.
  - specialize (IH w). destruct (k w) as [w' p']. exact (IH w').
  - apply IH.
Qed.

Lemma exec_catch (p : Proc A) (h : string -> Proc A) (w : World) :
  exec (catch p h) w =
  match exec p w with
  | (Ok a, w') => (Ok a, w')
  | (Throw msg, w') => exec (h msg) w'
  end.
Proof.
  revert w.
  induction p as [[a|msg]|k IH|k IH] using Proc_induction;
    intros w; simpl; try reflexivity.
  - specialize (IH w). destruct (k w) as [w' p']. exact (IH w').
  - apply IH.
Qed.

Lemma exec_finally (p : Proc A) (fin : World -> World) (w : World) :
  exec (finally p fin) w = ((exec p w).1, fin (exec p w).2).
Proof.
  revert w.
  induction p as [r|k IH|k IH] using Proc_induction;
    intros w; simpl; try reflexivity.
  - specialize (IH w). destruct (k w) as [w' p']. exact (IH w').
  - apply IH.
Qed.

Lemma exec_await (p : Proc A) (w : World) : exec (await p) w = exec p w.
Proof.
  revert w.
  induction p as [r|k IH|k IH] using Proc_induction;
    intros w; simpl; try reflexivity.
  - specialize (IH w). destruct (k w) as [w' p']. exact (IH w').
  - apply IH.
Qed.

Lemma exec_act (m : World -> A * World) (w : World) :
  exec (act m) w = (Ok (m w).1, (m w).2).
Proof. unfold act. simpl. destruct (m w); reflexivity. Qed.

Lemma exec_read (f : World -> A) (w : World) : exec (read f) w = (Ok (f w), w).
Proof. reflexivity. Qed.

Lemma exec_ret (a : A) (w : World) : exec (mret a) w = (Ok a, w).
Proof. reflexivity. Qed.

Lemma exec_throw (msg : string) (w : World) :
  exec (throw msg : Proc A) w = (Throw msg, w).
Proof. reflexivity. Qed.

Lemma exec_lift (r : Result A) (w : World) : exec (lift r) w = (r, w).
Proof. reflexivity. Qed.

End Exec.

Lemma exec_modify (f : World -> World) (w : World) :
  exec (modify f) w = (Ok tt, f w).
Proof. reflexivity. Qed.

(** *** Relations every step of a computation respects *)

Section Respects.
Variable R : World -> World -> Prop.

Inductive Respects {A : Type} : Proc A -> Prop :=
| Respects_Done (r : Result A) : Respects (Done r)
| Respects_Step (k : World -> World * Proc A) :
    (forall w, R w (k w).1) ->
    (forall w, Respects (k w).2) ->
    Respects (Step k)
| Respects_Yield (k : Proc A) : Respects k -> Respects (Yield k).

Lemma respects_ret {A} (a : A) : Respects (mret a).
Proof. constructor. Qed.

Lemma respects_throw {A} (msg : string) : Respects (throw msg : Proc A).
Proof. constructor. Qed.

Lemma respects_lift {A} (r : Result A) : Respects (lift r).
Proof. constructor. Qed.

Lemma respects_act {A} (m : World -> A * World) :
  (forall w, R w (m w).2) -> Respects (act m).
Proof.
  intros H. constructor; intros w; specialize (H w);
    destruct (m w); simpl in *; [assumption | constructor].
Qed.

Lemma respects_bind {A B} (p : Proc A) (f : A -> Proc B) :
  Respects p -> (forall a, Respects (f a)) -> Respects (p ≫= f).
Proof.
  unfold mbind, Proc_bind. intros Hp Hf.
  induction Hp as [[a|msg]|k HR _ IH|k _ IH]; simpl.
  - apply Hf.
  - constructor.
  - constructor; intros w; specialize (HR w); specialize (IH w);
      destruct (k w); assumption.
  - constructor. exact IH.
Qed.

Lemma respects_catch {A} (p : Proc A) (h : string -> Proc A) :
  Respects p -> (forall msg, Respects (h msg)) -> Respects (catch p h).
Proof.
  intros Hp Hh.
  induction Hp as [[a|msg]|k HR _ IH|k _ IH]; simpl.
  - constructor.
  - apply Hh.
  - constructor; intros w; specialize (HR w); specialize (IH w);
      destruct (k w); assumption.
  - constructor. exact IH.
Qed.

Lemma respects_finally {A} (p : Proc A) (fin : World -> World) :
  Respects p -> (forall w, R w (fin w)) -> Respects (finally p fin).
Proof.
  intros Hp Hfin.
  induction Hp as [r|k HR _ IH|k _ IH]; simpl.
  - constructor; intros w; simpl; [apply Hfin | constructor].
  - constructor; intros w; specialize (HR w); specialize (IH w);
      destruct (k w); assumption.
  - constructor. exact IH.
Qed.

Lemma respects_await {A} (p : Proc A) : Respects p -> Respects (await p).
Proof.
  intros Hp.
  induction Hp as [r|k HR _ IH|k _ IH]; simpl.
  - constructor. constructor.
  - constructor; intros w; specialize (HR w); specialize (IH w);
      destruct (k w); assumption.
  - constructor. exact IH.
Qed.

Context `{!PreOrder R}.

Lemma exec_respects {A} (p : Proc A) (w : World) :
  Respects p -> R w (exec p w).2.
Proof.
  intros Hp. revert w.
  induction Hp as [r|k HR _ IH|k _ IH]; intros w; simpl.
  - reflexivity.
  - specialize (HR w). specialize (IH w).
    destruct (k w) as [w' p']. simpl in *.
    etransitivity; [exact HR | apply IH].
  - apply IH.
Qed.

Lemma resume_respects {A} (p : Proc A) (w : World) :
  Respects p -> R w (resume p w).2 /\ Respects (resume p w).1.
Proof.
  intros Hp. revert w.
  induction Hp as [r|k HR HRp IH|k Hk IH]; intros w; simpl.
  - split; [reflexivity | constructor].
  - specialize (HR w). specialize (IH w).
    destruct (k w) as [w' p']. simpl in *.
    destruct (IH w') as [H1 H2].
    split; [etransitivity; eassumption | assumption].
  - split; [reflexivity | assumption].
Qed.

End Respects.

End ProcFacts.

(** ** What the parts of a run leave unchanged *)
Module Frames.
Import Proc ProcFacts.

Definition isModelCall (e : Effect) : bool :=
  match e with
  | ModelCall _ => true
  | _ => false
  end.

(** The number of model calls issued so far. *)
Definition modelCalls (w : World) : nat :=
  List.length (List.filter isModelCall (trace w)).

(** Every session object is still there, is the same session, and its
    transcript has only grown at the end. *)
Definition Append (w w' : World) : Prop :=
  forall (a : nat) (s : Session),
    sessObjs w !! a = Some s ->
    exists s', sessObjs w' !! a = Some s' /\
               messages s `prefix_of` messages s' /\
               s_id s' = s_id s.

(** Moreover the run objects, the live-run index, the registry and the
    configuration are untouched. *)
Definition Frame (w w' : World) : Prop :=
  Append w w' /\
  runObjs w' = runObjs w /\
  activeRuns w' = activeRuns w /\
  toolRegistry w' = toolRegistry w /\
  config w' = config w.

(** Moreover no model call is issued. *)
Definition Quiet (w w' : World) : Prop :=
  Frame w w' /\ modelCalls w' = modelCalls w.

#[global] Instance Append_preorder : PreOrder Append.
Proof.
  split.
  - intros w a s H. exists s. repeat split; [assumption | reflexivity].
  - intros w1 w2 w3 H12 H23 a s H.
    destruct (H12 a s H) as (s2 & H2 & P2 & I2).
    destruct (H23 a s2 H2) as (s3 & H3 & P3 & I3).
    exists s3. repeat split; [assumption | etransitivity; eassumption | congruence].
Qed.

#[global] Instance Frame_preorder : PreOrder Frame.
Proof.
  split.
  - intros w. repeat split; reflexivity.
  - intros w1 w2 w3 (A12 & ? & ? & ? & ?) (A23 & ? & ? & ? & ?).
    repeat split; [etransitivity; eassumption | congruence ..].
Qed.

#[global] Instance Quiet_preorder : PreOrder Quiet.
Proof.
  split.
  - intros w. split; reflexivity.
  - intros w1 w2 w3 [F12 ?] [F23 ?].
    split; [etransitivity; eassumption | congruence].
Qed.

Lemma respects_mono {A} (R R' : World -> World -> Prop) (p : Proc A) :
  (forall w w', R w w' -> R' w w') -> Respects R p -> Respects R' p.
Proof.
  intros HRR Hp. induction Hp; constructor; auto.
Qed.

Lemma Quiet_Frame w w' : Quiet w w' -> Frame w w'.
Proof. intros [H _]. exact H. Qed.

Lemma Frame_Append w w' : Frame w w' -> Append w w'.
Proof. intros [H _]. exact H. Qed.

Lemma Append_same_sessObjs w w' : sessObjs w' = sessObjs w -> Append w w'.
Proof.
  intros E a s H. exists s. rewrite E.
  repeat split; [assumption | reflexivity].
Qed.

(** Updates of the world that are quiet. *)
Lemma quiet_tick f w : Quiet w (set_tick f w).
Proof.
  split; [split; [apply Append_same_sessObjs|]|]; repeat split; reflexivity.
Qed.

Lemma quiet_sessions f w : Quiet w (set_sessions f w).
Proof.
  split; [split; [apply Append_same_sessObjs|]|]; repeat split; reflexivity.
Qed.

Lemma quiet_disk f w : Quiet w (set_disk f w).
Proof.
  split; [split; [apply Append_same_sessObjs|]|]; repeat split; reflexivity.
Qed.

Lemma quiet_trace e w :
  isModelCall e = false -> Quiet w (set_trace (fun t => t ++ [e]) w).
Proof.
  intros He.
  split; [split; [apply Append_same_sessObjs|]; repeat split; reflexivity|].
  unfold modelCalls. simpl. rewrite List.filter_app. simpl.
  rewrite He. rewrite app_nil_r. reflexivity.
Qed.

Lemma quiet_alter (f : Session -> Session) a w :
  (forall s, messages s `prefix_of` messages (f s) /\ s_id (f s) = s_id s) ->
  Quiet w (set_sessObjs (fun h => alter f a h) w).
Proof.
  intros Hf. split; [|reflexivity].
  split; [|repeat split].
  intros b s Hb. simpl.
  destruct (decide (a = b)) as [->|Hne].
  - exists (f s). rewrite list_lookup_alter_eq, Hb. simpl.
    destruct (Hf s). auto.
  - exists s. rewrite list_lookup_alter_ne by assumption.
    repeat split; [assumption | reflexivity].
Qed.

Lemma quiet_alloc (s : Session) w :
  Quiet w (set_sessObjs (fun h => h ++ [s]) w).
Proof.
  split; [|reflexivity].
  split; [|repeat split].
  intros b s0 Hb. simpl. exists s0.
  repeat split; [|reflexivity].
  apply lookup_app_l_Some. assumption.
Qed.

End Frames.

(** ** Frame properties of the session manager and of the agent loop *)
Module AgentFrames.
Import Proc ProcFacts Frames AwesomeAgent.

(** Decompose a goal [Respects R p] along the structure of [p]: [known]
    closes a goal about a sub-computation already dealt with, [leaf]
    proves that a primitive update is in [R]. *)
Ltac respects_with known leaf :=
  repeat first
    [ solve [known]
    | apply respects_ret
    | apply respects_throw
    | apply respects_lift
    | apply respects_bind; [|intros]
    | apply respects_await
    | apply respects_catch; [|intros]
    | apply Respects_Yield
    | apply respects_act; intros; simpl; leaf
    | match goal with
      | |- Respects _ (match ?x with _ => _ end) => destruct x
      | |- Respects _ (if ?x then _ else _) => destruct x
      end ].

Ltac quiet_leaf :=
  first [ apply quiet_tick | apply quiet_sessions | apply quiet_disk
        | apply quiet_trace; reflexivity
        | apply quiet_alloc
        | apply quiet_alter; intros; simpl; split; reflexivity
        | apply quiet_alter; intros; simpl; split;
            [apply prefix_app_r; reflexivity | reflexivity]
        | reflexivity ].

Section Quiet.
Variable env : Env.

Lemma quiet_dateNow : Respects Quiet (dateNow env).
Proof. unfold dateNow. respects_with fail quiet_leaf. Qed.

Lemma quiet_logEffect e : isModelCall e = false -> Respects Quiet (logEffect e).
Proof.
  intros He. unfold logEffect, modify.
  apply respects_act. intros w. simpl. apply quiet_trace, He.
Qed.

Lemma quiet_emit channel ev : Respects Quiet (emit channel ev).
Proof. apply quiet_logEffect. reflexivity. Qed.

Lemma quiet_read {A} (f : World -> A) : Respects Quiet (read f).
Proof. unfold read. respects_with fail quiet_leaf. Qed.

Lemma quiet_modify_sessions f : Respects Quiet (modify (set_sessions f)).
Proof. unfold modify. respects_with fail quiet_leaf. Qed.

Lemma quiet_modify_disk f : Respects Quiet (modify (set_disk f)).
Proof. unfold modify. respects_with fail quiet_leaf. Qed.

Lemma quiet_readSession a : Respects Quiet (readSession a).
Proof. unfold readSession. respects_with ltac:(apply quiet_read) quiet_leaf. Qed.

Lemma quiet_updateSession a f :
  (forall s, messages s `prefix_of` messages (f s) /\ s_id (f s) = s_id s) ->
  Respects Quiet (updateSession a f).
Proof.
  intros Hf. unfold updateSession, modify.
  apply respects_act. intros w. simpl. apply quiet_alter, Hf.
Qed.

Lemma quiet_pushMessage a m : Respects Quiet (pushMessage a m).
Proof.
  apply quiet_updateSession. intros s. simpl.
  split; [apply prefix_app_r; reflexivity | reflexivity].
Qed.

Lemma quiet_sessionPath sid : Respects Quiet (SessionManager.sessionPath sid).
Proof. apply quiet_read. Qed.

Ltac quiet_known :=
  first [ apply quiet_dateNow | apply quiet_readSession | apply quiet_read
        | apply quiet_emit | apply quiet_pushMessage
        | apply quiet_sessionPath | apply quiet_modify_sessions
        | apply quiet_modify_disk
        | apply quiet_logEffect; reflexivity
        | apply quiet_updateSession; intros; simpl; split; reflexivity ].

Lemma quiet_fs_writeFile path data :
  Respects Quiet (SessionManager.fs_writeFile env path data).
Proof. unfold SessionManager.fs_writeFile. respects_with quiet_known quiet_leaf. Qed.

Lemma quiet_save a : Respects Quiet (SessionManager.save env a).
Proof.
  unfold SessionManager.save.
  respects_with ltac:(first [apply quiet_fs_writeFile | quiet_known]) quiet_leaf.
Qed.

Lemma quiet_loadSession sid : Respects Quiet (SessionManager.loadSession sid).
Proof.
  unfold SessionManager.loadSession.
  respects_with quiet_known quiet_leaf.
Qed.

Lemma quiet_getOrCreate sid : Respects Quiet (SessionManager.getOrCreate env sid).
Proof.
  unfold SessionManager.getOrCreate.
  respects_with ltac:(first [apply quiet_loadSession | apply quiet_save
                            | quiet_known]) quiet_leaf.
Qed.

Lemma quiet_buildContext a : Respects Quiet (buildContext env a).
Proof.
  unfold buildContext, buildSystemPrompt.
  respects_with quiet_known quiet_leaf.
Qed.

Lemma quiet_toolExecute tool callId args :
  Respects Quiet (toolExecute tool callId args).
Proof. unfold toolExecute. respects_with quiet_known quiet_leaf. Qed.

Lemma quiet_executeTool call runId : Respects Quiet (executeTool call runId).
Proof.
  unfold executeTool.
  respects_with ltac:(first [apply quiet_toolExecute | quiet_known]) quiet_leaf.
Qed.

Lemma quiet_executeToolsFrom calls runId results :
  Respects Quiet (executeToolsFrom calls runId results).
Proof.
  revert results.
  induction calls as [|call rest IH]; intros results; cbn [executeToolsFrom].
  - apply respects_ret.
  - apply respects_bind; [apply quiet_executeTool | intros; apply IH].
Qed.

Lemma quiet_pushToolResults a results :
  Respects Quiet (pushToolResults env a results).
Proof.
  induction results as [|r rest IH]; cbn [pushToolResults].
  - apply respects_ret.
  - apply respects_bind; [apply quiet_dateNow | intros].
    apply respects_bind; [apply quiet_pushMessage | intros; apply IH].
Qed.

Lemma frame_of_quiet {A} (p : Proc A) : Respects Quiet p -> Respects Frame p.
Proof. apply respects_mono. exact Quiet_Frame. Qed.

Lemma frame_trace e w : Frame w (set_trace (fun t => t ++ [e]) w).
Proof. split; [apply Append_same_sessObjs|]; repeat split; reflexivity. Qed.

Lemma frame_modelGenerate opts : Respects Frame (modelGenerate env opts).
Proof.
  unfold modelGenerate, logEffect, modify.
  respects_with fail
    ltac:(first [apply frame_trace | apply Quiet_Frame; quiet_leaf]).
Qed.

Lemma frame_agentLoopFrom n a runId acc :
  Respects Frame (agentLoopFrom env n a runId acc).
Proof.
  revert acc. induction n as [|n IH]; intros acc; cbn [agentLoopFrom].
  - apply respects_ret.
  - unfold handleToolCalls, executeTools.
    respects_with ltac:(first
      [ apply IH
      | apply frame_modelGenerate
      | apply frame_of_quiet;
        first [ apply quiet_buildContext | apply quiet_executeToolsFrom
              | apply quiet_pushToolResults | quiet_known ] ])
      ltac:(apply Quiet_Frame; quiet_leaf).
Qed.

End Quiet.
End AgentFrames.

(** ** The transcript is append-only *)
Module AppendOnly.
Import Proc ProcFacts Frames AgentFrames AwesomeAgent Scheduler.

Lemma append_runObjs f w : Append w (set_runObjs f w).
Proof. apply Append_same_sessObjs. reflexivity. Qed.

Lemma append_activeRuns f w : Append w (set_activeRuns f w).
Proof. apply Append_same_sessObjs. reflexivity. Qed.

Lemma append_of_quiet {A} (p : Proc A) : Respects Quiet p -> Respects Append p.
Proof. apply respects_mono. intros w w' H. apply Frame_Append, Quiet_Frame, H. Qed.

Lemma append_of_frame {A} (p : Proc A) : Respects Frame p -> Respects Append p.
Proof. apply respects_mono. exact Frame_Append. Qed.

Ltac append_leaf :=
  first [ apply append_runObjs | apply append_activeRuns
        | apply Frame_Append, Quiet_Frame; quiet_leaf ].

Ltac append_known env :=
  first [ apply append_of_quiet;
          first [ apply quiet_dateNow | apply quiet_emit
                | apply quiet_pushMessage | apply (quiet_getOrCreate env)
                | apply (quiet_save env) ]
        | apply append_of_frame; apply frame_agentLoopFrom ].

Lemma append_updateRun a f : Respects Append (updateRun a f).
Proof. unfold updateRun, modify. apply respects_act. intros. apply append_runObjs. Qed.

Lemma append_run env params : Respects Append (run env params).
Proof.
  unfold run, runBody, runCatch, chooseRunId, agentLoop, modify.
  respects_with ltac:(first [apply append_updateRun | append_known env]) append_leaf.
  apply respects_finally; [|intros; apply append_activeRuns].
  respects_with ltac:(first [apply append_updateRun | append_known env]) append_leaf.
Qed.

Lemma append_cancel env runId w : Append w (cancel env runId w).2.
Proof.
  unfold cancel.
  destruct (activeRuns w !! runId) as [a|]; [|reflexivity].
  destruct (runObjs w !! a) as [r|]; [|reflexivity].
  destruct (decide _); [|reflexivity].
  apply Append_same_sessObjs. reflexivity.
Qed.

Lemma append_step env pool w act :
  Forall (Respects Append) pool ->
  Forall (Respects Append) (step env (pool, w) act).1 /\
  Append w (step env (pool, w) act).2.
Proof.
  intros Hpool. unfold step. destruct act as [i|runId].
  - destruct (pool !! i) as [p|] eqn:Hp;
      [|simpl; split; [assumption|reflexivity]].
    assert (Respects Append p) as HR.
    { eapply Forall_lookup_1; eassumption. }
    destruct (resume_respects Append p w HR) as [H1 H2].
    destruct (resume p w) as [p' w']. simpl in *.
    split; [|assumption].
    apply Forall_insert; assumption.
  - simpl. split; [assumption | apply append_cancel].
Qed.

Lemma append_interleave env acts pool w :
  Forall (Respects Append) pool ->
  Append w (interleave env acts (pool, w)).2.
Proof.
  revert pool w. induction acts as [|act acts IH]; intros pool w Hpool.
  - reflexivity.
  - change (interleave env (act :: acts) (pool, w))
      with (interleave env acts (step env (pool, w) act)).
    destruct (append_step env pool w act Hpool) as [H1 H2].
    destruct (step env (pool, w) act) as [pool' w'] eqn:E. simpl in *.
    etransitivity; [exact H2|]. apply IH. assumption.
Qed.

(** Session objects only grow.  Whatever runs are started, however their
    steps and calls of [cancel] are interleaved, every session object
    keeps its identity and its earlier transcript: what was there is a
    prefix of what is there afterwards, entry for entry.  This is about
    an object; which object the store holds for an id is another
    matter. *)
Lemma objects_append_only (env : Env) (requests : list RunParams)
    (acts : list Action) (w : World) (a : nat) (s : Session) :
  sessObjs w !! a = Some s ->
  exists s',
    sessObjs (interleave env acts (start env requests, w)).2 !! a = Some s' /\
    messages s `prefix_of` messages s' /\
    s_id s' = s_id s.
Proof.
  intros Hs.
  apply (append_interleave env acts (start env requests) w); [|exact Hs].
  unfold start. apply Forall_map. apply Forall_forall. intros params _.
  apply append_run.
Qed.

End AppendOnly.

(** ** Sub-computations that complete normally *)
Module Completion.
Import Proc ProcFacts Frames AgentFrames AwesomeAgent.

Lemma exec_in {A} (R : World -> World -> Prop) `{!PreOrder R}
    (p : Proc A) (w w' : World) (r : Result A) :
  Respects R p -> exec p w = (r, w') -> R w w'.
Proof.
  intros HR E. pose proof (exec_respects R p w HR) as H.
  rewrite E in H. exact H.
Qed.

Section Env.
Variable env : Env.

Lemma exec_dateNow w :
  exec (dateNow env) w = (Ok (Date_now env (tick w)), set_tick S w).
Proof. reflexivity. Qed.

Lemma exec_emit channel ev w :
  exec (emit channel ev) w = (Ok tt, set_trace (fun t => t ++ [Emit channel ev]) w).
Proof. reflexivity. Qed.

Lemma exec_logEffect e w :
  exec (logEffect e) w = (Ok tt, set_trace (fun t => t ++ [e]) w).
Proof. reflexivity. Qed.

Lemma exec_pushMessage a m w :
  exec (pushMessage a m) w =
  (Ok tt, set_sessObjs (fun h => alter (fun s =>
             mkSession (s_id s) (s_key s) (createdAt s) (updatedAt s)
                       (messages s ++ [m]) (metadata s)) a h) w).
Proof. reflexivity. Qed.

Lemma exec_updateRun a f w :
  exec (updateRun a f) w = (Ok tt, set_runObjs (fun h => alter f a h) w).
Proof. reflexivity. Qed.

Lemma exec_readSession a w s :
  sessObjs w !! a = Some s -> exec (readSession a) w = (Ok s, w).
Proof.
  intros H. unfold readSession. rewrite exec_bind, exec_read, H. reflexivity.
Qed.

(** The file system accepts every write of a session file. *)
Definition Accepts : Prop :=
  forall k path, writeFile env k path = Completes.

(** The world in which [save] has stamped and cached the session and
    has called [writeFile]. *)
Definition stamped (a : nat) (s : Session) (w : World) : World :=
  let s1 := set_updatedAt (Date_now env (tick w)) s in
  let path := SessionManager.getSessionPath (workspace (config w)) (s_id s) in
  set_trace (fun t => t ++ [FsWriteFile path s1])
    (set_sessions (fun c => <[s_id s := a]> c)
      (set_sessObjs (fun h => alter (set_updatedAt (Date_now env (tick w))) a h)
        (set_tick S w))).

(** The world [save] leaves when the write completes, step by step. *)
Definition saved (a : nat) (s : Session) (w : World) : World :=
  let s1 := set_updatedAt (Date_now env (tick w)) s in
  let path := SessionManager.getSessionPath (workspace (config w)) (s_id s) in
  set_disk (fun d => <[path := Written s1]> d)
    (set_disk (fun d => <[path := Writing s1]> d)
      (set_trace (fun t => t ++ [FsWriteFile path s1])
        (set_sessions (fun c => <[s_id s := a]> c)
          (set_sessObjs (fun h => alter (set_updatedAt (Date_now env (tick w))) a h)
            (set_tick S w))))).

(** [save], according to how the write ends. *)
Lemma exec_save a s w :
  sessObjs w !! a = Some s ->
  let s1 := set_updatedAt (Date_now env (tick w)) s in
  let path := SessionManager.getSessionPath (workspace (config w)) (s_id s) in
  exec (SessionManager.save env a) w =
  match writeFile env (S (tick w)) path with
  | Completes => (Ok tt, saved a s w)
  | Refused msg => (Throw msg, stamped a s w)
  | Breaks msg =>
      (Throw msg, set_disk (fun d => <[path := Writing s1]> d) (stamped a s w))
  end.
Proof.
  intros Hs. unfold SessionManager.save.
  rewrite exec_bind, exec_dateNow.
  rewrite exec_bind. unfold updateSession. rewrite exec_modify.
  rewrite exec_bind.
  erewrite exec_readSession
    by (simpl; rewrite list_lookup_alter_eq, Hs; reflexivity).
  rewrite exec_bind, exec_modify.
  unfold SessionManager.sessionPath. rewrite exec_bind, exec_read.
  unfold SessionManager.fs_writeFile.
  rewrite exec_bind, exec_logEffect, exec_bind, exec_read.
  cbn [tick config set_trace set_sessions set_sessObjs set_tick s_id set_updatedAt].
  destruct (writeFile env (S (tick w)) _) as [|msg|msg].
  - rewrite exec_bind, exec_modify. reflexivity.
  - reflexivity.
  - rewrite exec_bind, exec_modify. reflexivity.
Qed.

Lemma exec_save_eq a s w :
  sessObjs w !! a = Some s ->
  writeFile env (S (tick w))
    (SessionManager.getSessionPath (workspace (config w)) (s_id s)) = Completes ->
  exec (SessionManager.save env a) w = (Ok tt, saved a s w).
Proof.
  intros Hs Hw. rewrite (exec_save a s w Hs). cbn zeta. rewrite Hw. reflexivity.
Qed.

(** The transcript of a session as the store holds it: in the cache,
    else on disk, else empty. *)
Definition transcriptOf (w : World) (sessionId : string) : list Message :=
  match sessions w !! sessionId with
  | Some a => match sessObjs w !! a with
              | Some s => messages s
              | None => []
              end
  | None =>
      match disk w !! SessionManager.getSessionPath (workspace (config w)) sessionId with
      | Some (Written s) => messages s
      | _ => []
      end
  end.

(** The store can hand out the session: it is cached under its own id,
    or its file is complete and holds that session, or it is new. *)
Definition coherent (w : World) (sessionId : string) : Prop :=
  match sessions w !! sessionId with
  | Some a => exists s, sessObjs w !! a = Some s /\ s_id s = sessionId
  | None =>
      match disk w !! SessionManager.getSessionPath (workspace (config w)) sessionId with
      | Some (Written s) => s_id s = sessionId
      | Some (Writing _) => False
      | None => True
      end
  end.

Lemma exec_getOrCreate sid w :
  coherent w sid ->
  Accepts ->
  exists a s w',
    exec (SessionManager.getOrCreate env sid) w = (Ok a, w') /\
    Quiet w w' /\
    sessions w' !! sid = Some a /\
    sessObjs w' !! a = Some s /\
    s_id s = sid /\
    messages s = transcriptOf w sid.
Proof.
  intros Hc Hacc.
  assert (forall a w', exec (SessionManager.getOrCreate env sid) w = (Ok a, w') ->
                       Quiet w w') as HQ.
  { intros a w' E. eapply exec_in; [typeclasses eauto | apply quiet_getOrCreate | exact E]. }
  unfold coherent in Hc. unfold transcriptOf.
  unfold SessionManager.getOrCreate in *.
  rewrite exec_bind, exec_read in *.
  destruct (sessions w !! sid) as [a|] eqn:Hcache.
  - destruct Hc as (s & Hs & Hid). rewrite Hs.
    exists a, s, w. rewrite exec_ret in *.
    split; [reflexivity|]. split; [eapply HQ; reflexivity|]. auto.
  - unfold SessionManager.sessionPath in *.
    rewrite exec_bind, exec_read in *.
    rewrite exec_bind, exec_read in *.
    set (path := SessionManager.getSessionPath (workspace (config w)) sid) in *.
    destruct (disk w !! path) as [[s|s]|] eqn:Hdisk; [|contradiction|].
    + rewrite bool_decide_eq_true_2 in * by (eexists; reflexivity).
      rewrite exec_bind, exec_await in *.
      unfold SessionManager.loadSession, SessionManager.sessionPath in *.
      rewrite exec_bind, exec_read in *.
      fold path in HQ |- *.
      rewrite exec_bind, exec_logEffect in *.
      cbn [exec] in *.
      rewrite exec_bind, exec_read in *.
      cbn [disk set_trace] in *. rewrite Hdisk in *.
      rewrite exec_act in *. cbn [fst snd] in *.
      rewrite exec_bind, exec_modify, exec_ret in *.
      eexists _, s, _. split; [reflexivity|].
      split; [eapply HQ; reflexivity|].
      cbn. rewrite lookup_insert_eq.
      split; [reflexivity|].
      split; [apply list_lookup_middle; reflexivity|].
      split; [assumption | reflexivity].
    + rewrite bool_decide_eq_false_2 in *
        by (intros [x Hx]; discriminate).
      rewrite exec_bind, exec_dateNow in *.
      rewrite exec_bind, exec_dateNow in *.
      rewrite exec_bind, exec_act in *. cbn [fst snd] in *.
      rewrite exec_bind, exec_modify in *.
      rewrite exec_bind, exec_await in *.
      erewrite exec_save_eq in *
        by (first [apply Hacc | cbn; apply list_lookup_middle; reflexivity]).
      rewrite exec_ret in *.
      eexists _, _, _. split; [reflexivity|].
      split; [eapply HQ; reflexivity|].
      cbn. rewrite lookup_insert_eq.
      split; [reflexivity|].
      split; [rewrite list_lookup_alter_eq, list_lookup_middle by reflexivity;
              reflexivity|].
      split; reflexivity.
Qed.

(** *** Tool dispatch *)

(** What dispatching [call] in world [w] comes to: the registry's answer,
    then the tool's. *)
Definition dispatch (w : World) (call : ToolCall) : Result JsValue :=
  match ToolRegistry.get (toolRegistry w) (tc_name call) with
  | None => Throw ("Tool not found: " +:+ tc_name call)
  | Some tool => t_execute tool (tick w) (tc_id call) (tc_arguments call)
  end.

(** The entry [executeTools] records for an outcome. *)
Definition entryOf (call : ToolCall) (r : Result JsValue) : ToolResult :=
  match r with
  | Ok v => mkToolResult (tc_id call) (tc_name call) v None
  | Throw msg => mkToolResult (tc_id call) (tc_name call) JNull (Some msg)
  end.

(** Asking a tool is one interaction; a call that the registry does not
    resolve makes none. *)
Definition tickAfter (w : World) (call : ToolCall) : nat :=
  match ToolRegistry.get (toolRegistry w) (tc_name call) with
  | Some _ => S (tick w)
  | None => tick w
  end.

Lemma exec_executeTool call runId w :
  exists w',
    exec (executeTool call runId) w = (Ok (entryOf call (dispatch w call)), w') /\
    Quiet w w' /\
    sessObjs w' = sessObjs w /\
    tick w' = tickAfter w call.
Proof.
  assert (exists w', exec (executeTool call runId) w
                     = (Ok (entryOf call (dispatch w call)), w') /\
                     sessObjs w' = sessObjs w /\
                     tick w' = tickAfter w call) as (w' & E & HS & HT).
  { unfold executeTool, dispatch, tickAfter.
    rewrite exec_catch, exec_bind, exec_emit, exec_bind, exec_read.
    cbn [toolRegistry set_trace].
    destruct (ToolRegistry.get (toolRegistry w) (tc_name call)) as [tool|].
    - rewrite exec_bind, exec_await. unfold toolExecute.
      rewrite exec_bind, exec_logEffect, exec_bind, exec_act, exec_lift.
      cbn [fst snd tick set_trace].
      destruct (t_execute tool (tick w) (tc_id call) (tc_arguments call)) as [v|msg].
      + rewrite exec_bind, exec_emit, exec_ret. eexists. repeat split; reflexivity.
      + rewrite exec_bind, exec_emit, exec_ret. eexists. repeat split; reflexivity.
    - rewrite exec_throw, exec_bind, exec_emit, exec_ret.
      eexists. repeat split; reflexivity. }
  exists w'. split; [exact E|]. split; [|split; [exact HS | exact HT]].
  eapply exec_in; [typeclasses eauto | apply quiet_executeTool | exact E].
Qed.

(** The outcomes of dispatching [calls] one after the other, the first
    at interaction [k]: a call whose name the registry does not resolve
    fails without reaching a tool; a resolved tool is asked, which is one
    interaction. *)
Fixpoint dispatchAll (reg : ToolRegistry.t) (k : nat) (calls : list ToolCall)
  : list (Result JsValue) :=
  match calls with
  | [] => []
  | call :: rest =>
      match ToolRegistry.get reg (tc_name call) with
      | None =>
          Throw ("Tool not found: " +:+ tc_name call) :: dispatchAll reg k rest
      | Some tool =>
          t_execute tool k (tc_id call) (tc_arguments call)
          :: dispatchAll reg (S k) rest
      end
  end.

Lemma length_dispatchAll reg k calls :
  List.length (dispatchAll reg k calls) = List.length calls.
Proof.
  revert k. induction calls as [|call rest IH]; intros k; simpl; [reflexivity|].
  destruct (ToolRegistry.get reg (tc_name call)); simpl; rewrite IH; reflexivity.
Qed.

(** The entries [executeTools] returns for [calls], started in [w]. *)
Definition entriesOf (reg : ToolRegistry.t) (k : nat) (calls : list ToolCall)
  : list ToolResult :=
  zip_with entryOf calls (dispatchAll reg k calls).

Lemma exec_executeToolsFrom calls runId acc w :
  exists w',
    exec (executeToolsFrom calls runId acc) w
      = (Ok (acc ++ entriesOf (toolRegistry w) (tick w) calls), w') /\
    Quiet w w' /\
    sessObjs w' = sessObjs w.
Proof.
  revert acc w.
  induction calls as [|call rest IH]; intros acc w; cbn [executeToolsFrom].
  - exists w. unfold entriesOf. simpl. rewrite app_nil_r.
    split; [reflexivity|]. split; reflexivity.
  - destruct (exec_executeTool call runId w) as (w1 & E1 & Q1 & S1 & T1).
    destruct (IH (acc ++ [entryOf call (dispatch w call)]) w1)
      as (w2 & E2 & Q2 & S2).
    exists w2. rewrite exec_bind, E1, E2. rewrite <- app_assoc.
    split; [|split; [etransitivity; eassumption | congruence]].
    do 2 f_equal. f_equal.
    destruct Q1 as [(_ & _ & _ & R1 & _) _]. rewrite R1, T1.
    unfold entriesOf, dispatch, tickAfter. simpl.
    destruct (ToolRegistry.get (toolRegistry w) (tc_name call)); reflexivity.
Qed.

Definition with_messages (s : Session) (ms : list Message) : Session :=
  mkSession (s_id s) (s_key s) (createdAt s) (updatedAt s) ms (metadata s).

Lemma exec_pushMessage_at a m w s :
  sessObjs w !! a = Some s ->
  exists w',
    exec (pushMessage a m) w = (Ok tt, w') /\
    Quiet w w' /\
    sessObjs w' !! a = Some (with_messages s (messages s ++ [m])).
Proof.
  intros Hs. eexists. split; [apply exec_pushMessage|].
  split.
  - eapply exec_in; [typeclasses eauto | apply (quiet_pushMessage a m)
                    | apply exec_pushMessage].
  - cbn. rewrite list_lookup_alter_eq, Hs. reflexivity.
Qed.

Lemma exec_pushToolResults a results w s :
  sessObjs w !! a = Some s ->
  exists times w',
    exec (pushToolResults env a results) w = (Ok tt, w') /\
    Quiet w w' /\
    List.length times = List.length results /\
    sessObjs w' !! a =
      Some (with_messages s (messages s ++ zip_with (toolMessage env) results times)).
Proof.
  revert w s.
  induction results as [|r rest IH]; intros w s Hs; cbn [pushToolResults].
  - exists [], w. rewrite exec_ret. simpl. rewrite app_nil_r.
    split; [reflexivity|]. split; [reflexivity|]. split; [reflexivity|].
    destruct s; exact Hs.
  - rewrite exec_bind, exec_dateNow.
    assert (sessObjs (set_tick S w) !! a = Some s) as Hs1 by exact Hs.
    destruct (exec_pushMessage_at a (toolMessage env r (Date_now env (tick w)))
                _ s Hs1) as (w1 & E1 & Q1 & S1).
    destruct (IH w1 _ S1) as (times & w2 & E2 & Q2 & L2 & S2).
    exists (Date_now env (tick w) :: times), w2.
    rewrite exec_bind, E1, E2.
    split; [reflexivity|].
    split.
    { etransitivity; [apply (quiet_tick S)|].
      etransitivity; eassumption. }
    split; [simpl; congruence|].
    rewrite S2. unfold with_messages. simpl.
    rewrite <- app_assoc. reflexivity.
Qed.

Lemma exec_buildContext a w s :
  sessObjs w !! a = Some s ->
  exec (buildContext env a) w =
  (Ok (mkMessage Role.system (systemPrompt w) None None (Date_now env (tick w))
       :: lastN 20 (messages s)),
   set_tick S w).
Proof.
  intros Hs. unfold buildContext, buildSystemPrompt.
  rewrite exec_bind, exec_read, exec_bind, exec_dateNow, exec_bind.
  erewrite exec_readSession by exact Hs.
  reflexivity.
Qed.

Lemma exec_handleToolCalls a runId acc resp calls w s :
  sessObjs w !! a = Some s ->
  exists times now w',
    exec (handleToolCalls env a runId acc resp calls) w = (Ok tt, w') /\
    Quiet w w' /\
    List.length times = List.length calls /\
    sessObjs w' !! a =
      Some (with_messages s
              (messages s
               ++ mkMessage Role.assistant acc (gr_toolCalls resp) None now
               :: zip_with (toolMessage env)
                    (entriesOf (toolRegistry w) (tick w) calls) times)).
Proof.
  intros Hs. unfold handleToolCalls, executeTools.
  destruct (exec_executeToolsFrom calls runId [] w) as (w1 & E1 & Q1 & S1).
  set (results := entriesOf (toolRegistry w) (tick w) calls) in *.
  simpl in E1.
  rewrite exec_bind, exec_await, E1, exec_bind, exec_dateNow, exec_bind.
  assert (sessObjs (set_tick S w1) !! a = Some s) as Hs1.
  { cbn. rewrite S1. exact Hs. }
  destruct (exec_pushMessage_at a
              (mkMessage Role.assistant acc (gr_toolCalls resp) None
                         (Date_now env (tick w1))) _ s Hs1)
    as (w2 & E2 & Q2 & S2).
  rewrite E2.
  destruct (exec_pushToolResults a results w2 _ S2)
    as (times & w3 & E3 & Q3 & L3 & S3).
  exists times, (Date_now env (tick w1)), w3.
  split; [exact E3|].
  split.
  { etransitivity; [exact Q1|].
    etransitivity; [apply (quiet_tick S)|].
    etransitivity; eassumption. }
  split.
  { rewrite L3. unfold results, entriesOf.
    rewrite length_zip_with, length_dispatchAll. lia. }
  rewrite S3. unfold with_messages. simpl.
  rewrite <- app_assoc. reflexivity.
Qed.

(** *** One turn of the loop *)

(** The request of the turn that starts in world [w] on a session
    whose object holds [s], and the backend's answer to it. *)
Definition turnOptions (w : World) (s : Session) : GenerateOptions :=
  mkGenerateOptions
    (mkMessage Role.system (systemPrompt w) None None (Date_now env (tick w))
     :: lastN 20 (messages s))
    (thinkingLevel (config w))
    (ToolRegistry.getAvailableTools (toolRegistry w)).

Definition turnAnswer (w : World) (s : Session) : Result GenerateResult :=
  generate env (S (tick w)) (turnOptions w s).

Definition nextResponse (acc : string) (resp : GenerateResult) : string :=
  if String.eqb (text resp) "" then acc else acc +:+ text resp.

(** The world once the model has been called. *)
Definition called (w : World) (s : Session) : World :=
  set_tick S (set_trace (fun t => t ++ [ModelCall (turnOptions w s)]) (set_tick S w)).

(** The world once the answer's text, if any, has been announced. *)
Definition answered (w : World) (s : Session) (runId acc : string)
    (resp : GenerateResult) : World :=
  if String.eqb (text resp) "" then called w s
  else set_trace (fun t => t ++ [Emit "assistant"
                    (mkEvent "assistant" runId
                       (AssistantDelta (text resp) (nextResponse acc resp)))])
                 (called w s).

Lemma modelCalls_called w s : modelCalls (called w s) = S (modelCalls w).
Proof.
  unfold modelCalls, called. simpl. rewrite List.filter_app. simpl.
  rewrite length_app. simpl. lia.
Qed.

Lemma called_Frame w s : Frame w (called w s).
Proof. split; [apply Append_same_sessObjs|]; repeat split; reflexivity. Qed.

Lemma answered_Frame w s runId acc resp : Frame w (answered w s runId acc resp).
Proof.
  unfold answered. destruct (String.eqb _ _); [apply called_Frame|].
  split; [apply Append_same_sessObjs|]; repeat split; reflexivity.
Qed.

Lemma modelCalls_answered w s runId acc resp :
  modelCalls (answered w s runId acc resp) = S (modelCalls w).
Proof.
  unfold answered. destruct (String.eqb _ _); [apply modelCalls_called|].
  rewrite <- (modelCalls_called w s).
  unfold modelCalls. simpl. rewrite !List.filter_app. simpl.
  rewrite !app_nil_r. reflexivity.
Qed.

Lemma sessObjs_answered w s runId acc resp :
  sessObjs (answered w s runId acc resp) = sessObjs w.
Proof. unfold answered. destruct (String.eqb _ _); reflexivity. Qed.

(** The loop body, unfolded according to the backend's answer. *)
Lemma agentLoopFrom_turn n a runId acc w s :
  sessObjs w !! a = Some s ->
  exec (agentLoopFrom env (S n) a runId acc) w =
  match turnAnswer w s with
  | Throw msg => (Throw msg, called w s)
  | Ok resp =>
      let acc' := nextResponse acc resp in
      let w1 := answered w s runId acc resp in
      match requestedTools resp with
      | Some calls =>
          exec (_ ← handleToolCalls env a runId acc' resp calls;
                agentLoopFrom env n a runId acc') w1
      | None =>
          (Ok acc',
           set_sessObjs (fun h => alter (fun s0 =>
               with_messages s0
                 (messages s0 ++ [mkMessage Role.assistant acc' None None
                                            (Date_now env (tick w1))])) a h)
             (set_tick S w1))
      end
  end.
Proof.
  intros Hs. cbn [agentLoopFrom].
  rewrite exec_bind. erewrite exec_buildContext by exact Hs.
  rewrite exec_bind, exec_read, exec_bind, exec_read.
  rewrite exec_bind, exec_await.
  unfold modelGenerate.
  rewrite exec_bind, exec_logEffect, exec_bind, exec_act, exec_lift.
  cbn [fst snd tick set_tick set_trace config toolRegistry].
  unfold turnAnswer, turnOptions.
  destruct (generate env (S (tick w)) _) as [resp|msg]; [|reflexivity].
  cbn zeta. unfold answered, nextResponse.
  rewrite exec_bind.
  destruct (String.eqb (text resp) "") eqn:Htext.
  - rewrite exec_ret.
    destruct (requestedTools resp) as [calls|]; [reflexivity|].
    rewrite exec_bind, exec_dateNow, exec_bind, exec_pushMessage, exec_ret.
    reflexivity.
  - rewrite exec_emit.
    destruct (requestedTools resp) as [calls|]; [reflexivity|].
    rewrite exec_bind, exec_dateNow, exec_bind, exec_pushMessage, exec_ret.
    reflexivity.
Qed.

(** A turn in which the backend asks for tools ends normally, whatever
    the tools do, and the loop goes on. *)
Lemma tick_answered w s runId acc resp :
  tick (answered w s runId acc resp) = S (S (tick w)).
Proof. unfold answered. destruct (String.eqb _ _); reflexivity. Qed.

Lemma toolRegistry_answered w s runId acc resp :
  toolRegistry (answered w s runId acc resp) = toolRegistry w.
Proof. unfold answered. destruct (String.eqb _ _); reflexivity. Qed.

(** The entries of the tool calls of the turn that starts in [w]: the
    context is stamped and the model asked before the first dispatch. *)
Definition turnEntries (w : World) (calls : list ToolCall) : list ToolResult :=
  entriesOf (toolRegistry w) (S (S (tick w))) calls.

Lemma agentLoopFrom_tools n a runId acc w s resp calls :
  sessObjs w !! a = Some s ->
  turnAnswer w s = Ok resp ->
  requestedTools resp = Some calls ->
  exists times now w',
    exec (agentLoopFrom env (S n) a runId acc) w =
      exec (agentLoopFrom env n a runId (nextResponse acc resp)) w' /\
    Frame w w' /\
    modelCalls w' = S (modelCalls w) /\
    List.length times = List.length calls /\
    sessObjs w' !! a =
      Some (with_messages s
              (messages s
               ++ mkMessage Role.assistant (nextResponse acc resp)
                            (gr_toolCalls resp) None now
               :: zip_with (toolMessage env) (turnEntries w calls) times)).
Proof.
  intros Hs Hans Hreq.
  rewrite (agentLoopFrom_turn n a runId acc w s Hs), Hans. cbn zeta.
  rewrite Hreq.
  assert (sessObjs (answered w s runId acc resp) !! a = Some s) as Hs1.
  { rewrite sessObjs_answered. exact Hs. }
  destruct (exec_handleToolCalls a runId (nextResponse acc resp) resp calls _ s Hs1)
    as (times & now & w2 & E2 & Q2 & L2 & S2).
  rewrite tick_answered, toolRegistry_answered in S2.
  exists times, now, w2.
  rewrite exec_bind, E2.
  split; [reflexivity|].
  split.
  { etransitivity; [apply (answered_Frame w s runId acc resp)|].
    apply Quiet_Frame, Q2. }
  split.
  { destruct Q2 as [_ Q2]. rewrite Q2. apply modelCalls_answered. }
  split; assumption.
Qed.

(** The backend always answers. *)
Definition Answers : Prop :=
  forall k opts, exists resp, generate env k opts = Ok resp.

(** The backend never stops asking for tools. *)
Definition KeepsCalling : Prop :=
  forall k opts, exists resp,
    generate env k opts = Ok resp /\ requestedTools resp <> None.

Lemma KeepsCalling_Answers : KeepsCalling -> Answers.
Proof. intros H k opts. destruct (H k opts) as (r & E & _). eauto. Qed.

Lemma agentLoopFrom_ok n a runId :
  Answers ->
  forall acc w s,
    sessObjs w !! a = Some s ->
    exists acc' w',
      exec (agentLoopFrom env n a runId acc) w = (Ok acc', w') /\
      Frame w w' /\
      modelCalls w' <= modelCalls w + n /\
      (if n is 0 then modelCalls w else S (modelCalls w)) <= modelCalls w' /\
      (KeepsCalling -> modelCalls w' = modelCalls w + n).
Proof.
  intros Hans. induction n as [|n IH]; intros acc w s Hs.
  - exists acc, w. cbn [agentLoopFrom]. rewrite exec_ret.
    split; [reflexivity|]. split; [reflexivity|].
    split; [lia|]. split; [lia|]. intros _. lia.
  - destruct (Hans (S (tick w)) (turnOptions w s)) as [resp Hresp].
    destruct (requestedTools resp) as [calls|] eqn:Hreq.
    + destruct (agentLoopFrom_tools n a runId acc w s resp calls Hs Hresp Hreq)
        as (times & now & w1 & E1 & F1 & C1 & _ & S1).
      destruct (IH (nextResponse acc resp) w1 _ S1)
        as (acc' & w2 & E2 & F2 & C2 & L2 & K2).
      exists acc', w2. rewrite E1, E2.
      split; [reflexivity|].
      split; [etransitivity; eassumption|].
      split; [lia|]. split; [destruct n; lia|].
      intros HK. specialize (K2 HK). lia.
    + rewrite (agentLoopFrom_turn n a runId acc w s Hs).
      unfold turnAnswer. rewrite Hresp. cbn zeta. rewrite Hreq.
      eexists _, _. split; [reflexivity|].
      assert (Quiet (answered w s runId acc resp)
                (set_sessObjs (fun h => alter (fun s0 =>
                   with_messages s0
                     (messages s0 ++ [mkMessage Role.assistant
                        (nextResponse acc resp) None None
                        (Date_now env (tick (answered w s runId acc resp)))])) a h)
                   (set_tick S (answered w s runId acc resp)))) as HQ.
      { etransitivity; [apply (quiet_tick S)|].
        apply quiet_alter. intros s0. simpl.
        split; [apply prefix_app_r; reflexivity | reflexivity]. }
      split.
      { etransitivity; [apply (answered_Frame w s runId acc resp)|].
        apply Quiet_Frame, HQ. }
      destruct HQ as [_ HQ]. rewrite HQ, modelCalls_answered.
      split; [lia|]. split; [lia|].
      intros HK. destruct (HK (S (tick w)) (turnOptions w s)) as (r' & E' & N').
      rewrite Hresp in E'. inversion E'; subst r'. contradiction.
Qed.

End Env.
End Completion.

(** ** A whole run, executed without interference *)
Module RunFacts.
Import Proc ProcFacts Frames AgentFrames AwesomeAgent Completion.

Section Env.
Variable env : Env.

(** The id [run] gives the run it starts in world [w]. *)
Definition runIdOf (params : RunParams) (w : World) : string :=
  match nonEmpty (p_runId params) with
  | Some runId => runId
  | None => freshRunId env (tick w)
  end.

Lemma exec_chooseRunId params w :
  exists w', exec (chooseRunId env params) w = (Ok (runIdOf params w), w') /\
             Quiet w w' /\ sessions w' = sessions w /\ disk w' = disk w /\
             sessObjs w' = sessObjs w.
Proof.
  unfold chooseRunId, runIdOf.
  destruct (nonEmpty (p_runId params)).
  - exists w. rewrite exec_ret. repeat split; reflexivity.
  - eexists. rewrite exec_act. cbn [fst snd].
    split; [reflexivity|]. split; [apply (quiet_tick S)|].
    repeat split; reflexivity.
Qed.

Lemma coherent_ext w w' sid :
  sessions w' = sessions w -> disk w' = disk w ->
  sessObjs w' = sessObjs w -> config w' = config w ->
  coherent w sid -> coherent w' sid.
Proof. unfold coherent. intros -> -> -> ->. auto. Qed.

Lemma transcriptOf_ext w w' sid :
  sessions w' = sessions w -> disk w' = disk w ->
  sessObjs w' = sessObjs w -> config w' = config w ->
  transcriptOf w' sid = transcriptOf w sid.
Proof. unfold transcriptOf. intros -> -> -> ->. reflexivity. Qed.

(** What a run that is left alone comes to when the backend answers
    every request and the file system accepts every write. *)
Lemma exec_run params w :
  coherent w (p_sessionId params) ->
  Answers env ->
  Accepts env ->
  exists w' a s1 r now,
    exec (run env params) w = (Ok (List.length (runObjs w)), w') /\
    runObjs w' !! List.length (runObjs w) = Some r /\
    r_id r = runIdOf params w /\
    status r = Status.completed /\
    r_error r = None /\
    activeRuns w' !! runIdOf params w = None /\
    sessions w' !! p_sessionId params = Some a /\
    sessObjs w' !! a = Some s1 /\
    s_id s1 = p_sessionId params /\
    disk w' !! SessionManager.getSessionPath (workspace (config w'))
                                             (p_sessionId params)
      = Some (Written s1) /\
    (transcriptOf w (p_sessionId params)
       ++ [mkMessage Role.user (p_message params) None None now])
      `prefix_of` messages s1 /\
    S (modelCalls w) <= modelCalls w' /\
    modelCalls w' <= modelCalls w + maxIterations /\
    (KeepsCalling env -> modelCalls w' = modelCalls w + maxIterations).
Proof.
  intros Hcoh Hans Hacc.
  set (sid := p_sessionId params) in *.
  set (runId := runIdOf params w).
  set (ra := List.length (runObjs w)).
  unfold run.
  destruct (exec_chooseRunId params w) as (w1 & E1 & Q1 & C1 & D1 & O1).
  rewrite exec_bind, E1. fold runId.
  rewrite exec_bind, exec_dateNow, exec_bind, exec_act. cbn [fst snd].
  rewrite exec_bind, exec_modify, exec_bind, exec_emit.
  rewrite exec_finally, exec_catch.
  unfold runBody. rewrite exec_bind, exec_updateRun, exec_bind, exec_await.
  destruct Q1 as [(A1 & R1 & AR1 & T1 & G1) M1].
  cbn [runObjs set_tick]. rewrite R1. fold ra.
  match goal with
  | |- context [exec (SessionManager.getOrCreate env _) ?W] => set (w2 := W)
  end.
  assert (coherent w2 sid) as Hcoh2.
  { apply (coherent_ext w); [exact C1 | exact D1 | exact O1 | exact G1 | exact Hcoh]. }
  assert (transcriptOf w2 sid = transcriptOf w sid) as Htr2.
  { apply transcriptOf_ext; [exact C1 | exact D1 | exact O1 | exact G1]. }
  assert (runObjs w2 = alter (set_status Status.running) ra
            (runObjs w ++ [mkAgentRun runId sid Status.pending
                             (Some (Date_now env (tick w1))) None None])) as HR2.
  { subst w2. cbn [runObjs set_runObjs set_trace set_activeRuns set_tick].
    rewrite R1. reflexivity. }
  assert (modelCalls w2 = modelCalls w) as HM2.
  { rewrite <- M1. unfold modelCalls. subst w2. simpl.
    rewrite List.filter_app. simpl. rewrite app_nil_r. reflexivity. }
  assert (config w2 = config w) as HG2 by exact G1.
  clearbody w2.
  destruct (exec_getOrCreate env sid w2 Hcoh2 Hacc)
    as (a & s & w3 & E3 & Q3 & C3 & S3 & I3 & T3).
  fold sid. rewrite E3.
  rewrite exec_bind, exec_dateNow, exec_bind.
  assert (sessObjs (set_tick S w3) !! a = Some s) as S3' by exact S3.
  destruct (exec_pushMessage_at a
              (mkMessage Role.user (p_message params) None None
                         (Date_now env (tick w3))) _ s S3')
    as (w4 & E4 & Q4 & S4).
  rewrite E4. rewrite exec_bind, exec_await. unfold agentLoop.
  destruct (agentLoopFrom_ok env maxIterations a runId Hans "" w4 _ S4)
    as (acc & w5 & E5 & F5 & B5 & L5 & K5).
  rewrite E5.
  destruct F5 as (A5 & R5 & AR5 & T5 & G5).
  destruct (A5 a _ S4) as (s5 & S5 & P5 & I5).
  rewrite exec_bind, exec_await, (exec_save_eq env a s5 w5 S5 (Hacc _ _)).
  rewrite exec_bind, exec_updateRun, exec_bind, exec_dateNow.
  rewrite exec_bind, exec_updateRun, exec_bind, exec_emit, exec_ret.
  cbn [fst snd].
  assert (Quiet w2 w4) as Q24.
  { etransitivity; [exact Q3|].
    etransitivity; [apply (quiet_tick S)|]. exact Q4. }
  destruct Q24 as [(A24 & R24 & AR24 & T24 & G24) M24].
  eexists _, a, _, _, (Date_now env (tick w3)).
  split; [reflexivity|].
  cbn [runObjs activeRuns sessions sessObjs disk config saved
       set_activeRuns set_trace set_runObjs set_tick set_disk
       set_sessions set_sessObjs].
  rewrite R5, R24, HR2.
  split.
  { rewrite !list_lookup_alter_eq.
    unfold ra. rewrite list_lookup_middle by reflexivity. reflexivity. }
  split; [reflexivity|]. split; [reflexivity|]. split; [reflexivity|].
  split; [apply lookup_delete_eq|].
  simpl in I5. rewrite I5, I3.
  split; [apply lookup_insert_eq|].
  split; [rewrite list_lookup_alter_eq, S5; reflexivity|].
  split; [simpl; congruence|].
  split.
  { rewrite G5, G24. rewrite lookup_insert_eq. reflexivity. }
  split.
  { simpl. simpl in P5. rewrite T3, Htr2 in P5. exact P5. }
  unfold modelCalls in *.
  cbn [trace saved set_activeRuns set_trace set_runObjs set_tick set_disk
       set_sessions set_sessObjs].
  rewrite !List.filter_app. simpl. rewrite !app_nil_r.
  unfold maxIterations in *.
  split; [lia|]. split; [lia|].
  intros HK. specialize (K5 HK). lia.
Qed.

End Env.
End RunFacts.

(** ** Reaching the iteration cap *)
Module IterationCap.
Import Proc Frames AwesomeAgent Completion RunFacts Demo.

(** C1 (amended): a run whose backend asks for tools on every turn, on a
    session the store can hand out and with a file system that accepts
    the writes of the session file, makes exactly [maxIterations] (10)
    model calls and then ends normally: the run record it returns has
    status 'completed' and no error description. *)
Theorem cap_reached_completes (env : Env) (params : RunParams) (w : World) :
  coherent w (p_sessionId params) ->
  KeepsCalling env ->
  Accepts env ->
  exists w' r,
    exec (run env params) w = (Ok (List.length (runObjs w)), w') /\
    runObjs w' !! List.length (runObjs w) = Some r /\
    status r = Status.completed /\
    r_error r = None /\
    modelCalls w' = modelCalls w + maxIterations.
Proof.
  intros Hcoh HK Hacc.
  destruct (exec_run env params w Hcoh (KeepsCalling_Answers env HK) Hacc)
    as (w' & a & s1 & r & now & E & Hr & _ & Hst & Herr & _ & _ & _ & _ & _
        & _ & _ & _ & Hcap).
  exists w', r. repeat split; auto.
Qed.

Lemma cap_reached_completes_witness :
  exists w' r,
    exec (run (envWith alwaysTools) (request "main" "list files" "r1")) world0
      = (Ok (List.length (runObjs world0)), w') /\
    runObjs w' !! List.length (runObjs world0) = Some r /\
    status r = Status.completed /\
    r_error r = None /\
    modelCalls w' = modelCalls world0 + maxIterations.
Proof.
  apply (cap_reached_completes (envWith alwaysTools)
           (request "main" "list files" "r1") world0).
  - vm_compute. exact I.
  - intros k opts. eexists. split; [reflexivity | discriminate].
  - intros k path. reflexivity.
Defined.

(** C1 (counterexample): the backend asks for the filesystem tool on
    every turn; after the tenth model call the run returns with status
    'completed' and without an error description, not with status
    'error' and 'IterationLimitExceeded'. *)
Lemma cap_reached_counterexample :
  let '(result, w) :=
    exec (run (envWith alwaysTools) (request "main" "list files" "r1")) world0 in
  result = Ok 0 /\
  modelCalls w = 10 /\
  (status <$> runObjs w !! 0) = Some Status.completed /\
  (r_error <$> runObjs w !! 0) = Some None /\
  (status <$> runObjs w !! 0) <> Some Status.error /\
  (r_error <$> runObjs w !! 0) <> Some (Some "IterationLimitExceeded").
Proof. vm_compute. repeat split; discriminate. Qed.

(** A file system in which the directory of the session files is
    missing: every write is refused. *)
Definition noDirectory (gen : nat -> GenerateOptions -> Result GenerateResult)
  : Env :=
  {| Date_now := Date_now (envWith gen);
     freshRunId := freshRunId (envWith gen);
     generate := gen;
     JSON_stringify := stringify;
     writeFile := fun _ _ => Refused "ENOENT: no such file or directory" |}.

(** When the save that ends the run is refused, the cap is reached all
    the same, and the run ends with status 'error' and the message of
    the file system. *)
Example cap_reached_then_save_refused :
  let '(result, w) :=
    exec (run (noDirectory alwaysTools) (request "main" "again" "r1")) world1 in
  result = Throw "ENOENT: no such file or directory" /\
  modelCalls w = 10 /\
  (status <$> runObjs w !! 0) = Some Status.error /\
  (r_error <$> runObjs w !! 0) = Some (Some "ENOENT: no such file or directory").
Proof. vm_compute. repeat split. Qed.

End IterationCap.

(** ** An empty message *)
Module EmptyMessage.
Import Proc Frames AwesomeAgent Completion RunFacts Demo.

(** C6 (amended): [run] does not validate the message.  Started with an
    empty message on a session the store can hand out, with a backend
    that answers and a file system that accepts the writes of the
    session file, it does not fail: the empty text is appended to the
    transcript as a user message, the model is called, and the run
    returns normally. *)
Theorem empty_message_is_processed (env : Env) (params : RunParams) (w : World) :
  p_message params = "" ->
  coherent w (p_sessionId params) ->
  Answers env ->
  Accepts env ->
  exists w' a s1 now,
    exec (run env params) w = (Ok (List.length (runObjs w)), w') /\
    sessions w' !! p_sessionId params = Some a /\
    sessObjs w' !! a = Some s1 /\
    (transcriptOf w (p_sessionId params)
       ++ [mkMessage Role.user "" None None now]) `prefix_of` messages s1 /\
    S (modelCalls w) <= modelCalls w'.
Proof.
  intros Hempty Hcoh Hans Hacc.
  destruct (exec_run env params w Hcoh Hans Hacc)
    as (w' & a & s1 & r & now & E & _ & _ & _ & _ & _ & Hc & Hs & _ & _
        & Hp & Hm & _).
  rewrite Hempty in Hp.
  exists w', a, s1, now. repeat split; auto.
Qed.

Lemma empty_message_is_processed_witness :
  exists w' a s1 now,
    exec (run (envWith plainText) (request "main" "" "r1")) world0
      = (Ok (List.length (runObjs world0)), w') /\
    sessions w' !! "main" = Some a /\
    sessObjs w' !! a = Some s1 /\
    (transcriptOf world0 "main"
       ++ [mkMessage Role.user "" None None now]) `prefix_of` messages s1 /\
    S (modelCalls world0) <= modelCalls w'.
Proof.
  apply (empty_message_is_processed (envWith plainText)
           (request "main" "" "r1") world0).
  - reflexivity.
  - vm_compute. exact I.
  - intros k opts. eexists. reflexivity.
  - intros k path. reflexivity.
Defined.

(** C6 (counterexample): [run] with the empty message on a fresh agent
    returns normally with status 'completed'; the session has been
    mutated (it now holds the empty user message and the answer) and the
    model has been called once. *)
Lemma empty_message_counterexample :
  let '(result, w) :=
    exec (run (envWith plainText) (request "main" "" "r1")) world0 in
  result = Ok 0 /\
  (status <$> runObjs w !! 0) = Some Status.completed /\
  (r_error <$> runObjs w !! 0) = Some None /\
  modelCalls w = 1 /\
  (map (fun m => (role m, content m)) <$> (messages <$> sessObjs w !! 0))
    = Some [(Role.user, ""); (Role.assistant, "Hello")].
Proof. vm_compute. repeat split. Qed.

End EmptyMessage.

(** ** Tool failures *)
Module ToolFailures.
Import Proc Frames AwesomeAgent Completion Demo.

(** The three ways a dispatch fails: the name is not registered, the tool
    is disabled by its configuration, or the tool itself throws. *)
Lemma dispatch_fails_iff (w : World) (call : ToolCall) (msg : string) :
  dispatch w call = Throw msg <->
  (map_get (tc_name call) (ToolRegistry.tools (toolRegistry w)) = None /\
   msg = "Tool not found: " +:+ tc_name call) \/
  (ToolRegistry.disabled (toolRegistry w) (tc_name call) = true /\
   is_Some (map_get (tc_name call) (ToolRegistry.tools (toolRegistry w))) /\
   msg = "Tool not found: " +:+ tc_name call) \/
  (exists tool,
     ToolRegistry.get (toolRegistry w) (tc_name call) = Some tool /\
     t_execute tool (tick w) (tc_id call) (tc_arguments call) = Throw msg).
Proof.
  unfold dispatch, ToolRegistry.get.
  destruct (map_get (tc_name call) (ToolRegistry.tools (toolRegistry w)))
    as [tool|] eqn:Hget.
  - destruct (ToolRegistry.disabled (toolRegistry w) (tc_name call)) eqn:Hdis.
    + split.
      * intros H. inversion H. right. left. repeat split; eauto.
      * intros [[H _]|[(_ & _ & ->)|(t & H & _)]]; [discriminate|reflexivity|discriminate].
    + split.
      * intros H. right. right. exists tool. split; [reflexivity | exact H].
      * intros [[H _]|[(H & _)|(t & H & E)]]; [discriminate|discriminate|].
        inversion H; subst t. exact E.
  - split.
    + intros H. inversion H. left. split; reflexivity.
    + intros [[_ ->]|[(_ & [x H] & _)|(t & H & _)]];
        [reflexivity|discriminate|discriminate].
Qed.

(** The outcome of each dispatch of a turn is that of the registry and
    the tool: a failure is an unresolved name (not registered, or
    disabled) or the failure of the tool that was asked. *)
Lemma dispatchAll_fails (reg : ToolRegistry.t) (k i : nat)
    (calls : list ToolCall) (call : ToolCall) (msg : string) :
  calls !! i = Some call ->
  dispatchAll reg k calls !! i = Some (Throw msg) ->
  (ToolRegistry.get reg (tc_name call) = None /\
   msg = "Tool not found: " +:+ tc_name call) \/
  (exists tool k',
     ToolRegistry.get reg (tc_name call) = Some tool /\ k <= k' /\
     t_execute tool k' (tc_id call) (tc_arguments call) = Throw msg).
Proof.
  revert k i. induction calls as [|c rest IH]; intros k i Hc Hd; [discriminate|].
  simpl in Hd.
  destruct i as [|i]; simpl in Hc.
  - inversion Hc; subst c.
    destruct (ToolRegistry.get reg (tc_name call)) as [tool|] eqn:Hget;
      simpl in Hd; inversion Hd.
    + right. exists tool, k. auto.
    + left. auto.
  - destruct (ToolRegistry.get reg (tc_name c)); simpl in Hd.
    + destruct (IH (S k) i Hc Hd) as [H|(tool & k' & Hg & Hk & He)]; [left; exact H|].
      right. exists tool, k'. repeat split; [exact Hg | lia | exact He].
    + exact (IH k i Hc Hd).
Qed.

(** C2: in a turn in which the backend asks for tools, every call is
    dispatched and none of the failures ends the turn.  The assistant
    message that carries the calls and then one tool message per call,
    in the order of the calls, are appended to the session; the tool
    message of a call carries the result of its dispatch: for a failure
    (the registry does not resolve the name, or the tool throws) the
    result is null and the error field is set to the message.  The loop
    then goes on with its next iteration: the execution of the loop from
    this turn equals the execution of the remaining iterations from the
    world so reached. *)
Theorem tool_failures_are_captured (env : Env) (n a : nat)
    (runId acc : string) (w : World) (s : Session)
    (resp : GenerateResult) (calls : list ToolCall) :
  sessObjs w !! a = Some s ->
  turnAnswer env w s = Ok resp ->
  requestedTools resp = Some calls ->
  exists (w' : World) (s' : Session) (assistantMessage : Message)
         (toolMessages : list Message),
    exec (agentLoopFrom env (S n) a runId acc) w =
      exec (agentLoopFrom env n a runId (nextResponse acc resp)) w' /\
    sessObjs w' !! a = Some s' /\
    messages s' = messages s ++ assistantMessage :: toolMessages /\
    role assistantMessage = Role.assistant /\
    toolCalls assistantMessage = gr_toolCalls resp /\
    List.length toolMessages = List.length calls /\
    forall (i : nat) (call : ToolCall) (outcome : Result JsValue),
      calls !! i = Some call ->
      dispatchAll (toolRegistry w) (S (S (tick w))) calls !! i = Some outcome ->
      exists m,
        toolMessages !! i = Some m /\
        role m = Role.tool /\
        match outcome with
        | Throw msg =>
            toolResults m
              = Some [mkToolResult (tc_id call) (tc_name call) JNull (Some msg)] /\
            content m = JSON_stringify env JNull
        | Ok v =>
            toolResults m
              = Some [mkToolResult (tc_id call) (tc_name call) v None] /\
            content m = JSON_stringify env v
        end.
Proof.
  intros Hs Hans Hreq.
  destruct (agentLoopFrom_tools env n a runId acc w s resp calls Hs Hans Hreq)
    as (times & now & w' & E & _ & _ & L & S').
  eexists w', _, _, _.
  split; [exact E|]. split; [exact S'|].
  split; [reflexivity|]. split; [reflexivity|]. split; [reflexivity|].
  assert (List.length (turnEntries w calls) = List.length calls) as Hlen.
  { unfold turnEntries, entriesOf. rewrite length_zip_with, length_dispatchAll. lia. }
  split; [rewrite length_zip_with; lia|].
  intros i call outcome Hc Ho.
  assert (turnEntries w calls !! i = Some (entryOf call outcome)) as He.
  { unfold turnEntries, entriesOf. rewrite lookup_zip_with, Hc. simpl.
    rewrite Ho. reflexivity. }
  destruct (lookup_lt_is_Some_2 times i) as [t Ht].
  { apply lookup_lt_Some in Hc. lia. }
  exists (toolMessage env (entryOf call outcome) t).
  split; [rewrite lookup_zip_with, He; simpl; rewrite Ht; reflexivity|].
  split; [reflexivity|].
  destruct outcome; split; reflexivity.
Qed.

(** No tool is registered in [world1]: the requested call fails. *)
Lemma tool_failures_are_captured_witness :
  exists (w' : World) (s' : Session) (assistantMessage : Message)
         (toolMessages : list Message),
    exec (agentLoopFrom (envWith alwaysTools) 1 0 "r1" "") world1 =
      exec (agentLoopFrom (envWith alwaysTools) 0 0 "r1"
              (nextResponse "" {| text := ""; gr_toolCalls := Some [listCall];
                                  usage := None |})) w' /\
    sessObjs w' !! 0 = Some s' /\
    messages s' = messages session1 ++ assistantMessage :: toolMessages /\
    role assistantMessage = Role.assistant /\
    toolCalls assistantMessage = Some [listCall] /\
    List.length toolMessages = 1 /\
    exists m,
      toolMessages !! 0 = Some m /\
      role m = Role.tool /\
      toolResults m
        = Some [mkToolResult "call_1" "filesystem" JNull
                             (Some "Tool not found: filesystem")] /\
      content m = "null".
Proof.
  destruct (tool_failures_are_captured (envWith alwaysTools) 0 0 "r1" "" world1
              session1 {| text := ""; gr_toolCalls := Some [listCall]; usage := None |}
              [listCall] eq_refl eq_refl eq_refl)
    as (w' & s' & am & tms & E & Hs & Hm & Hr & Hc & Hl & Hall).
  exists w', s', am, tms.
  repeat (split; [assumption|]).
  apply (Hall 0 listCall (Throw "Tool not found: filesystem")); reflexivity.
Defined.

(** The same turn, computed: the failed call is in the transcript as a
    tool message whose result has the error field set. *)
Example failed_call_in_transcript :
  (map (fun m => (role m, toolResults m)) <$>
     (messages <$> sessObjs (exec (agentLoopFrom (envWith alwaysTools) 1 0 "r1" "")
                                  world1).2 !! 0))
  = Some [(Role.user, None);
          (Role.assistant, None);
          (Role.tool,
           Some [mkToolResult "call_1" "filesystem" JNull
                              (Some "Tool not found: filesystem")])].
Proof. vm_compute. reflexivity. Qed.

End ToolFailures.

(** ** [cancel], [getRun] and the index of live runs *)
Module LiveRuns.
Import Proc ProcFacts Frames AwesomeAgent Completion RunFacts Demo.

(** The status of the run object at address [a]. *)
Definition statusAt (w : World) (a : nat) : option Status.t :=
  status <$> runObjs w !! a.

Lemma cancel_running env runId w a r :
  activeRuns w !! runId = Some a ->
  runObjs w !! a = Some r ->
  status r = Status.running ->
  exists w', cancel env runId w = (true, w') /\
             statusAt w' a = Some Status.cancelled /\
             getRun runId w' = None.
Proof.
  intros Ha Hr Hst. unfold cancel. rewrite Ha, Hr.
  destruct (decide (status r = Status.running)); [|contradiction].
  eexists. split; [reflexivity|]. split.
  - unfold statusAt. cbn. rewrite !list_lookup_alter_eq, Hr. reflexivity.
  - unfold getRun. cbn. rewrite lookup_delete_eq. reflexivity.
Qed.

Lemma cancel_true_inv env runId w w' :
  cancel env runId w = (true, w') ->
  exists a r, activeRuns w !! runId = Some a /\
              runObjs w !! a = Some r /\
              status r = Status.running.
Proof.
  unfold cancel.
  destruct (activeRuns w !! runId) as [a|]; [|discriminate].
  destruct (runObjs w !! a) as [r|] eqn:Hr; [|discriminate].
  destruct (decide (status r = Status.running)) as [Hst|]; [|discriminate].
  intros _. exists a, r. auto.
Qed.

(** Whatever way [run] ends, it has removed its id from the index. *)
Lemma run_evicts env params w :
  getRun (runIdOf env params w) (exec (run env params) w).2 = None.
Proof.
  unfold run.
  destruct (exec_chooseRunId env params w) as (w1 & E1 & _).
  rewrite exec_bind, E1.
  rewrite exec_bind, exec_dateNow, exec_bind, exec_act. cbn [fst snd].
  rewrite exec_bind, exec_modify, exec_bind, exec_emit.
  rewrite exec_finally. cbn [snd].
  unfold getRun. cbn [activeRuns set_activeRuns].
  rewrite lookup_delete_eq. reflexivity.
Qed.

(** C5 (amended): [cancel] returns true exactly when the id is tracked
    and the tracked run has status 'running'; the call then sets the
    status to 'cancelled', stamps the end time and removes the run from
    the index.  In every other case (an id that is not tracked, a tracked
    run that is still 'pending' or already terminal) it returns false and
    changes nothing.  When [run] has ended, normally or not, [getRun] on
    its id is absent. *)
Theorem cancel_and_eviction (env : Env) (runId : string) (w : World)
    (params : RunParams) :
  ((cancel env runId w).1 = true <->
   exists r, getRun runId w = Some r /\ status r = Status.running) /\
  (forall a r,
     activeRuns w !! runId = Some a ->
     runObjs w !! a = Some r ->
     status r = Status.running ->
     (cancel env runId w).1 = true /\
     runObjs (cancel env runId w).2 !! a
       = Some (set_endedAt (Date_now env (tick w)) (set_status Status.cancelled r)) /\
     activeRuns (cancel env runId w).2 = delete runId (activeRuns w)) /\
  ((cancel env runId w).1 = true -> getRun runId (cancel env runId w).2 = None) /\
  ((cancel env runId w).1 = false -> (cancel env runId w).2 = w) /\
  getRun (runIdOf env params w) (exec (run env params) w).2 = None.
Proof.
  split; [|split; [|split; [|split]]].
  - unfold getRun, cancel.
    destruct (activeRuns w !! runId) as [a|].
    + destruct (runObjs w !! a) as [r|].
      * destruct (decide (status r = Status.running)) as [Hst|Hst]; cbn [fst].
        -- split; [intros _; exists r; auto | reflexivity].
        -- split; [discriminate|]. intros (r' & [= <-] & H). contradiction.
      * split; [discriminate | intros (r & H & _); discriminate].
    + split; [discriminate | intros (r & H & _); discriminate].
  - intros a r Ha Hr Hst. unfold cancel. rewrite Ha, Hr.
    destruct (decide (status r = Status.running)); [|contradiction].
    cbn. rewrite !list_lookup_alter_eq, Hr. repeat split.
  - intros E.
    assert (exists w', cancel env runId w = (true, w')) as [w' E'].
    { destruct (cancel env runId w) as [b w']. simpl in E. subst b. eauto. }
    destruct (cancel_true_inv env runId w w' E') as (a & r & Ha & Hr & Hst).
    destruct (cancel_running env runId w a r Ha Hr Hst) as (w2 & E2 & _ & G2).
    rewrite E2. exact G2.
  - unfold cancel.
    destruct (activeRuns w !! runId) as [a|]; [|reflexivity].
    destruct (runObjs w !! a) as [r|]; [|reflexivity].
    destruct (decide (status r = Status.running)); [discriminate|reflexivity].
  - apply run_evicts.
Qed.

(** A world in which run "r1" is tracked and running. *)
Definition worldRunning : World :=
  {| tick := 5; trace := [];
     runObjs := [mkAgentRun "r1" "main" Status.running (Some 0%Z) None None];
     sessObjs := []; activeRuns := {["r1" := 0]}; sessions := ∅; disk := ∅;
     toolRegistry := ToolRegistry.new []; config := baseConfig |}.

Lemma cancel_and_eviction_witness :
  (cancel (envWith plainText) "r1" worldRunning).1 = true /\
  statusAt (cancel (envWith plainText) "r1" worldRunning).2 0 = Some Status.cancelled /\
  getRun "r1" (cancel (envWith plainText) "r1" worldRunning).2 = None.
Proof.
  pose proof (cancel_and_eviction (envWith plainText) "r1" worldRunning
                (request "main" "hi" "r2")) as (_ & H & G & _).
  destruct (H 0 (mkAgentRun "r1" "main" Status.running (Some 0%Z) None None)
              eq_refl eq_refl eq_refl) as (Ht & Hr & _).
  split; [exact Ht|]. split; [unfold statusAt; rewrite Hr; reflexivity|].
  apply G, Ht.
Defined.

(** Run a computation until the world satisfies [stop]. *)
Fixpoint execUntil {A} (stop : World -> bool) (p : Proc A) (w : World) : World :=
  if stop w then w
  else match p with
       | Done _ => w
       | Step k => let '(w', p') := k w in execUntil stop p' w'
       | Yield k => execUntil stop k w
       end.

(** An event has been emitted. *)
Definition announced (w : World) : bool :=
  match trace w with
  | [] => false
  | _ :: _ => true
  end.

(** C5 (counterexample): [run] enters its run in the index with status
    'pending' and emits the start event before it sets the status to
    'running'.  In the world in which the listeners of that event are
    called, run "r1" is tracked and not terminal, so the design
    document has [cancel] return true and move it to 'cancelled';
    [cancel] returns false and leaves the run as it is. *)
Lemma cancel_pending_counterexample :
  let env := envWith plainText in
  let w := execUntil announced (run env (request "main" "hi" "r1")) world0 in
  trace w = [Emit "lifecycle" (lifecycle "r1" LifecycleStart)] /\
  (status <$> getRun "r1" w) = Some Status.pending /\
  is_terminal Status.pending = false /\
  cancel env "r1" w = (false, w).
Proof. vm_compute. repeat split. Qed.

Example cancel_unknown :
  (cancel (envWith plainText) "nope" worldRunning).1 = false.
Proof. vm_compute. reflexivity. Qed.

Example cancel_twice :
  (cancel (envWith plainText) "r1"
     (cancel (envWith plainText) "r1" worldRunning).2).1 = false.
Proof. vm_compute. reflexivity. Qed.

End LiveRuns.

(** ** How [save] writes *)
Module SaveWrites.
Import Proc ProcFacts Frames AwesomeAgent Completion Demo.

(** The discipline the design document asks for, on the filesystem
    operations of one save of the file [path]: the data goes to another,
    temporary location, which is then renamed onto [path]. *)
Definition writesViaRename (path : string) (ops : list Effect) : bool :=
  match ops with
  | [FsWriteFile tmp _; FsRename src dst] =>
      negb (String.eqb tmp path) && String.eqb src tmp && String.eqb dst path
  | _ => false
  end.

(** The file [path] is written directly. *)
Definition writesInPlace (path : string) (ops : list Effect) : bool :=
  existsb (fun e => match e with
                    | FsWriteFile p _ => String.eqb p path
                    | _ => false
                    end) ops.

(** What a reader of the file sees: nothing, a complete transcript, or an
    incomplete one. *)
Inductive Observation : Type :=
| Absent
| Complete (ms : list Message)
| Incomplete.

Definition observe (w : World) (path : string) : Observation :=
  match disk w !! path with
  | None => Absent
  | Some (Written s) => Complete (messages s)
  | Some (Writing _) => Incomplete
  end.

(** C7 (amended): [save] stamps the session with the current time, puts
    it in the cache under its id, and writes the whole session with one
    in-place [writeFile] of the session's file, its only filesystem
    operation, whether or not that write succeeds; [save] completes
    exactly when the write does, and when [save] has completed, the file
    holds exactly that session. *)
Theorem save_writes_in_place (env : Env) (a : nat) (s : Session) (w : World) :
  sessObjs w !! a = Some s ->
  let path := SessionManager.getSessionPath (workspace (config w)) (s_id s) in
  let s1 := set_updatedAt (Date_now env (tick w)) s in
  exists r w',
    exec (SessionManager.save env a) w = (r, w') /\
    sessObjs w' !! a = Some s1 /\
    messages s1 = messages s /\
    sessions w' !! s_id s = Some a /\
    trace w' = trace w ++ [FsWriteFile path s1] /\
    (r = Ok tt <-> writeFile env (S (tick w)) path = Completes) /\
    (r = Ok tt ->
     disk w' !! path = Some (Written s1) /\
     observe w' path = Complete (messages s)).
Proof.
  intros Hs path s1.
  rewrite (exec_save env a s w Hs). cbn zeta. fold path.
  destruct (writeFile env (S (tick w)) path) as [|msg|msg];
    eexists _, _; (split; [reflexivity|]);
    unfold observe, saved, stamped; cbn; fold path;
    rewrite ?lookup_insert_eq, list_lookup_alter_eq, Hs;
    repeat split; try reflexivity; try discriminate.
Qed.

(** A world in which session "main" is in memory with two messages. *)
Definition session2 : Session :=
  mkSession "main" "main" 0 0
    [mkMessage Role.user "hi" None None 0;
     mkMessage Role.assistant "Hello" None None 1] None.

Definition world2 : World :=
  {| tick := 7; trace := []; runObjs := []; sessObjs := [session2];
     activeRuns := ∅; sessions := {["main" := 0]}; disk := ∅;
     toolRegistry := ToolRegistry.new []; config := baseConfig |}.

Lemma save_writes_in_place_witness :
  exists w',
    exec (SessionManager.save (envWith plainText) 0) world2 = (Ok tt, w') /\
    sessObjs w' !! 0 = Some (set_updatedAt 1700000000007 session2) /\
    messages (set_updatedAt 1700000000007 session2) = messages session2 /\
    sessions w' !! "main" = Some 0 /\
    trace w' = trace world2
               ++ [FsWriteFile "workspace/sessions/main.json"
                               (set_updatedAt 1700000000007 session2)] /\
    disk w' !! "workspace/sessions/main.json"
      = Some (Written (set_updatedAt 1700000000007 session2)) /\
    observe w' "workspace/sessions/main.json" = Complete (messages session2).
Proof.
  destruct (save_writes_in_place (envWith plainText) 0 session2 world2 eq_refl)
    as (r & w' & E & Ho & Hm & Hc & Ht & Hiff & Hdone).
  assert (r = Ok tt) as -> by (apply Hiff; reflexivity).
  destruct (Hdone eq_refl) as [Hd Hobs].
  exists w'. repeat split; assumption.
Defined.

(** C7 (counterexample): saving session "main" issues a single write, to
    the session's own file, and no rename; while [save] is suspended on
    that write a reader of the file sees an incomplete transcript. *)
Lemma save_not_atomic_counterexample :
  let path := "workspace/sessions/main.json" in
  let ops := trace (exec (SessionManager.save (envWith plainText) 0) world2).2 in
  let '(rest, during) := resume (SessionManager.save (envWith plainText) 0) world2 in
  SessionManager.getSessionPath (workspace (config world2)) "main" = path /\
  writesViaRename path ops = false /\
  writesInPlace path ops = true /\
  finished rest = None /\
  observe during path = Incomplete.
Proof. vm_compute. repeat split. Qed.

End SaveWrites.

(** ** Two runs on one session *)
Module SameSession.
Import Proc ProcFacts Frames AwesomeAgent Completion RunFacts Scheduler Demo.

(** A backend that answers in plain text, quoting the last message of
    the context it was given. *)
Definition echo : nat -> GenerateOptions -> Result GenerateResult :=
  fun _ opts =>
    Ok {| text := "re: " +:+ default "" (content <$> last (go_messages opts));
          gr_toolCalls := None; usage := None |}.

(** The transcript of the session object at [a], as roles and texts. *)
Definition transcript (w : World) (a : nat) : list (Role.t * string) :=
  match sessObjs w !! a with
  | Some s => map (fun m => (role m, content m)) (messages s)
  | None => []
  end.

(** The conversation (without the system preamble) each model call was
    given, in the order of the calls. *)
Definition contexts (w : World) : list (list string) :=
  omap (fun e => match e with
                 | ModelCall opts => Some (map content (tail (go_messages opts)))
                 | _ => None
                 end) (trace w).

(** Runs that do not overlap.  When a run has returned, the session it
    worked on is cached and its file holds the complete transcript; a
    run on the same session started after that extends exactly this
    transcript, beginning with its own user message. *)
Lemma sequential_runs_extend_persisted (env : Env) (pA pB : RunParams)
    (w : World) :
  p_sessionId pB = p_sessionId pA ->
  coherent w (p_sessionId pA) ->
  Answers env ->
  Accepts env ->
  exists w1 w2 a b sA sB now,
    exec (run env pA) w = (Ok (List.length (runObjs w)), w1) /\
    sessions w1 !! p_sessionId pA = Some a /\
    sessObjs w1 !! a = Some sA /\
    disk w1 !! SessionManager.getSessionPath (workspace (config w1)) (p_sessionId pA)
      = Some (Written sA) /\
    exec (run env pB) w1 = (Ok (List.length (runObjs w1)), w2) /\
    sessions w2 !! p_sessionId pA = Some b /\
    sessObjs w2 !! b = Some sB /\
    (messages sA ++ [mkMessage Role.user (p_message pB) None None now])
      `prefix_of` messages sB.
Proof.
  intros Hsame Hcoh Hans Hacc.
  destruct (exec_run env pA w Hcoh Hans Hacc)
    as (w1 & a & sA & rA & nowA & EA & _ & _ & _ & _ & _ & CA & SA & IA & DA & _).
  assert (coherent w1 (p_sessionId pB)) as Hcoh1.
  { unfold coherent. rewrite Hsame, CA. exists sA. split; assumption. }
  assert (transcriptOf w1 (p_sessionId pB) = messages sA) as Htr.
  { unfold transcriptOf. rewrite Hsame, CA, SA. reflexivity. }
  destruct (exec_run env pB w1 Hcoh1 Hans Hacc)
    as (w2 & b & sB & rB & nowB & EB & _ & _ & _ & _ & _ & CB & SB & _ & _ & PB & _).
  rewrite Htr in PB. rewrite Hsame in CB.
  exists w1, w2, a, b, sA, sB, nowB.
  repeat split; assumption.
Qed.

Definition requestA : RunParams := request "main" "A" "r1".
Definition requestB : RunParams := request "main" "B" "r2".

(** Run A is taken up to its model call, then run B up to its own; then
    each is resumed to its end. *)
Definition overlapping : list Action :=
  replicate 4 (Resume 0) ++ replicate 2 (Resume 1)
  ++ replicate 4 (Resume 0) ++ replicate 4 (Resume 1).

(** C3 (the code at the failing input): two requests for session "main"
    are issued on a new agent, the second while the first waits for the
    model.  Nothing makes the second wait: while both wait for the model,
    both runs are live with status 'running' on session "main" and both
    user messages are in its transcript.  Both runs complete.  B's model
    call was built from A's user message without A's answer, and the
    final transcript is the interleaving [user A, user B, answer A,
    answer B], which neither order of running them one after the other
    produces. *)
Theorem concurrent_runs_interleave :
  let env := envWith echo in
  let '(_, mid) :=
    interleave env (take 6 overlapping) (start env [requestA; requestB], world0) in
  let '(pool, w) := interleave env overlapping (start env [requestA; requestB], world0) in
  let ab := (exec (run env requestB) (exec (run env requestA) world0).2).2 in
  let ba := (exec (run env requestA) (exec (run env requestB) world0).2).2 in
  ((fun r => (r_sessionId r, status r)) <$> getRun "r1" mid)
    = Some ("main", Status.running) /\
  ((fun r => (r_sessionId r, status r)) <$> getRun "r2" mid)
    = Some ("main", Status.running) /\
  transcript mid 0 = [(Role.user, "A"); (Role.user, "B")] /\
  map finished pool = [Some (Ok 0); Some (Ok 1)] /\
  contexts w = [["A"]; ["A"; "B"]] /\
  transcript w 0 = [(Role.user, "A"); (Role.user, "B");
                    (Role.assistant, "re: A"); (Role.assistant, "re: B")] /\
  transcript ab 0 = [(Role.user, "A"); (Role.assistant, "re: A");
                     (Role.user, "B"); (Role.assistant, "re: B")] /\
  transcript ba 0 = [(Role.user, "B"); (Role.assistant, "re: B");
                     (Role.user, "A"); (Role.assistant, "re: A")] /\
  transcript w 0 <> transcript ab 0 /\
  transcript w 0 <> transcript ba 0.
Proof. vm_compute. repeat split; discriminate. Qed.

End SameSession.

(** ** Two runs that load one session *)
Module LostEntries.
Import Proc AwesomeAgent Scheduler Demo SameSession.

(** A new agent whose workspace holds the file of session "main", with
    one message in it; nothing is cached. *)
Definition fileOnly : World :=
  {| tick := 0; trace := []; runObjs := []; sessObjs := [];
     activeRuns := ∅; sessions := ∅;
     disk := {[SessionManager.getSessionPath (workspace baseConfig) "main"
               := Written session1]};
     toolRegistry := ToolRegistry.new [];
     config := baseConfig |}.

Definition texts (s : Session) : list (Role.t * string) :=
  map (fun m => (role m, content m)) (messages s).

(** The transcript of the session the store holds under an id, and the
    transcript in the file of that id. *)
Definition held (w : World) (sessionId : string)
  : option (list (Role.t * string)) :=
  a ← sessions w !! sessionId; s ← sessObjs w !! a; Some (texts s).

Definition onFile (w : World) (sessionId : string)
  : option (list (Role.t * string)) :=
  match disk w !! SessionManager.getSessionPath (workspace (config w)) sessionId with
  | Some (Written s) => Some (texts s)
  | _ => None
  end.

(** Both runs start and read the file before either has cached the
    session; then run A is resumed to its end. *)
Definition bothLoadThenA : list Action :=
  [Resume 0; Resume 1; Resume 0; Resume 1] ++ replicate 7 (Resume 0).

(** Then run B is resumed to its end. *)
Definition thenB : list Action := replicate 6 (Resume 1).

(** C9 (the code at the failing input): two requests for the stored
    session "main" are issued together on a new agent.  Each run parses
    the file into an object of its own, so there are two session objects
    for the one id.  When run A has completed, session "main" (the
    cached object, and the file) ends with A's message and its answer.
    Run B then caches and saves its own object: when it has completed,
    A's two entries are gone from the session, in the cache and in the
    file.  Both runs end with status 'completed'. *)
Theorem concurrent_loads_lose_entries :
  let env := envWith echo in
  let '(pool1, w1) :=
    interleave env bothLoadThenA (start env [requestA; requestB], fileOnly) in
  let '(pool2, w2) := interleave env thenB (pool1, w1) in
  onFile fileOnly "main" = Some [(Role.user, "list files")] /\
  (* run A has completed *)
  map finished pool1 = [Some (Ok 0); None] /\
  held w1 "main" = Some [(Role.user, "list files"); (Role.user, "A");
                         (Role.assistant, "re: A")] /\
  onFile w1 "main" = held w1 "main" /\
  (* run B has completed *)
  map finished pool2 = [Some (Ok 0); Some (Ok 1)] /\
  map status (runObjs w2) = [Status.completed; Status.completed] /\
  map s_id (sessObjs w2) = ["main"; "main"] /\
  held w2 "main" = Some [(Role.user, "list files"); (Role.user, "B");
                         (Role.assistant, "re: B")] /\
  onFile w2 "main" = held w2 "main" /\
  (* entries of the session have been removed *)
  ~ (exists l1 l2, held w1 "main" = Some l1 /\ held w2 "main" = Some l2 /\
                   l1 `prefix_of` l2).
Proof.
  vm_compute. repeat split.
  intros (l1 & l2 & [= <-] & [= <-] & [k Hk]). discriminate.
Qed.

End LostEntries.

(** ** Cancelling a run in flight *)
Module Cancellation.
Import Proc Frames AwesomeAgent Scheduler LiveRuns Demo.

Definition listRequest : RunParams := request "main" "list files" "r1".

(** The run is resumed until its tool call has completed and it waits to
    go on ([await this.executeTools(...)]). *)
Definition untilToolsDone : list Action := replicate 6 (Resume 0).

(** It is then resumed until it ends. *)
Definition toTheEnd : list Action := replicate 5 (Resume 0).

Definition toolExecs (w : World) : nat :=
  List.length (List.filter (fun e => match e with ToolExec _ _ _ => true | _ => false end)
                           (trace w)).

(** C4 (the code at the failing input): the backend asks for one tool
    call, then answers in text.  When the tool call has completed and
    before the next model call, [cancel("r1")] returns true and marks the
    run 'cancelled'.  The run nevertheless goes on: it calls the model a
    second time, and it ends by overwriting its status with
    'completed'. *)
Theorem cancel_is_not_observed_by_the_loop :
  let env := envWith toolThenText in
  let '(pool1, w1) := interleave env untilToolsDone (start env [listRequest], world0) in
  let '(accepted, w2) := cancel env "r1" w1 in
  let '(pool3, w3) := interleave env toTheEnd (pool1, w2) in
  (* before the call of cancel *)
  modelCalls w1 = 1 /\ toolExecs w1 = 1 /\
  statusAt w1 0 = Some Status.running /\
  map finished pool1 = [None] /\
  (* the call of cancel *)
  accepted = true /\ statusAt w2 0 = Some Status.cancelled /\
  (* afterwards *)
  modelCalls w3 = 2 /\
  map finished pool3 = [Some (Ok 0)] /\
  statusAt w3 0 = Some Status.completed.
Proof. vm_compute. repeat split. Qed.

End Cancellation.

(** ** Strings *)
Module StringFacts.
#[local] Arguments String.append : simpl nomatch.

Lemma length_append (s t : string) :
  String.length (s +:+ t) = String.length s + String.length t.
Proof. induction s as [|c s IH]; simpl; [reflexivity | rewrite IH; reflexivity]. Qed.

Lemma append_assoc (s t u : string) : (s +:+ t) +:+ u = s +:+ (t +:+ u).
Proof. induction s as [|c s IH]; simpl; [reflexivity | f_equal; exact IH]. Qed.

Lemma append_empty_r (s : string) : s +:+ "" = s.
Proof. induction s as [|c s IH]; simpl; [reflexivity | f_equal; exact IH]. Qed.

Lemma prefix_spec (p s : string) :
  String.prefix p s = true <-> exists post, s = p +:+ post.
Proof.
  revert s. induction p as [|a p IH]; intros s.
  - split; [intros _; exists s; reflexivity|]. intros _. destruct s; reflexivity.
  - destruct s as [|b s]; simpl.
    + split; [discriminate | intros [post H]; discriminate].
    + destruct (ascii_dec a b) as [->|Hne].
      * rewrite IH. split; intros [post H]; exists post.
        -- rewrite H. reflexivity.
        -- inversion H. reflexivity.
      * split; [discriminate|]. intros [post H]. simpl in H. congruence.
Qed.

Lemma substring0_length (m : nat) (s : string) :
  String.length (String.substring 0 m s) = Nat.min m (String.length s).
Proof.
  revert s. induction m as [|m IH]; intros s.
  - destruct s; reflexivity.
  - destruct s as [|c s]; simpl; [reflexivity | rewrite IH; reflexivity].
Qed.

Lemma substring0_prefix (m : nat) (s : string) :
  exists rest, s = String.substring 0 m s +:+ rest.
Proof.
  revert s. induction m as [|m IH]; intros s.
  - exists s. destruct s; reflexivity.
  - destruct s as [|c s]; simpl.
    + exists "". reflexivity.
    + destruct (IH s) as [rest H]. exists rest. rewrite <- H. reflexivity.
Qed.

End StringFacts.

(** ** Required parameters *)
Module ValidateArgsFacts.

Lemma js_own_In (key : string) (o : JsObject) :
  js_own key o = true <-> In key (map fst o).
Proof.
  induction o as [|[k v] rest IH]; simpl; [split; [discriminate | intros []]|].
  rewrite orb_true_iff, IH, String.eqb_eq. reflexivity.
Qed.

(** [key in args]: an own property, or one of [Object.prototype]. *)
Lemma js_in_spec (key : string) (o : JsObject) :
  js_in key o = true <-> In key (map fst o) \/ In key objectPrototypeNames.
Proof.
  unfold js_in. rewrite orb_true_iff, js_own_In, existsb_exists.
  split; intros [H|H]; auto; right.
  - destruct H as (k & Hk & E). apply String.eqb_eq in E. subst. exact Hk.
  - exists key. split; [exact H | apply String.eqb_refl].
Qed.

Lemma js_in_false (key : string) (o : JsObject) :
  js_in key o = false <-> ~ In key (map fst o) /\ ~ In key objectPrototypeNames.
Proof.
  rewrite <- not_true_iff_false, js_in_spec. tauto.
Qed.

Lemma validateArgs_Throw_In (names : list string) (args : JsObject) (msg : string) :
  validateArgs names args = Throw msg ->
  exists k, In k names /\ js_in k args = false /\
            msg = "Missing required parameter: " +:+ k.
Proof.
  induction names as [|n rest IH]; cbn [validateArgs]; [discriminate|].
  destruct (js_in n args) eqn:Hn.
  - intros H. destruct (IH H) as (k & Hk & Hmiss & ->).
    exists k. repeat split; [right; exact Hk | exact Hmiss].
  - intros [= <-]. exists n. repeat split; [left; reflexivity | exact Hn].
Qed.

Lemma validateArgs_Ok_In (names : list string) (args : JsObject) (k : string) :
  validateArgs names args = Ok tt -> In k names -> js_in k args = true.
Proof.
  induction names as [|n rest IH]; cbn [validateArgs]; [intros _ []|].
  destruct (js_in n args) eqn:Hn; [|discriminate].
  intros H [<-|Hk]; [exact Hn | exact (IH H Hk)].
Qed.

(** X2: [validateArgs] accepts the arguments exactly when every declared
    parameter name is [in] them: the name of an own property, whatever
    its value ([undefined] included), or a name that every object
    inherits from [Object.prototype], such as 'toString'.  Otherwise it
    reports the first declared name that is neither. *)
Theorem validateArgs_reports_first_missing (names : list string) (args : JsObject) :
  (validateArgs names args = Ok tt <->
   forall k, In k names -> In k (map fst args) \/ In k objectPrototypeNames) /\
  (forall msg, validateArgs names args = Throw msg ->
     exists before k after,
       names = before ++ k :: after /\
       (forall k', In k' before ->
                   In k' (map fst args) \/ In k' objectPrototypeNames) /\
       ~ In k (map fst args) /\
       ~ In k objectPrototypeNames /\
       msg = "Missing required parameter: " +:+ k).
Proof.
  induction names as [|n rest [IH1 IH2]]; cbn [validateArgs].
  - split; [split; [intros _ k [] | reflexivity] | discriminate].
  - destruct (js_in n args) eqn:Hn.
    + apply js_in_spec in Hn. split.
      * rewrite IH1. split.
        -- intros H k [<-|Hk]; [exact Hn | apply H, Hk].
        -- intros H k Hk. apply H. right. exact Hk.
      * intros msg Hmsg.
        destruct (IH2 msg Hmsg) as (before & k & after & -> & Hb & Hk & Hk' & ->).
        exists (n :: before), k, after.
        repeat split; try assumption.
        intros k' [<-|Hin]; [exact Hn | apply Hb, Hin].
    + apply js_in_false in Hn. destruct Hn as [Hown Hproto]. split.
      * split; [discriminate|]. intros H.
        destruct (H n (or_introl eq_refl)); contradiction.
      * intros msg Hmsg. inversion Hmsg.
        exists [], n, rest. repeat split; [intros k' [] | exact Hown | exact Hproto].
Qed.

(** A tool that declares a parameter called 'toString' never misses
    it. *)
Example inherited_name_is_accepted :
  validateArgs ["toString"] [("b", JNum 1)] = Ok tt.
Proof. reflexivity. Qed.

End ValidateArgsFacts.

(** ** The command tool *)
Module ExecToolFacts.
Import ExecTool StringFacts.
#[local] Arguments String.append : simpl nomatch.

Lemma includes_empty (pattern : string) :
  includes "" pattern = String.prefix pattern "".
Proof. simpl. apply orb_false_r. Qed.

Lemma includes_cons (c : ascii) (s pattern : string) :
  includes (String c s) pattern
  = String.prefix pattern (String c s) || includes s pattern.
Proof. reflexivity. Qed.

(** [includes] is the substring relation. *)
Lemma includes_spec (s pattern : string) :
  includes s pattern = true <-> exists pre post, s = pre +:+ pattern +:+ post.
Proof.
  induction s as [|c s IH].
  - rewrite includes_empty, prefix_spec. split.
    + intros [post H]. exists "", post. exact H.
    + intros (pre & post & H). destruct pre; [exists post; exact H|discriminate].
  - rewrite includes_cons, orb_true_iff, prefix_spec, IH. split.
    + intros [[post H]|(pre & post & H)].
      * exists "", post. exact H.
      * exists (String c pre), post. simpl. rewrite H. reflexivity.
    + intros (pre & post & H). destruct pre as [|c' pre].
      * left. exists post. exact H.
      * right. simpl in H. inversion H. exists pre, post. reflexivity.
Qed.

Lemma firstBlocked_Some (command : string) (blocked : list string) (p : string) :
  firstBlocked command blocked = Some p ->
  In p blocked /\ includes command p = true.
Proof.
  induction blocked as [|q rest IH]; simpl; [discriminate|].
  destruct (includes command q) eqn:Hq.
  - intros H. inversion H; subst. split; [left; reflexivity | exact Hq].
  - intros H. destruct (IH H). split; [right|]; assumption.
Qed.

Lemma firstBlocked_None (command : string) (blocked : list string) :
  firstBlocked command blocked = None <->
  forall p, In p blocked -> includes command p = false.
Proof.
  induction blocked as [|q rest IH]; simpl.
  - split; [intros _ p []|reflexivity].
  - destruct (includes command q) eqn:Hq.
    + split; [discriminate|]. intros H. rewrite (H q) in Hq by (left; reflexivity).
      discriminate.
    + rewrite IH. split.
      * intros H p [<-|Hp]; [exact Hq | apply H, Hp].
      * intros H p Hp. apply H. right. exact Hp.
Qed.

(** The blocked patterns of a configuration (none when the list is
    absent) and whether an allow-list is in force. *)
Definition blockedOf (config : ExecToolConfig) : list string :=
  default [] (blockedCommands config).

Definition allowedOf (config : ExecToolConfig) : list string :=
  default [] (allowedCommands config).

(** X1: [validateCommand] accepts a command exactly when no blocked
    pattern occurs in it and, if an allow-list with at least one pattern
    is configured, some allowed pattern occurs in it. *)
Theorem validateCommand_accepts_iff (config : ExecToolConfig) (command : string) :
  validateCommand config command = Ok tt <->
  (forall p, In p (blockedOf config) ->
             ~ exists pre post, command = pre +:+ p +:+ post) /\
  (allowedOf config = [] \/
   exists p pre post, In p (allowedOf config) /\ command = pre +:+ p +:+ post).
Proof.
  unfold validateCommand, blockedOf, allowedOf.
  set (fb := match blockedCommands config with
             | Some blocked => firstBlocked command blocked
             | None => None
             end).
  assert (fb = None <->
          forall p, In p (default [] (blockedCommands config)) ->
                    ~ exists pre post, command = pre +:+ p +:+ post) as HB.
  { subst fb. destruct (blockedCommands config) as [bl|].
    - change (default [] (Some bl)) with bl.
      rewrite firstBlocked_None. split; intros H p Hp; specialize (H p Hp).
      + rewrite <- includes_spec, H. discriminate.
      + rewrite <- includes_spec in H. destruct (includes command p); [|reflexivity].
        exfalso. apply H. reflexivity.
    - split; [intros _ p []|reflexivity]. }
  assert (forall al, existsb (fun pattern => includes command pattern) al = true <->
            exists p pre post, In p al /\ command = pre +:+ p +:+ post) as HA.
  { intros al. rewrite existsb_exists. split.
    - intros (p & Hp & Hi). apply includes_spec in Hi.
      destruct Hi as (pre & post & E). exists p, pre, post. auto.
    - intros (p & pre & post & Hp & E). exists p. split; [exact Hp|].
      apply includes_spec. eauto. }
  destruct fb as [q|].
  - split; [discriminate|]. intros [H _]. pose proof (proj2 HB H). discriminate.
  - pose proof (proj1 HB eq_refl) as Hnone.
    destruct (allowedCommands config) as [[|p ps]|].
    + split; [intros _; split; [exact Hnone | left; reflexivity] | reflexivity].
    + change (default [] (Some (p :: ps))) with (p :: ps).
      destruct (existsb (fun pattern => includes command pattern) (p :: ps)) eqn:He.
      * split; [|reflexivity]. intros _. split; [exact Hnone|]. right.
        apply (proj1 (HA _)). exact He.
      * split; [discriminate|]. intros [_ [H|H]]; [discriminate|].
        pose proof (proj2 (HA _) H). congruence.
    + split; [intros _; split; [exact Hnone | left; reflexivity] | reflexivity].
Qed.

(** X3: a command in which a blocked pattern occurs is never handed to
    the operating system: [execute] throws 'Blocked command pattern'
    without issuing an [exec], whether or not the allow-list matches. *)
Theorem blocked_command_is_not_executed (config : ExecToolConfig)
    (cwd : string) (os : ExecCall -> ExecOutcome) (callId : string)
    (args : JsObject) (command p pre post : string) :
  validateArgs parameterNames args = Ok tt ->
  js_get "command" args = JStr command ->
  In p (blockedOf config) ->
  command = pre +:+ p +:+ post ->
  exists q,
    In q (blockedOf config) /\
    execute config cwd os callId args
      = Some ([], Throw ("Blocked command pattern: " +:+ q)).
Proof.
  intros Hv Hc Hp Hcmd. unfold execute, executeCommand. rewrite Hv, Hc.
  unfold validateCommand, blockedOf in *.
  destruct (blockedCommands config) as [bl|]; [|destruct Hp].
  change (default [] (Some bl)) with bl in *.
  destruct (firstBlocked command bl) as [q|] eqn:Hq.
  - exists q. split; [apply (firstBlocked_Some _ _ _ Hq) | reflexivity].
  - exfalso. rewrite firstBlocked_None in Hq.
    specialize (Hq p Hp).
    assert (includes command p = true) as Hi by (apply includes_spec; eauto).
    congruence.
Qed.

Definition defaultConfig : ExecToolConfig := new (mkConfig None None None None None).

Definition lsArgs (command : string) : JsObject :=
  [("command", JStr command); ("timeout", JNum 0); ("cwd", JUndefined)].

Definition quietOs : ExecCall -> ExecOutcome := fun _ => Exited "" "".

Lemma blocked_command_is_not_executed_witness :
  exists q,
    In q (blockedOf defaultConfig) /\
    execute defaultConfig "/home/agent" quietOs "call_1"
            (lsArgs "sudo rm -rf / --no-preserve-root")
      = Some ([], Throw ("Blocked command pattern: " +:+ q)).
Proof.
  apply (blocked_command_is_not_executed defaultConfig "/home/agent" quietOs
           "call_1" (lsArgs "sudo rm -rf / --no-preserve-root")
           "sudo rm -rf / --no-preserve-root" "rm -rf" "sudo " " / --no-preserve-root").
  - reflexivity.
  - reflexivity.
  - vm_compute. left. reflexivity.
  - reflexivity.
Defined.

Definition isExited (o : ExecOutcome) : bool :=
  match o with
  | Exited _ _ => true
  | Failed _ => false
  end.

Definition fieldsOf (v : JsValue) : JsObject :=
  match v with
  | JObj fields => fields
  | _ => []
  end.

(** X4: [execute] throws only while validating (a missing parameter, a
    blocked pattern, a command outside the allow-list), and then no
    [exec] has been issued.  A command that was started and failed is not
    thrown: the call returns an object whose [success] is false.  A
    return always follows exactly one [exec], of the command as given. *)
Theorem execute_throws_only_on_validation (config : ExecToolConfig)
    (cwd : string) (os : ExecCall -> ExecOutcome) (callId : string)
    (args : JsObject) (calls : list ExecCall) (r : Result JsValue) :
  execute config cwd os callId args = Some (calls, r) ->
  match r with
  | Throw msg =>
      calls = [] /\
      ((exists k, In k parameterNames /\ js_in k args = false /\
                  msg = "Missing required parameter: " +:+ k) \/
       (exists q, In q (blockedOf config) /\
                  msg = "Blocked command pattern: " +:+ q) \/
       msg = "Command not in allowlist")
  | Ok v =>
      exists command call,
        js_get "command" args = JStr command /\
        validateCommand config command = Ok tt /\
        calls = [call] /\
        ec_command call = command /\
        js_get "success" (fieldsOf v) = JBool (isExited (os call)) /\
        js_get "command" (fieldsOf v) = JStr command
  end.
Proof.
  unfold execute.
  destruct (validateArgs parameterNames args) as [[]|msg] eqn:Hv.
  - destruct (js_get "command" args) as [| | | |command| |] eqn:Hc; try discriminate.
    unfold executeCommand.
    destruct (validateCommand config command) as [[]|msg] eqn:Hvc.
    + match goal with |- context [os ?c] => set (call := c) end.
      destruct (os call) eqn:Hos; intros H; inversion H; subst;
        exists command, call; rewrite Hos; repeat split; try reflexivity; assumption.
    + intros H. inversion H; subst. split; [reflexivity|]. right.
      unfold validateCommand, blockedOf in *.
      destruct (blockedCommands config) as [bl|].
      * destruct (firstBlocked command bl) as [q|] eqn:Hq.
        -- left. inversion Hvc. exists q.
           split; [apply (firstBlocked_Some _ _ _ Hq) | reflexivity].
        -- right. destruct (allowedCommands config) as [[|p ps]|]; try discriminate.
           destruct (existsb _ _); [discriminate|]. inversion Hvc. reflexivity.
      * right. destruct (allowedCommands config) as [[|p ps]|]; try discriminate.
        destruct (existsb _ _); [discriminate|]. inversion Hvc. reflexivity.
  - intros H. inversion H; subst. split; [reflexivity|]. left.
    apply ValidateArgsFacts.validateArgs_Throw_In. exact Hv.
Qed.

Definition failingOs : ExecCall -> ExecOutcome :=
  fun _ => Failed (mkExecError None (Some "ls: no such file") (JNum 2)
                               "Command failed: ls /nope").

Lemma execute_throws_only_on_validation_witness :
  exists command call,
    js_get "command" (lsArgs "ls /nope") = JStr command /\
    validateCommand defaultConfig command = Ok tt /\
    [mkExecCall "ls /nope" (JNum 30000) (JStr "/home/agent") (Some 1000000%Z)] = [call] /\
    ec_command call = command /\
    js_get "success" (fieldsOf
      (JObj [("success", JBool false); ("command", JStr "ls /nope");
             ("stdout", JStr ""); ("stderr", JStr "ls: no such file");
             ("exitCode", JNum 2); ("error", JStr "Command failed: ls /nope")]))
      = JBool (isExited (failingOs call)) /\
    js_get "command" (fieldsOf
      (JObj [("success", JBool false); ("command", JStr "ls /nope");
             ("stdout", JStr ""); ("stderr", JStr "ls: no such file");
             ("exitCode", JNum 2); ("error", JStr "Command failed: ls /nope")]))
      = JStr command.
Proof.
  apply (execute_throws_only_on_validation defaultConfig "/home/agent" failingOs
           "call_1" (lsArgs "ls /nope")
           [mkExecCall "ls /nope" (JNum 30000) (JStr "/home/agent") (Some 1000000%Z)]
           (Ok (JObj [("success", JBool false); ("command", JStr "ls /nope");
                      ("stdout", JStr ""); ("stderr", JStr "ls: no such file");
                      ("exitCode", JNum 2);
                      ("error", JStr "Command failed: ls /nope")]))).
  vm_compute. reflexivity.
Defined.

(** X5: output within the limit is returned as it is; longer output is
    cut to its first [limit] characters followed by the 16-character
    truncation mark.  The limit is never 0: a configured 0 stands for
    1000000. *)
Theorem truncateOutput_cuts_at_limit (config : ExecToolConfig) (output : string) :
  outputLimit config <> 0%Z /\
  ((Z.of_nat (String.length output) <= outputLimit config)%Z ->
   truncateOutput config output = output) /\
  ((outputLimit config < Z.of_nat (String.length output))%Z ->
   exists kept rest,
     output = kept +:+ rest /\
     String.length kept = Z.to_nat (outputLimit config) /\
     truncateOutput config output = kept +:+ truncationMark /\
     String.length (truncateOutput config output)
       = Z.to_nat (outputLimit config) + 16).
Proof.
  split; [|split].
  - unfold outputLimit. destruct (maxOutputBytes config) as [n|]; [|discriminate].
    destruct (Z.eqb_spec n 0); [discriminate | assumption].
  - intros H. unfold truncateOutput.
    destruct (Z.ltb_spec (outputLimit config) (Z.of_nat (String.length output)));
      [lia | reflexivity].
  - intros H. unfold truncateOutput.
    destruct (Z.ltb_spec (outputLimit config) (Z.of_nat (String.length output)));
      [|lia].
    destruct (substring0_prefix (Z.to_nat (outputLimit config)) output) as [rest Hrest].
    exists (String.substring 0 (Z.to_nat (outputLimit config)) output), rest.
    assert (String.length (String.substring 0 (Z.to_nat (outputLimit config)) output)
            = Z.to_nat (outputLimit config)) as Hlen.
    { rewrite substring0_length. lia. }
    split; [exact Hrest|]. split; [exact Hlen|]. split; [reflexivity|].
    rewrite length_append, Hlen. reflexivity.
Qed.

End ExecToolFacts.

(** ** The filesystem tool beyond the traversal guard *)
Module FileSystemToolMore.
Import FileSystemTool ValidateArgsFacts.

(** X6: all four declared parameters are required, whatever the action:
    a call that lacks one of [action], [path], [content], [recursive]
    (a read without [content], say) throws 'Missing required parameter'
    for the first missing one and touches no file. *)
Theorem every_parameter_is_required (cwd root : string) (fs : FileSystem)
    (callId : string) (args : JsObject) (k : string) :
  In k parameterNames ->
  js_in k args = false ->
  exists k',
    In k' parameterNames /\ js_in k' args = false /\
    execute cwd root fs callId args
      = ([], Throw ("Missing required parameter: " +:+ k')).
Proof.
  intros Hk Hmiss.
  destruct (validateArgs parameterNames args) as [[]|msg] eqn:Hv.
  - pose proof (validateArgs_Ok_In _ _ k Hv Hk). congruence.
  - destruct (validateArgs_Throw_In _ _ _ Hv) as (k' & Hk' & Hm' & ->).
    exists k'. repeat split; try assumption.
    unfold execute. rewrite Hv. reflexivity.
Qed.

Definition anyFs : FileSystem :=
  {| fs_readFile := fun _ => Ok "data";
     fs_mkdir := fun _ => Ok tt;
     fs_writeFile := fun _ _ => Ok tt;
     fs_readdir := fun _ => Ok [mkDirEntry "a.txt" false; mkDirEntry "sub" true];
     fs_stat := fun _ => Ok (mkStat 4 1700000000000);
     fs_unlink := fun _ => Ok tt;
     resolve_TypeError := fun _ => "The path argument must be of type string";
     template_text := fun _ => "[object Object]" |}.

Lemma every_parameter_is_required_witness :
  exists k',
    In k' parameterNames /\
    js_in k' [("action", JStr "read"); ("path", JStr "notes.txt")] = false /\
    execute "/home/agent" "/ws" anyFs "call_1"
            [("action", JStr "read"); ("path", JStr "notes.txt")]
      = ([], Throw ("Missing required parameter: " +:+ k')).
Proof.
  apply (every_parameter_is_required "/home/agent" "/ws" anyFs "call_1"
           [("action", JStr "read"); ("path", JStr "notes.txt")] "recursive").
  - vm_compute. tauto.
  - reflexivity.
Defined.

(** The answer of a successful write. *)
Definition written (path : string) : JsValue :=
  JObj [("success", JBool true); ("path", JStr path);
        ("message", JStr "File written successfully")].

(** X7: what a write does with [content].  Falsy content (the empty
    string, [null], [false], 0, [undefined]) is refused with 'Content
    required for write' before any directory is made or file written.
    Any other content, a string or not, is handed to [writeFile] as it
    is, for the resolved path, after [mkdir] of its parent; a failure of
    either call is thrown with the prefix 'File system error: '. *)
Theorem write_needs_truthy_content (cwd root : string) (fs : FileSystem)
    (callId : string) (args : JsObject) (path : string) :
  validateArgs parameterNames args = Ok tt ->
  js_get "path" args = JStr path ->
  js_get "action" args = JStr "write" ->
  String.prefix (Path.resolve cwd [root]) (Path.resolve cwd [root; path]) = true ->
  let safePath := Path.resolve cwd [root; path] in
  let parent := Path.resolve cwd [safePath; ".."] in
  let content := js_get "content" args in
  execute cwd root fs callId args =
  if truthy content then
    match fs_mkdir fs parent with
    | Throw msg => ([Mkdir parent], Throw ("File system error: " +:+ msg))
    | Ok _ =>
        ([Mkdir parent; WriteFile safePath content],
         match fs_writeFile fs safePath content with
         | Throw msg => Throw ("File system error: " +:+ msg)
         | Ok _ => Ok (written path)
         end)
    end
  else ([], Throw "File system error: Content required for write").
Proof.
  intros Hv Hp Ha Hpre safePath parent content. unfold execute, resolveSafePath.
  rewrite Hv. cbn [mbind Fs_bind bind lift].
  rewrite Hp. cbn [asString]. rewrite Hpre. cbn [negb bind lift].
  rewrite Ha. cbn [asString]. unfold perform.
  cbn [String.eqb Ascii.eqb Bool.eqb]. fold safePath parent content.
  destruct (truthy content); cbn [negb]; [|reflexivity].
  cbn [mbind Fs_bind bind call].
  destruct (fs_mkdir fs parent) as [[]|msg]; [|reflexivity].
  destruct (fs_writeFile fs safePath content) as [[]|msg]; reflexivity.
Qed.

Lemma write_needs_truthy_content_witness :
  execute "/home/agent" "/ws" anyFs "call_1"
          [("action", JStr "write"); ("path", JStr "empty.txt");
           ("content", JStr ""); ("recursive", JBool false)]
    = ([], Throw "File system error: Content required for write") /\
  execute "/home/agent" "/ws" anyFs "call_1"
          [("action", JStr "write"); ("path", JStr "empty.txt");
           ("content", JArr []); ("recursive", JBool false)]
    = ([Mkdir "/ws"; WriteFile "/ws/empty.txt" (JArr [])], Ok (written "empty.txt")).
Proof.
  split.
  - exact (write_needs_truthy_content "/home/agent" "/ws" anyFs "call_1"
             [("action", JStr "write"); ("path", JStr "empty.txt");
              ("content", JStr ""); ("recursive", JBool false)] "empty.txt"
             eq_refl eq_refl eq_refl eq_refl).
  - exact (write_needs_truthy_content "/home/agent" "/ws" anyFs "call_1"
             [("action", JStr "write"); ("path", JStr "empty.txt");
              ("content", JArr []); ("recursive", JBool false)] "empty.txt"
             eq_refl eq_refl eq_refl eq_refl).
Defined.

(** Where a filesystem call of the tool may go, given the resolved
    path: to that path itself; for [mkdir], to its parent; for [stat], to
    an entry that [readdir] named for that path. *)
Definition aimedAt (cwd : string) (fs : FileSystem) (resolved : string)
    (c : FsCall) : Prop :=
  match c with
  | ReadFile p | WriteFile p _ | Readdir p | Unlink p => p = resolved
  | Mkdir p => p = Path.resolve cwd [resolved; ".."]
  | Stat p =>
      exists entries e,
        fs_readdir fs resolved = Ok entries /\ In e entries /\
        p = Path.join [resolved; entry_name e]
  end.

Lemma statAll_calls (cwd : string) (fs : FileSystem) (safePath : string)
    (all entries : list DirEntry) :
  fs_readdir fs safePath = Ok all ->
  (forall e, In e entries -> In e all) ->
  Forall (aimedAt cwd fs safePath) (statAll fs safePath entries).1.
Proof.
  intros Hall Hsub.
  induction entries as [|e rest IH]; simpl; [constructor|].
  destruct (statAll fs safePath rest) as [calls items]. simpl in *.
  constructor.
  - exists all, e. repeat split; [exact Hall | apply Hsub; left; reflexivity].
  - apply IH. intros e' He'. apply Hsub. right. exact He'.
Qed.

(** The [stat] calls of a listing: one per entry, in the order of the
    entries. *)
Lemma statAll_all (fs : FileSystem) (safePath : string) (entries : list DirEntry) :
  (statAll fs safePath entries).1
  = map (fun e => Stat (Path.join [safePath; entry_name e])) entries.
Proof.
  induction entries as [|e rest IH]; simpl; [reflexivity|].
  destruct (statAll fs safePath rest) as [calls items]. simpl in *.
  rewrite IH. reflexivity.
Qed.

Lemma perform_calls (cwd : string) (fs : FileSystem)
    (action path safePath : string) (args : JsObject) :
  Forall (aimedAt cwd fs safePath) (perform cwd fs action path safePath args).1.
Proof.
  unfold perform.
  destruct (String.eqb action "read").
  { cbn [mbind Fs_bind bind call].
    destruct (fs_readFile fs safePath); simpl; repeat constructor. }
  destruct (String.eqb action "write").
  { destruct (truthy (js_get "content" args)); simpl; [|constructor].
    destruct (fs_mkdir fs (Path.resolve cwd [safePath; ".."])); simpl;
      [|repeat constructor].
    destruct (fs_writeFile fs safePath (js_get "content" args)); simpl;
      repeat constructor. }
  destruct (String.eqb action "list").
  { cbn [mbind Fs_bind bind call].
    destruct (fs_readdir fs safePath) as [entries|msg] eqn:Hdir; [|repeat constructor].
    pose proof (statAll_calls cwd fs safePath entries entries Hdir (fun e H => H))
      as Hstat.
    destruct (statAll fs safePath entries) as [calls items]. simpl in Hstat.
    cbn [mbind Fs_bind bind].
    destruct (allOk items); simpl; constructor; try reflexivity;
      rewrite ?app_nil_r; exact Hstat. }
  destruct (String.eqb action "delete").
  { cbn [mbind Fs_bind bind call].
    destruct (fs_unlink fs safePath); simpl; repeat constructor. }
  constructor.
Qed.

(** X8: whenever [execute] touches the filesystem, the path argument is a
    string whose resolution passed the guard (it starts with the resolved
    root), and every call goes to that resolved path, except that
    [mkdir] goes to its parent and every [stat] to an entry that
    [readdir] has named for that path.  A listing issues [readdir] and
    then one [stat] for each entry named, in their order. *)
Theorem filesystem_calls_follow_the_resolved_path (cwd root : string)
    (fs : FileSystem) (callId : string) (args : JsObject) :
  (execute cwd root fs callId args).1 <> [] ->
  exists path,
    js_get "path" args = JStr path /\
    String.prefix (Path.resolve cwd [root]) (Path.resolve cwd [root; path]) = true /\
    Forall (aimedAt cwd fs (Path.resolve cwd [root; path]))
           (execute cwd root fs callId args).1 /\
    (forall entries,
       js_get "action" args = JStr "list" ->
       fs_readdir fs (Path.resolve cwd [root; path]) = Ok entries ->
       (execute cwd root fs callId args).1
       = Readdir (Path.resolve cwd [root; path])
         :: map (fun e => Stat (Path.join [Path.resolve cwd [root; path];
                                           entry_name e])) entries).
Proof.
  unfold execute.
  destruct (validateArgs parameterNames args) as [[]|msg]; cbn [mbind Fs_bind bind lift];
    [|intros H; contradiction].
  destruct (js_get "path" args) as [| | | |path| |]; cbn [asString throw fst];
    try (intros H; contradiction).
  unfold resolveSafePath.
  destruct (String.prefix (Path.resolve cwd [root]) (Path.resolve cwd [root; path]))
    eqn:Hpre; cbn [negb bind lift fst]; [|intros H; contradiction].
  intros _. exists path. split; [reflexivity|]. split; [exact Hpre|].
  split.
  - destruct (js_get "action" args) as [| | | |action| |]; cbn [asString];
      try (simpl; constructor).
    pose proof (perform_calls cwd fs action path (Path.resolve cwd [root; path]) args) as H.
    destruct (perform cwd fs action path (Path.resolve cwd [root; path]) args)
      as [calls [v|msg]]; simpl in *; rewrite ?app_nil_r; exact H.
  - intros entries Ha Hdir. rewrite Ha. cbn [asString]. unfold perform.
    cbn [String.eqb Ascii.eqb Bool.eqb]. cbn [mbind Fs_bind bind call].
    rewrite Hdir.
    pose proof (statAll_all fs (Path.resolve cwd [root; path]) entries) as Hs.
    destruct (statAll fs (Path.resolve cwd [root; path]) entries) as [calls items].
    simpl in Hs. subst calls. cbn [mbind Fs_bind bind].
    destruct (allOk items); simpl; rewrite ?app_nil_r; reflexivity.
Qed.

Definition listArgs : JsObject :=
  [("action", JStr "list"); ("path", JStr "docs");
   ("content", JNull); ("recursive", JBool false)].

Lemma filesystem_calls_follow_the_resolved_path_witness :
  exists path,
    js_get "path" listArgs = JStr path /\
    String.prefix (Path.resolve "/home/agent" ["/ws"])
                  (Path.resolve "/home/agent" ["/ws"; path]) = true /\
    (execute "/home/agent" "/ws" anyFs "call_1" listArgs).1
      = [Readdir "/ws/docs"; Stat "/ws/docs/a.txt"; Stat "/ws/docs/sub"].
Proof.
  destruct (filesystem_calls_follow_the_resolved_path "/home/agent" "/ws" anyFs
              "call_1" listArgs) as (path & Hp & Hpre & _ & Hlist).
  - vm_compute. discriminate.
  - exists path. split; [exact Hp|]. split; [exact Hpre|].
    inversion Hp; subst path.
    apply (Hlist [mkDirEntry "a.txt" false; mkDirEntry "sub" true]); reflexivity.
Defined.

(** X9: the errors of [execute] come in two kinds.  Those raised before
    the action is looked at are thrown as they are, and no file has been
    touched: a missing parameter, the [TypeError] of [path.resolve] for a
    path that is not a string (with the message Node gives it), a
    rejected path.  Everything raised while performing the action, an
    unknown action included, is thrown with the prefix 'File system
    error: '. *)
Theorem filesystem_errors_are_prefixed (cwd root : string) (fs : FileSystem)
    (callId : string) (args : JsObject) (calls : list FsCall) (msg : string) :
  execute cwd root fs callId args = (calls, Throw msg) ->
  (calls = [] /\
   ((exists k, In k parameterNames /\ msg = "Missing required parameter: " +:+ k) \/
    (asString (js_get "path" args) = None /\
     msg = resolve_TypeError fs (js_get "path" args)) \/
    msg = "Path traversal detected")) \/
  (exists inner, msg = "File system error: " +:+ inner).
Proof.
  unfold execute.
  destruct (validateArgs parameterNames args) as [[]|m] eqn:Hv;
    cbn [mbind Fs_bind bind lift].
  - destruct (asString (js_get "path" args)) as [path|] eqn:Hpath.
    + unfold resolveSafePath.
      destruct (String.prefix _ _); cbn [negb bind lift].
      * match goal with
        | |- context [rethrow _ ?m] => destruct m as [cs [v|inner]]
        end; simpl; intros H; inversion H.
        right. exists inner. reflexivity.
      * intros H. inversion H. left. split; [reflexivity|]. right. right. reflexivity.
    + intros H. inversion H. left. split; [reflexivity|]. right. left.
      split; reflexivity.
  - intros H. inversion H; subst. left. split; [reflexivity|]. left.
    destruct (validateArgs_Throw_In _ _ _ Hv) as (k & Hk & _ & ->).
    exists k. split; [exact Hk | reflexivity].
Qed.

Definition chmodArgs : JsObject :=
  [("action", JStr "chmod"); ("path", JStr "a.txt");
   ("content", JNull); ("recursive", JBool false)].

Lemma filesystem_errors_are_prefixed_witness :
  execute "/home/agent" "/ws" anyFs "call_1" chmodArgs
    = ([], Throw "File system error: Unknown action: chmod") /\
  exists inner, "File system error: Unknown action: chmod"
                = "File system error: " +:+ inner.
Proof.
  split; [reflexivity|].
  destruct (filesystem_errors_are_prefixed "/home/agent" "/ws" anyFs "call_1"
              chmodArgs [] "File system error: Unknown action: chmod" eq_refl)
    as [(_ & [(k & _ & H)|[(H & _)|H]])|H]; [discriminate H..|exact H].
Defined.

End FileSystemToolMore.

(** ** The registry: registration, resolution, catalog *)
Module ToolRegistryMore.
Import ToolRegistry.

Lemma map_get_set_eq {V} (key : string) (v : V) (m : list (string * V)) :
  map_get key (map_set key v m) = Some v.
Proof.
  induction m as [|[k v'] rest IH]; simpl.
  - rewrite String.eqb_refl. reflexivity.
  - destruct (String.eqb k key) eqn:Hk; simpl; rewrite Hk; [reflexivity | exact IH].
Qed.

Lemma map_get_set_ne {V} (key key' : string) (v : V) (m : list (string * V)) :
  key' <> key -> map_get key' (map_set key v m) = map_get key' m.
Proof.
  intros Hne. induction m as [|[k v'] rest IH]; simpl.
  - destruct (String.eqb_spec key key'); [congruence | reflexivity].
  - destruct (String.eqb_spec k key) as [->|Hk]; simpl.
    + destruct (String.eqb_spec key key'); [congruence | reflexivity].
    + destruct (String.eqb k key'); [reflexivity | exact IH].
Qed.

Lemma map_set_keys {V} (key : string) (v : V) (m : list (string * V)) :
  map fst (map_set key v m)
  = if existsb (String.eqb key) (map fst m) then map fst m else map fst m ++ [key].
Proof.
  induction m as [|[k v'] rest IH]; simpl; [reflexivity|].
  rewrite (String.eqb_sym key k).
  destruct (String.eqb k key) eqn:Hk; simpl.
  - apply String.eqb_eq in Hk. subst. reflexivity.
  - rewrite IH. destruct (existsb _ _); reflexivity.
Qed.

(** X10: registration and resolution round-trip.  After [register(tool)],
    [get] on the tool's name gives that tool (the one registered earlier
    under the name is replaced) unless the configuration disables the
    name; [get] on any other name is unchanged. *)
Theorem register_then_get (tool : AgentTool) (reg : t) (name : string) :
  get (register tool reg) (t_name tool)
    = (if disabled reg (t_name tool) then None else Some tool) /\
  (name <> t_name tool -> get (register tool reg) name = get reg name).
Proof.
  unfold get, register, disabled. simpl. split.
  - rewrite map_get_set_eq. reflexivity.
  - intros Hne. rewrite map_get_set_ne by exact Hne. reflexivity.
Qed.

(** The registry after registering [ts], first to last. *)
Definition registerAll (ts : list AgentTool) (reg : t) : t :=
  foldl (fun r tool => register tool r) reg ts.

(** Keys are unique and every tool sits under its own name. *)
Definition wellKeyed (reg : t) : Prop :=
  NoDup (map fst (tools reg)) /\
  Forall (fun '(k, tool) => t_name tool = k) (tools reg).

Lemma wellKeyed_new cfgs : wellKeyed (new cfgs).
Proof. split; constructor. Qed.

Lemma existsb_eqb_In (key : string) (l : list string) :
  existsb (String.eqb key) l = true <-> In key l.
Proof.
  rewrite existsb_exists. split.
  - intros (x & Hx & E). apply String.eqb_eq in E. subst. exact Hx.
  - intros H. exists key. split; [exact H | apply String.eqb_refl].
Qed.

Lemma map_set_Forall {V} (P : string * V -> Prop) key v (m : list (string * V)) :
  Forall P m -> P (key, v) -> Forall P (map_set key v m).
Proof.
  intros Hm Hv. induction Hm as [|[k v'] rest Hk Hrest IH]; simpl.
  - repeat constructor. exact Hv.
  - destruct (String.eqb_spec k key) as [->|Hne]; constructor; assumption.
Qed.

Lemma wellKeyed_register tool reg : wellKeyed reg -> wellKeyed (register tool reg).
Proof.
  intros [Hnd Hk]. split; simpl.
  - rewrite map_set_keys.
    destruct (existsb (String.eqb (t_name tool)) (map fst (tools reg))) eqn:He;
      [exact Hnd|].
    apply NoDup_app. split; [exact Hnd|]. split; [|apply NoDup_singleton].
    intros x Hx Hx'. apply list_elem_of_In in Hx. apply list_elem_of_In in Hx'.
    destruct Hx' as [<-|[]].
    pose proof (proj2 (existsb_eqb_In _ _) Hx). congruence.
  - apply map_set_Forall; [exact Hk | reflexivity].
Qed.

Lemma wellKeyed_registerAll ts reg : wellKeyed reg -> wellKeyed (registerAll ts reg).
Proof.
  revert reg. induction ts as [|tool ts IH]; intros reg H; simpl; [exact H|].
  apply IH, wellKeyed_register, H.
Qed.

Lemma map_get_In {V} (key : string) (v : V) (m : list (string * V)) :
  map_get key m = Some v -> In (key, v) m.
Proof.
  induction m as [|[k v'] rest IH]; simpl; [discriminate|].
  destruct (String.eqb_spec k key) as [->|Hne].
  - intros H. inversion H. left. reflexivity.
  - intros H. right. apply IH, H.
Qed.

Lemma In_map_get {V} (key : string) (v : V) (m : list (string * V)) :
  NoDup (map fst m) -> In (key, v) m -> map_get key m = Some v.
Proof.
  induction m as [|[k v'] rest IH]; simpl; [intros _ []|].
  intros Hnd [H|H].
  - inversion H; subst. rewrite String.eqb_refl. reflexivity.
  - apply NoDup_cons in Hnd as [Hk Hnd].
    destruct (String.eqb_spec k key) as [->|Hne].
    + exfalso. apply Hk. apply list_elem_of_In.
      change key with (fst (key, v)). apply in_map, H.
    + apply IH; assumption.
Qed.

(** X11: the catalog and the resolver agree.  In a registry built by
    registrations, [getAvailableTools] lists each name at most once; a
    name is listed exactly when [get] resolves it; and the description and
    parameters listed under a name are those of the tool [get] returns for
    it. *)
Theorem catalog_agrees_with_get (cfgs : list ToolConfig) (ts : list AgentTool) :
  let reg := registerAll ts (new cfgs) in
  NoDup (map ti_name (getAvailableTools reg)) /\
  (forall name, In name (map ti_name (getAvailableTools reg)) <-> is_Some (get reg name)) /\
  (forall info, In info (getAvailableTools reg) ->
     exists tool, get reg (ti_name info) = Some tool /\
                  t_name tool = ti_name info /\
                  ti_description info = t_description tool /\
                  ti_parameters info = t_parameters tool).
Proof.
  intros reg.
  destruct (wellKeyed_registerAll ts (new cfgs) (wellKeyed_new cfgs)) as [Hnd Hk].
  fold reg in Hnd, Hk.
  assert (forall info, In info (getAvailableTools reg) <->
            exists k tool, In (k, tool) (tools reg) /\ disabled reg k = false /\
                           info = mkToolInfo k (t_description tool) (t_parameters tool))
    as Hcat.
  { intros info. unfold getAvailableTools.
    rewrite <- list_elem_of_In, list_elem_of_omap. split.
    - intros ([k tool] & Hin & Hsome). apply list_elem_of_In in Hin.
      destruct (disabled reg k) eqn:Hd; [discriminate|].
      inversion Hsome. exists k, tool. auto.
    - intros (k & tool & Hin & Hd & ->). exists (k, tool).
      split; [apply list_elem_of_In, Hin|]. rewrite Hd. reflexivity. }
  split; [|split].
  - unfold getAvailableTools.
    assert (forall l : list (string * AgentTool), NoDup (map fst l) ->
              NoDup (map ti_name (omap (fun '(name, tool) =>
                 if disabled reg name then None
                 else Some (mkToolInfo name (t_description tool) (t_parameters tool))) l)))
      as Hgen.
    { induction l as [|[k tool] rest IH]; simpl; [constructor|].
      intros Hl. apply NoDup_cons in Hl as [Hk' Hl].
      destruct (disabled reg k); [apply IH, Hl|].
      simpl. apply NoDup_cons. split; [|apply IH, Hl].
      intros Hin. apply Hk'.
      apply list_elem_of_In in Hin. apply in_map_iff in Hin as (info & E & Hin).
      apply list_elem_of_In, list_elem_of_omap in Hin as ([k2 t2] & Hin2 & Hs).
      destruct (disabled reg k2); [discriminate|]. inversion Hs; subst. simpl.
      apply list_elem_of_In. change k2 with (fst (k2, t2)).
      apply in_map. apply list_elem_of_In, Hin2. }
    apply Hgen, Hnd.
  - intros name. rewrite in_map_iff. split.
    + intros (info & <- & Hin). apply Hcat in Hin as (k & tool & Hin & Hd & ->).
      simpl. unfold get. rewrite (In_map_get _ _ _ Hnd Hin), Hd. eauto.
    + intros [tool Hget]. unfold get in Hget.
      destruct (map_get name (tools reg)) as [tool'|] eqn:Hm; [|discriminate].
      destruct (disabled reg name) eqn:Hd; [discriminate|]. inversion Hget; subst.
      exists (mkToolInfo name (t_description tool) (t_parameters tool)).
      split; [reflexivity|]. apply Hcat. exists name, tool.
      split; [apply map_get_In, Hm | auto].
  - intros info Hin. apply Hcat in Hin as (k & tool & Hin & Hd & ->).
    exists tool. simpl. unfold get. rewrite (In_map_get _ _ _ Hnd Hin), Hd.
    repeat split.
    rewrite Forall_forall in Hk. apply (Hk (k, tool)).
    apply list_elem_of_In, Hin.
Qed.

(** The last configuration of the list that carries the name. *)
Definition lastConfig (name : string) (cfgs : list ToolConfig) : option ToolConfig :=
  last (List.filter (fun c => String.eqb (cfg_name c) name) cfgs).

(** X12: when the constructor is given several configurations for one
    name, the last one in the list is the one in force, and a name without
    configuration has none. *)
Theorem constructor_keeps_last_config (cfgs : list ToolConfig) (name : string) :
  configs (new cfgs) !! name = lastConfig name cfgs.
Proof.
  unfold new, lastConfig. simpl.
  assert (forall (m : gmap string ToolConfig),
            foldl (fun m c => <[cfg_name c := c]> m) m cfgs !! name
            = match last (List.filter (fun c => String.eqb (cfg_name c) name) cfgs) with
              | Some c => Some c
              | None => m !! name
              end) as H.
  { induction cfgs as [|c rest IH]; intros m; [reflexivity|].
    cbn [foldl List.filter]. rewrite IH.
    destruct (String.eqb_spec (cfg_name c) name) as [E|E].
    - rewrite last_cons.
      destruct (last (List.filter _ rest)); [reflexivity|].
      rewrite <- E. apply lookup_insert_eq.
    - destruct (last (List.filter _ rest)); [reflexivity|].
      apply lookup_insert_ne. exact E. }
  rewrite H. destruct (last _); [reflexivity | apply lookup_empty].
Qed.

End ToolRegistryMore.

(** ** More about the agent loop and [run] *)
Module AgentMore.
Import Proc ProcFacts Frames AgentFrames AwesomeAgent Completion RunFacts.

(** X13: dispatch consults the enabled flag only.  A registered tool that
    is not disabled is executed, and its outcome recorded, whatever its
    allow-list and deny-list and whatever [checkPermission] would answer
    about it. *)
Theorem lists_do_not_stop_dispatch (call : ToolCall) (runId : string)
    (w : World) (tool : AgentTool) :
  map_get (tc_name call) (ToolRegistry.tools (toolRegistry w)) = Some tool ->
  ToolRegistry.disabled (toolRegistry w) (tc_name call) = false ->
  exists w',
    exec (executeTool call runId) w
      = (Ok (entryOf call (t_execute tool (tick w) (tc_id call) (tc_arguments call))),
         w') /\
    In (ToolExec (t_name tool) (tc_id call) (tc_arguments call)) (trace w').
Proof.
  intros Hreg Hdis. unfold executeTool.
  rewrite exec_catch, exec_bind, exec_emit, exec_bind, exec_read.
  cbn [toolRegistry set_trace]. unfold ToolRegistry.get. rewrite Hreg, Hdis.
  rewrite exec_bind, exec_await. unfold toolExecute.
  rewrite exec_bind, exec_logEffect, exec_bind, exec_act, exec_lift.
  cbn [fst snd tick set_trace].
  destruct (t_execute tool (tick w) (tc_id call) (tc_arguments call)) as [v|msg].
  - rewrite exec_bind, exec_emit, exec_ret. eexists. split; [reflexivity|].
    cbn. apply in_or_app. left. apply in_or_app. right. left. reflexivity.
  - rewrite exec_bind, exec_emit, exec_ret. eexists. split; [reflexivity|].
    cbn. apply in_or_app. left. apply in_or_app. right. left. reflexivity.
Qed.

(** An agent whose configuration puts the tool "exec" on its own
    deny-list. *)
Definition deniedWorld : World :=
  {| tick := 0; trace := []; runObjs := []; sessObjs := [];
     activeRuns := ∅; sessions := ∅; disk := ∅;
     toolRegistry := ToolRegistry.register (ToolRegistryFacts.nopTool "exec")
                       (ToolRegistry.new [ToolRegistryFacts.denyOnly]);
     config := Demo.baseConfig |}.

Definition execCall : ToolCall :=
  {| tc_id := "call_9"; tc_name := "exec"; tc_arguments := [("command", JStr "ls")] |}.

Lemma lists_do_not_stop_dispatch_witness :
  ToolRegistry.checkPermission (toolRegistry deniedWorld) "exec" = false /\
  exists w',
    exec (executeTool execCall "r1") deniedWorld
      = (Ok (entryOf execCall
               (t_execute (ToolRegistryFacts.nopTool "exec") (tick deniedWorld)
                          (tc_id execCall) (tc_arguments execCall))), w') /\
    In (ToolExec (t_name (ToolRegistryFacts.nopTool "exec")) (tc_id execCall)
                 (tc_arguments execCall)) (trace w').
Proof.
  split; [vm_compute; reflexivity|].
  apply (lists_do_not_stop_dispatch execCall "r1" deniedWorld
           (ToolRegistryFacts.nopTool "exec")); vm_compute; reflexivity.
Defined.

Lemma lastN_split {A} (n : nat) (l : list A) :
  exists older, l = older ++ lastN n l /\
                List.length (lastN n l) = Nat.min n (List.length l).
Proof.
  unfold lastN. exists (take (List.length l - n) l).
  split; [symmetry; apply take_drop|].
  rewrite length_drop. lia.
Qed.

(** X14: the context handed to the model is one system message followed
    by the last 20 messages of the transcript (all of them when there are
    fewer): a fixed trailing window, so that messages older than that are
    never shown to the model again. *)
Theorem context_is_preamble_and_last_twenty (env : Env) (a : nat)
    (w : World) (s : Session) :
  sessObjs w !! a = Some s ->
  exists preamble older recent w',
    exec (buildContext env a) w = (Ok (preamble :: recent), w') /\
    role preamble = Role.system /\
    content preamble = systemPrompt w /\
    messages s = older ++ recent /\
    List.length recent = Nat.min 20 (List.length (messages s)).
Proof.
  intros Hs. destruct (lastN_split 20 (messages s)) as (older & Hsplit & Hlen).
  eexists _, older, (lastN 20 (messages s)), _.
  split; [apply exec_buildContext, Hs|].
  repeat split; assumption.
Qed.

Lemma context_is_preamble_and_last_twenty_witness :
  exists preamble older recent w',
    exec (buildContext (Demo.envWith Demo.plainText) 0) Demo.world1
      = (Ok (preamble :: recent), w') /\
    role preamble = Role.system /\
    content preamble = systemPrompt Demo.world1 /\
    messages Demo.session1 = older ++ recent /\
    List.length recent = Nat.min 20 (List.length (messages Demo.session1)).
Proof.
  apply (context_is_preamble_and_last_twenty (Demo.envWith Demo.plainText) 0
           Demo.world1 Demo.session1).
  reflexivity.
Defined.

(** *** A budget of model calls *)

(** Run from any world to its end, [p] issues at most [n] model calls,
    however it ends. *)
Definition Bounded {A} (n : nat) (p : Proc A) : Prop :=
  forall w, modelCalls (exec p w).2 <= modelCalls w + n.

Lemma bounded_weaken {A} (n m : nat) (p : Proc A) :
  Bounded n p -> n <= m -> Bounded m p.
Proof. intros H Hle w. specialize (H w). lia. Qed.

Lemma bounded_bind {A B} (n m k : nat) (p : Proc A) (f : A -> Proc B) :
  Bounded n p -> (forall a, Bounded m (f a)) -> n + m <= k -> Bounded k (p ≫= f).
Proof.
  intros Hp Hf Hle w. rewrite exec_bind. specialize (Hp w).
  destruct (exec p w) as [[a|msg] w1]; simpl in *; [|lia].
  specialize (Hf a w1). lia.
Qed.

Lemma bounded_catch {A} (n m k : nat) (p : Proc A) (h : string -> Proc A) :
  Bounded n p -> (forall msg, Bounded m (h msg)) -> n + m <= k -> Bounded k (catch p h).
Proof.
  intros Hp Hh Hle w. rewrite exec_catch. specialize (Hp w).
  destruct (exec p w) as [[a|msg] w1]; simpl in *; [lia|].
  specialize (Hh msg w1). lia.
Qed.

Lemma bounded_finally {A} (n : nat) (p : Proc A) (fin : World -> World) :
  Bounded n p -> (forall w, modelCalls (fin w) = modelCalls w) ->
  Bounded n (finally p fin).
Proof.
  intros Hp Hfin w. rewrite exec_finally. simpl. rewrite Hfin. apply Hp.
Qed.

Lemma bounded_await {A} (n : nat) (p : Proc A) : Bounded n p -> Bounded n (await p).
Proof. intros Hp w. rewrite exec_await. apply Hp. Qed.

Lemma bounded_quiet {A} (p : Proc A) : Respects Quiet p -> Bounded 0 p.
Proof.
  intros HR w. destruct (exec_respects Quiet p w HR) as [_ H]. lia.
Qed.

Lemma bounded_act {A} (m : World -> A * World) :
  (forall w, modelCalls (m w).2 = modelCalls w) -> Bounded 0 (act m).
Proof. intros H w. rewrite exec_act. simpl. rewrite H. lia. Qed.

Lemma bounded_ret {A} (a : A) : Bounded 0 (mret a : Proc A).
Proof. intros w. simpl. lia. Qed.

Lemma bounded_throw {A} (msg : string) : Bounded 0 (throw msg : Proc A).
Proof. intros w. simpl. lia. Qed.

Lemma bounded_updateRun a f : Bounded 0 (updateRun a f).
Proof. apply bounded_act. reflexivity. Qed.

Section Budget.
Variable env : Env.

Lemma bounded_modelGenerate opts : Bounded 1 (modelGenerate env opts).
Proof.
  intros w. unfold modelGenerate.
  rewrite exec_bind, exec_logEffect, exec_bind, exec_act, exec_lift.
  cbn [fst snd]. unfold modelCalls. simpl.
  rewrite List.filter_app, length_app. simpl. lia.
Qed.

Lemma quiet_handleToolCalls a runId acc resp calls :
  Respects Quiet (handleToolCalls env a runId acc resp calls).
Proof.
  unfold handleToolCalls, executeTools.
  apply respects_bind; [apply respects_await, quiet_executeToolsFrom | intros].
  apply respects_bind; [apply quiet_dateNow | intros].
  apply respects_bind; [apply quiet_pushMessage | intros].
  apply quiet_pushToolResults.
Qed.

Lemma bounded_agentLoopFrom n a runId acc :
  Bounded n (agentLoopFrom env n a runId acc).
Proof.
  revert acc. induction n as [|n IH]; intros acc; cbn [agentLoopFrom].
  - apply bounded_ret.
  - eapply bounded_bind with (n := 0) (m := S n);
      [apply bounded_quiet, quiet_buildContext | intros ctx | lia].
    eapply bounded_bind with (n := 0) (m := S n);
      [apply bounded_quiet, quiet_read | intros level | lia].
    eapply bounded_bind with (n := 0) (m := S n);
      [apply bounded_quiet, quiet_read | intros tools | lia].
    eapply bounded_bind with (n := 1) (m := n);
      [apply bounded_await, bounded_modelGenerate | intros response | lia].
    eapply bounded_bind with (n := 0) (m := n); [| intros _ | lia].
    { destruct (String.eqb (text response) "");
        [apply bounded_ret | apply bounded_quiet, quiet_emit]. }
    destruct (requestedTools response) as [calls|].
    + eapply bounded_bind with (n := 0) (m := n);
        [apply bounded_quiet, quiet_handleToolCalls | intros; apply IH | lia].
    + apply bounded_weaken with (n := 0); [|lia].
      eapply bounded_bind with (n := 0) (m := 0);
        [apply bounded_quiet, quiet_dateNow | intros now | lia].
      eapply bounded_bind with (n := 0) (m := 0);
        [apply bounded_quiet, quiet_pushMessage | intros; apply bounded_ret | lia].
Qed.

(** X15: whatever the backend answers (tool calls for ever, failures,
    text), whatever the tools do and whatever the state of the session
    store, one [run] issues at most [maxIterations] (10) model calls. *)
Theorem run_makes_at_most_ten_model_calls (params : RunParams) (w : World) :
  modelCalls (exec (run env params) w).2 <= modelCalls w + maxIterations.
Proof.
  revert w. change (Bounded maxIterations (run env params)).
  unfold run.
  eapply bounded_bind with (n := 0) (m := maxIterations); [| intros runId | lia].
  { unfold chooseRunId. destruct (nonEmpty (p_runId params));
      [apply bounded_ret | apply bounded_act; reflexivity]. }
  eapply bounded_bind with (n := 0) (m := maxIterations);
    [apply bounded_quiet, quiet_dateNow | intros started | lia].
  eapply bounded_bind with (n := 0) (m := maxIterations);
    [apply bounded_act; reflexivity | intros ra | lia].
  eapply bounded_bind with (n := 0) (m := maxIterations);
    [apply bounded_act; reflexivity | intros _ | lia].
  eapply bounded_bind with (n := 0) (m := maxIterations);
    [apply bounded_quiet, quiet_emit | intros _ | lia].
  apply bounded_finally; [|reflexivity].
  eapply bounded_catch with (n := maxIterations) (m := 0); [| intros msg | lia].
  - unfold runBody.
    eapply bounded_bind with (n := 0) (m := maxIterations);
      [apply bounded_updateRun | intros _ | lia].
    eapply bounded_bind with (n := 0) (m := maxIterations);
      [apply bounded_await, bounded_quiet, quiet_getOrCreate | intros session | lia].
    eapply bounded_bind with (n := 0) (m := maxIterations);
      [apply bounded_quiet, quiet_dateNow | intros now | lia].
    eapply bounded_bind with (n := 0) (m := maxIterations);
      [apply bounded_quiet, quiet_pushMessage | intros _ | lia].
    eapply bounded_bind with (n := maxIterations) (m := 0);
      [apply bounded_await, bounded_agentLoopFrom | intros result | lia].
    eapply bounded_bind with (n := 0) (m := 0);
      [apply bounded_await, bounded_quiet, quiet_save | intros _ | lia].
    eapply bounded_bind with (n := 0) (m := 0);
      [apply bounded_updateRun | intros _ | lia].
    eapply bounded_bind with (n := 0) (m := 0);
      [apply bounded_quiet, quiet_dateNow | intros ended | lia].
    eapply bounded_bind with (n := 0) (m := 0);
      [apply bounded_updateRun | intros _ | lia].
    eapply bounded_bind with (n := 0) (m := 0);
      [apply bounded_quiet, quiet_emit | intros _; apply bounded_ret | lia].
  - unfold runCatch.
    eapply bounded_bind with (n := 0) (m := 0);
      [apply bounded_updateRun | intros _ | lia].
    eapply bounded_bind with (n := 0) (m := 0);
      [apply bounded_updateRun | intros _ | lia].
    eapply bounded_bind with (n := 0) (m := 0);
      [apply bounded_quiet, quiet_dateNow | intros ended | lia].
    eapply bounded_bind with (n := 0) (m := 0);
      [apply bounded_updateRun | intros _ | lia].
    eapply bounded_bind with (n := 0) (m := 0);
      [apply bounded_quiet, quiet_emit | intros _; apply bounded_throw | lia].
Qed.

Lemma exec_getOrCreate_cached sid a w :
  sessions w !! sid = Some a ->
  exec (SessionManager.getOrCreate env sid) w = (Ok a, w).
Proof.
  intros H. unfold SessionManager.getOrCreate.
  rewrite exec_bind, exec_read, H. reflexivity.
Qed.

(** The backend is down: every request is answered by the failure
    [msg]. *)
Definition Down (msg : string) : Prop :=
  forall k opts, generate env k opts = Throw msg.

(** X16: when the backend fails on the first request of a run on a cached
    session, [run] throws the backend's message after that one model call
    (no retry); the run record is left with status 'error', that message
    and an end time, and is no longer tracked.  The user message has
    already been pushed and stays in the cached transcript, but nothing is
    written to disk. *)
Theorem backend_failure_is_rethrown (params : RunParams) (w : World)
    (a : nat) (s : Session) (msg : string) :
  sessions w !! p_sessionId params = Some a ->
  sessObjs w !! a = Some s ->
  Down msg ->
  exists w' r now,
    exec (run env params) w = (Throw msg, w') /\
    runObjs w' !! List.length (runObjs w) = Some r /\
    status r = Status.error /\
    r_error r = Some msg /\
    is_Some (endedAt r) /\
    getRun (runIdOf env params w) w' = None /\
    modelCalls w' = S (modelCalls w) /\
    sessObjs w' !! a
      = Some (with_messages s
                (messages s ++ [mkMessage Role.user (p_message params) None None now])) /\
    disk w' = disk w.
Proof.
  intros Hc Hs Hdown.
  set (ra := List.length (runObjs w)).
  unfold run.
  destruct (exec_chooseRunId env params w) as (w1 & E1 & Q1 & C1 & D1 & O1).
  rewrite exec_bind, E1.
  rewrite exec_bind, exec_dateNow, exec_bind, exec_act. cbn [fst snd].
  rewrite exec_bind, exec_modify, exec_bind, exec_emit.
  rewrite exec_finally, exec_catch.
  unfold runBody. rewrite exec_bind, exec_updateRun, exec_bind, exec_await.
  destruct Q1 as [(A1 & R1 & AR1 & T1 & G1) M1].
  cbn [runObjs set_tick]. rewrite R1. fold ra.
  rewrite (exec_getOrCreate_cached _ a) by (cbn; rewrite C1; exact Hc).
  rewrite exec_bind, exec_dateNow, exec_bind, exec_pushMessage.
  rewrite exec_bind, exec_await. unfold agentLoop, maxIterations.
  match goal with
  | |- context [exec (agentLoopFrom env _ a _ _) ?W] => set (w4 := W)
  end.
  assert (sessObjs w4 !! a
          = Some (with_messages s
                    (messages s ++ [mkMessage Role.user (p_message params) None None
                                              (Date_now env (S (tick w1)))]))) as S4.
  { subst w4. cbn. rewrite list_lookup_alter_eq, O1, Hs. reflexivity. }
  rewrite (agentLoopFrom_turn env _ a _ "" w4 _ S4).
  unfold turnAnswer. rewrite Hdown. cbn iota beta zeta.
  unfold runCatch.
  rewrite exec_bind, exec_updateRun, exec_bind, exec_updateRun.
  rewrite exec_bind, exec_dateNow, exec_bind, exec_updateRun.
  rewrite exec_bind, exec_emit, exec_throw.
  cbn [fst snd].
  eexists _, _, (Date_now env (S (tick w1))).
  split; [reflexivity|].
  assert (runObjs w4 = alter (set_status Status.running) ra
            (runObjs w ++ [mkAgentRun (runIdOf env params w) (p_sessionId params)
                             Status.pending (Some (Date_now env (tick w1))) None None]))
    as HR4.
  { subst w4. cbn. rewrite R1. reflexivity. }
  cbn [runObjs activeRuns sessObjs disk called
       set_activeRuns set_trace set_runObjs set_tick].
  rewrite HR4.
  split.
  { rewrite !list_lookup_alter_eq. unfold ra.
    rewrite list_lookup_middle by reflexivity. reflexivity. }
  split; [reflexivity|]. split; [reflexivity|]. split; [eexists; reflexivity|].
  split.
  { unfold getRun. cbn. rewrite lookup_delete_eq. reflexivity. }
  split.
  { unfold modelCalls. cbn. rewrite !List.filter_app. simpl.
    rewrite !app_nil_r, length_app. simpl.
    unfold modelCalls in M1.
    replace (List.filter isModelCall (trace w4)) with (List.filter isModelCall (trace w)).
    - lia.
    - subst w4. cbn. rewrite List.filter_app. simpl. rewrite app_nil_r.
      symmetry. assert (List.length (List.filter isModelCall (trace w1))
                        = List.length (List.filter isModelCall (trace w))) by exact M1.
      clear -E1. unfold chooseRunId in E1.
      destruct (nonEmpty (p_runId params)); rewrite ?exec_ret, ?exec_act in E1;
        inversion E1; reflexivity. }
  split; [exact S4|].
  subst w4. cbn. exact D1.
Qed.

(** The run record at [ra] agrees with the way the run ended. *)
Definition recordAgrees (ra : nat) (outcome : Result nat * World) : Prop :=
  match outcome with
  | (Ok x, w') =>
      x = ra /\
      exists r, runObjs w' !! ra = Some r /\ status r = Status.completed /\
                r_error r = None /\ is_Some (endedAt r)
  | (Throw msg, w') =>
      exists r, runObjs w' !! ra = Some r /\ status r = Status.error /\
                r_error r = Some msg /\ is_Some (endedAt r)
  end.

Lemma exec_runCatch runId ra msg w r0 :
  runObjs w !! ra = Some r0 ->
  recordAgrees ra (exec (runCatch env runId ra msg) w).
Proof.
  intros H. unfold runCatch.
  rewrite exec_bind, exec_updateRun, exec_bind, exec_updateRun.
  rewrite exec_bind, exec_dateNow, exec_bind, exec_updateRun.
  rewrite exec_bind, exec_emit, exec_throw.
  cbn. rewrite !list_lookup_alter_eq, H. cbn.
  eexists. split; [reflexivity|]. repeat split. eexists. reflexivity.
Qed.

Lemma keeps_runObjs {A} (p : Proc A) (w w' : World) (r : Result A) :
  Respects Frame p -> exec p w = (r, w') -> runObjs w' = runObjs w.
Proof.
  intros HR E.
  destruct (exec_in Frame p w w' r HR E) as (_ & H & _). exact H.
Qed.

(** X17: left to itself, a run ends with a record that tells how it
    ended.  If [run] returns, it returns its own record, with status
    'completed', no error and an end time; if [run] throws, the record has
    status 'error', the thrown message as its error, and an end time. *)
Theorem run_record_matches_outcome (params : RunParams) (w : World) :
  recordAgrees (List.length (runObjs w)) (exec (run env params) w).
Proof.
  set (ra := List.length (runObjs w)).
  unfold run.
  destruct (exec_chooseRunId env params w) as (w1 & E1 & Q1 & _).
  rewrite exec_bind, E1.
  rewrite exec_bind, exec_dateNow, exec_bind, exec_act. cbn [fst snd].
  rewrite exec_bind, exec_modify, exec_bind, exec_emit.
  destruct Q1 as [(_ & R1 & _) _].
  cbn [runObjs set_tick]. rewrite R1. fold ra.
  assert (forall (o : Result nat * World),
            recordAgrees ra o ->
            recordAgrees ra (o.1, set_activeRuns
                                    (fun m => delete (runIdOf env params w) m) o.2))
    as Hfin.
  { intros [[x|msg] wo] H; exact H. }
  rewrite exec_finally. apply Hfin. clear Hfin.
  rewrite exec_catch. unfold runBody.
  rewrite exec_bind, exec_updateRun.
  match goal with
  | |- context [exec (_ ≫= _) ?W] => set (w2 := W)
  end.
  assert (exists r0, runObjs w2 !! ra = Some r0 /\ r_error r0 = None) as (r0 & H2 & Herr).
  { subst w2. cbn. rewrite R1, list_lookup_alter_eq. unfold ra.
    rewrite list_lookup_middle by reflexivity. eexists. split; reflexivity. }
  clearbody w2.
  rewrite exec_bind.
  destruct (exec (await (SessionManager.getOrCreate env (p_sessionId params))) w2)
    as [[session|msg] w3] eqn:E3.
  2:{ apply (exec_runCatch _ _ _ _ r0).
      rewrite (keeps_runObjs _ _ _ _
                 (respects_await _ _ (frame_of_quiet _ (quiet_getOrCreate env _))) E3).
      exact H2. }
  assert (runObjs w3 !! ra = Some r0) as H3.
  { rewrite (keeps_runObjs _ _ _ _
               (respects_await _ _ (frame_of_quiet _ (quiet_getOrCreate env _))) E3).
    exact H2. }
  rewrite exec_bind, exec_dateNow, exec_bind, exec_pushMessage, exec_bind.
  match goal with
  | |- context [exec (await (agentLoop env _ _)) ?W] => set (w4 := W)
  end.
  assert (runObjs w4 !! ra = Some r0) as H4 by exact H3.
  clearbody w4.
  destruct (exec (await (agentLoop env session (runIdOf env params w))) w4)
    as [[result|msg] w5] eqn:E5.
  2:{ apply (exec_runCatch _ _ _ _ r0).
      rewrite (keeps_runObjs _ _ _ _
                 (respects_await _ _ (frame_agentLoopFrom env _ _ _ _)) E5).
      exact H4. }
  assert (runObjs w5 !! ra = Some r0) as H5.
  { rewrite (keeps_runObjs _ _ _ _
               (respects_await _ _ (frame_agentLoopFrom env _ _ _ _)) E5).
    exact H4. }
  rewrite exec_bind.
  destruct (exec (await (SessionManager.save env session)) w5)
    as [[[]|msg] w6] eqn:E6.
  2:{ apply (exec_runCatch _ _ _ _ r0).
      rewrite (keeps_runObjs _ _ _ _
                 (respects_await _ _ (frame_of_quiet _ (quiet_save env _))) E6).
      exact H5. }
  assert (runObjs w6 !! ra = Some r0) as H6.
  { rewrite (keeps_runObjs _ _ _ _
               (respects_await _ _ (frame_of_quiet _ (quiet_save env _))) E6).
    exact H5. }
  rewrite exec_bind, exec_updateRun, exec_bind, exec_dateNow.
  rewrite exec_bind, exec_updateRun, exec_bind, exec_emit, exec_ret.
  cbn. rewrite !list_lookup_alter_eq, H6. cbn.
  split; [reflexivity|].
  eexists. split; [reflexivity|].
  repeat split; [exact Herr | eexists; reflexivity].
Qed.

End Budget.

(** A backend that is down. *)
Definition downBackend : nat -> GenerateOptions -> Result GenerateResult :=
  fun _ _ => Throw "503 Service Unavailable".

Lemma backend_failure_is_rethrown_witness :
  exists w' r now,
    exec (run (Demo.envWith downBackend) (Demo.request "main" "hello" "r1")) Demo.world1
      = (Throw "503 Service Unavailable", w') /\
    runObjs w' !! List.length (runObjs Demo.world1) = Some r /\
    status r = Status.error /\
    r_error r = Some "503 Service Unavailable" /\
    is_Some (endedAt r) /\
    getRun (runIdOf (Demo.envWith downBackend) (Demo.request "main" "hello" "r1")
                    Demo.world1) w' = None /\
    modelCalls w' = S (modelCalls Demo.world1) /\
    sessObjs w' !! 0
      = Some (with_messages Demo.session1
                (messages Demo.session1
                 ++ [mkMessage Role.user "hello" None None now])) /\
    disk w' = disk Demo.world1.
Proof.
  apply (backend_failure_is_rethrown (Demo.envWith downBackend)
           (Demo.request "main" "hello" "r1") Demo.world1 0 Demo.session1).
  - reflexivity.
  - reflexivity.
  - intros k opts. reflexivity.
Defined.

End AgentMore.

(** ** String replacement *)
Module JsStringFacts.
Import JsString.
#[local] Arguments String.append : simpl nomatch.

Lemma replaceFirst_eq (pattern replacement s : string) :
  replaceFirst pattern replacement s =
  if String.prefix pattern s
  then replacement +:+ String.substring (String.length pattern)
                                         (String.length s - String.length pattern) s
  else match s with
       | EmptyString => EmptyString
       | String c rest => String c (replaceFirst pattern replacement rest)
       end.
Proof. destruct s; reflexivity. Qed.

Lemma substring0_all (s : string) : String.substring 0 (String.length s) s = s.
Proof. induction s as [|c s IH]; simpl; [reflexivity | f_equal; exact IH]. Qed.

Lemma substring_skip (p t : string) (m : nat) :
  String.substring (String.length p) m (p +:+ t) = String.substring 0 m t.
Proof. induction p as [|c p IH]; simpl; [reflexivity | exact IH]. Qed.

Lemma replaceFirst_prefix (pattern replacement rest : string) :
  replaceFirst pattern replacement (pattern +:+ rest) = replacement +:+ rest.
Proof.
  rewrite replaceFirst_eq.
  rewrite (proj2 (StringFacts.prefix_spec pattern (pattern +:+ rest)))
    by (exists rest; reflexivity).
  rewrite StringFacts.length_append.
  replace (String.length pattern + String.length rest - String.length pattern)
    with (String.length rest) by lia.
  rewrite substring_skip, substring0_all. reflexivity.
Qed.

End JsStringFacts.

(** ** Gateway authentication *)
Module GatewayFacts.
Import Gateway.

(** X18: in token mode the gateway compares the [Authorization] header,
    with its first 'Bearer ' removed, to the configured token.  So the
    header 'Bearer <token>' is accepted; a request without the header is
    accepted exactly when no token is configured; and a request with a
    header is accepted exactly when a token is configured and equals
    what is left of the header. *)
Theorem token_mode_compares_stripped_header (a : Auth) :
  mode a = token ->
  (forall t, auth_token a = Some t ->
     authenticate (Some a) (Some ("Bearer " +:+ t)) = true) /\
  (forall h, authenticate (Some a) (Some h) = true <->
     auth_token a = Some (JsString.replaceFirst "Bearer " "" h)) /\
  (authenticate (Some a) None = true <-> auth_token a = None).
Proof.
  intros Hmode. unfold authenticate. rewrite Hmode. cbn [fmap option_fmap option_map].
  split; [|split].
  - intros t Ht. rewrite Ht, JsStringFacts.replaceFirst_prefix.
    apply bool_decide_eq_true_2. reflexivity.
  - intros h. rewrite bool_decide_eq_true. split; intros H; congruence.
  - rewrite bool_decide_eq_true. split; intros H; congruence.
Qed.

Definition tokenAuth : Auth := mkAuth token (Some "s3cret") None.

Lemma token_mode_compares_stripped_header_witness :
  mode tokenAuth = token /\
  authenticate (Some tokenAuth) (Some "Bearer s3cret") = true /\
  authenticate (Some tokenAuth) (Some "s3cret") = true /\
  authenticate (Some tokenAuth) None = false.
Proof.
  destruct (token_mode_compares_stripped_header tokenAuth eq_refl) as (Hb & Hh & Hn).
  split; [reflexivity|]. split; [apply (Hb "s3cret"); reflexivity|].
  split; [apply Hh; reflexivity|].
  apply not_true_is_false. intros E. apply Hn in E. discriminate.
Defined.

(** X19: the gateway is open when no [auth] is configured or its mode is
    'none', and closed to every request in password mode, whatever
    password is configured and whatever the request presents. *)
Theorem only_token_mode_looks_at_the_request (auth : option Auth) (h h' : option string) :
  (forall a, auth = Some a -> mode a <> token) ->
  authenticate auth h = authenticate auth h' /\
  (authenticate auth h = true <->
   auth = None \/ exists a, auth = Some a /\ mode a = none).
Proof.
  intros Hnt. unfold authenticate. destruct auth as [a|].
  - specialize (Hnt a eq_refl). destruct (mode a) eqn:Hm; [congruence| |].
    + split; [reflexivity|]. split; [discriminate|].
      intros [H|(a' & H & Hm')]; [discriminate|]. congruence.
    + split; [reflexivity|]. split; [|reflexivity].
      intros _. right. exists a. auto.
  - split; [reflexivity|]. split; [|reflexivity]. intros _. left. reflexivity.
Qed.

Lemma only_token_mode_looks_at_the_request_witness :
  authenticate (Some (mkAuth password None (Some "pw"))) (Some "pw")
  = authenticate (Some (mkAuth password None (Some "pw"))) None /\
  authenticate (Some (mkAuth password None (Some "pw"))) (Some "pw") <> true.
Proof.
  destruct (only_token_mode_looks_at_the_request
              (Some (mkAuth password None (Some "pw"))) (Some "pw") None) as [He Hi].
  - intros a [= <-]. discriminate.
  - split; [exact He|]. intros H. apply Hi in H.
    destruct H as [H|(a & [= <-] & Hm)]; discriminate.
Defined.

End GatewayFacts.

(** ** The event system *)
Module EventsFacts.
Import Events.

(** The listeners registered for [event], in the order [forEach] sees them. *)
Definition listenersOf (event : string) (reg : Registry) : list nat :=
  default [] (map_get event reg).

Lemma In_set_add (x l : nat) (s : list nat) :
  In x (set_add l s) <-> x = l \/ In x s.
Proof.
  unfold set_add. destruct (existsb (Nat.eqb l) s) eqn:E.
  - split; [auto|]. intros [->|H]; [|exact H].
    apply existsb_exists in E. destruct E as (y & Hy & Hly).
    apply Nat.eqb_eq in Hly. subst. exact Hy.
  - rewrite in_app_iff. simpl. split; intros H.
    + destruct H as [H|[H|[]]]; auto.
    + destruct H as [H|H]; auto.
Qed.

Lemma NoDup_set_add (l : nat) (s : list nat) :
  List.NoDup s -> List.NoDup (set_add l s).
Proof.
  intros Hs. unfold set_add. destruct (existsb (Nat.eqb l) s) eqn:E; [exact Hs|].
  apply List.NoDup_rev in Hs. rewrite <- (rev_involutive (s ++ [l])).
  apply List.NoDup_rev. rewrite rev_app_distr. simpl. constructor; [|exact Hs].
  intros Hin. apply in_rev in Hin.
  assert (existsb (Nat.eqb l) s = true) as E'.
  { apply existsb_exists. exists l. split; [exact Hin | apply Nat.eqb_refl]. }
  congruence.
Qed.

Lemma In_set_delete (x l : nat) (s : list nat) :
  In x (set_delete l s) <-> In x s /\ x <> l.
Proof.
  unfold set_delete. rewrite filter_In, negb_true_iff, Nat.eqb_neq. reflexivity.
Qed.

Lemma listenersOf_on (event event' : string) (l : nat) (reg : Registry) :
  listenersOf event' (on event l reg) =
  if String.eqb event event' then set_add l (listenersOf event' reg)
  else listenersOf event' reg.
Proof.
  unfold listenersOf, on.
  destruct (String.eqb_spec event event') as [<-|Hne].
  - destruct (map_get event reg) as [s|] eqn:Hg.
    + rewrite Hg, ToolRegistryMore.map_get_set_eq. reflexivity.
    + rewrite ToolRegistryMore.map_get_set_eq, ToolRegistryMore.map_get_set_eq.
      reflexivity.
  - destruct (map_get event reg) as [s|] eqn:Hg.
    + rewrite Hg, ToolRegistryMore.map_get_set_ne by congruence. reflexivity.
    + rewrite ToolRegistryMore.map_get_set_eq.
      rewrite !ToolRegistryMore.map_get_set_ne by congruence. reflexivity.
Qed.

Lemma listenersOf_off (event event' : string) (l : nat) (reg : Registry) :
  listenersOf event' (off event l reg) =
  if String.eqb event event' then set_delete l (listenersOf event' reg)
  else listenersOf event' reg.
Proof.
  unfold listenersOf, off.
  destruct (String.eqb_spec event event') as [<-|Hne].
  - destruct (map_get event reg) as [s|] eqn:Hg.
    + rewrite ToolRegistryMore.map_get_set_eq. reflexivity.
    + rewrite Hg. reflexivity.
  - destruct (map_get event reg) as [s|] eqn:Hg.
    + rewrite ToolRegistryMore.map_get_set_ne by congruence. reflexivity.
    + reflexivity.
Qed.

(** A history of calls to [on] and [off] on a new agent. *)
Inductive Op : Type :=
| On (event : string) (listener : nat)
| Off (event : string) (listener : nat).

Definition apply (reg : Registry) (op : Op) : Registry :=
  match op with
  | On event listener => on event listener reg
  | Off event listener => off event listener reg
  end.

Definition after (ops : list Op) : Registry := foldl apply [] ops.

(** Whether the last call in [ops] that names [event] and [listener] is
    an [on]; [current] stands when no call names them. *)
Fixpoint subscribed (event : string) (listener : nat) (ops : list Op)
    (current : bool) : bool :=
  match ops with
  | [] => current
  | On e l :: rest =>
      subscribed event listener rest
        (if String.eqb e event && Nat.eqb l listener then true else current)
  | Off e l :: rest =>
      subscribed event listener rest
        (if String.eqb e event && Nat.eqb l listener then false else current)
  end.

Lemma subscribed_app (event : string) (listener : nat) (ops ops' : list Op)
    (current : bool) :
  subscribed event listener (ops ++ ops') current
  = subscribed event listener ops' (subscribed event listener ops current).
Proof.
  revert current. induction ops as [|[e l|e l] ops IH]; intros current; simpl;
    [reflexivity | apply IH | apply IH].
Qed.

(** X20: the listener sets follow the calls.  After any history of [on]
    and [off] calls, a listener is registered for an event exactly when
    the last call naming that event and that listener was an [on], and
    it is registered once however often [on] was called; calls for other
    events or other listeners do not matter. *)
Theorem listeners_follow_the_last_call (ops : list Op) (event : string)
    (listener : nat) :
  List.NoDup (listenersOf event (after ops)) /\
  (In listener (listenersOf event (after ops))
   <-> subscribed event listener ops false = true).
Proof.
  unfold after. induction ops as [|op ops [IHnd IHin]] using rev_ind.
  - split; [constructor|]. simpl. split; [intros [] | discriminate].
  - rewrite foldl_app, subscribed_app. simpl.
    destruct op as [e l|e l]; simpl.
    + rewrite listenersOf_on.
      destruct (String.eqb_spec e event) as [->|Hne]; simpl.
      * split; [apply NoDup_set_add, IHnd|].
        rewrite In_set_add, IHin.
        destruct (Nat.eqb_spec l listener) as [->|Hl].
        -- split; auto.
        -- split; [intros [H|H]; [congruence | exact H] | auto].
      * split; [exact IHnd | exact IHin].
    + rewrite listenersOf_off.
      destruct (String.eqb_spec e event) as [->|Hne]; simpl.
      * split; [apply List.NoDup_filter, IHnd|].
        rewrite In_set_delete, IHin.
        destruct (Nat.eqb_spec l listener) as [->|Hl].
        -- split; [intros [_ H]; congruence | discriminate].
        -- split; [intros [H _]; exact H | intros H; split; [exact H | congruence]].
      * split; [exact IHnd | exact IHin].
Qed.

(** The listeners [emit] called, in order, and the failures it reported. *)
Definition called (out : list Delivery) : list nat :=
  flat_map (fun d => match d with Called l => [l] | ConsoleError _ _ => [] end) out.

Definition reported (out : list Delivery) : list string :=
  flat_map (fun d => match d with Called _ => [] | ConsoleError _ msg => [msg] end) out.

(** What the listeners in [ls] throw on [data], in order. *)
Definition failuresOf {D : Type} (behaviour : nat -> D -> Result unit)
    (data : D) (ls : list nat) : list string :=
  flat_map (fun l => match behaviour l data with
                     | Ok _ => []
                     | Throw msg => [msg]
                     end) ls.

(** X21: a failing listener does not keep the event from the others.
    [emit] calls exactly the listeners registered for the event, in
    registration order, whichever of them throw, and it reports exactly
    their failures, in that order. *)
Theorem emit_calls_every_listener {D : Type} (behaviour : nat -> D -> Result unit)
    (reg : Registry) (event : string) (data : D) :
  called (emit behaviour reg event data) = listenersOf event reg /\
  reported (emit behaviour reg event data)
  = failuresOf behaviour data (listenersOf event reg).
Proof.
  unfold emit, listenersOf, failuresOf.
  destruct (map_get event reg) as [s|]; simpl; [|split; reflexivity].
  induction s as [|l s [IH1 IH2]]; simpl; [split; reflexivity|].
  destruct (behaviour l data) as [[]|msg]; simpl; rewrite IH1, IH2;
    split; reflexivity.
Qed.

End EventsFacts.

(** ** The session store: cache and files *)
Module SessionFacts.
Import Proc ProcFacts Completion.

(** The file of session [sid] under the workspace configured in [w]. *)
#[local] Abbreviation pathOf w sid :=
  (SessionManager.getSessionPath (workspace (config w)) sid).

Section Store.
Variable env : Env.

Lemma exec_loadSession (sid : string) (w : World) :
  exec (SessionManager.loadSession sid) w =
  let w1 := set_trace (fun t => t ++ [FsReadFile (pathOf w sid)]) w in
  match disk w !! pathOf w sid with
  | Some (Written s) =>
      (Ok (List.length (sessObjs w)), set_sessObjs (fun h => h ++ [s]) w1)
  | Some (Writing _) => (Throw "Unexpected end of JSON input", w1)
  | None => (Throw "ENOENT: no such file or directory", w1)
  end.
Proof.
  unfold SessionManager.loadSession, SessionManager.sessionPath.
  rewrite exec_bind, exec_read, exec_bind, exec_logEffect.
  cbn [exec]. rewrite exec_bind, exec_read. cbn [disk set_trace].
  destruct (disk w !! pathOf w sid) as [[s|s]|]; reflexivity.
Qed.

(** The session [getOrCreate] makes for an id without cache entry and
    without file. *)
Definition created (sid : string) (w : World) : Session :=
  mkSession sid sid (Date_now env (tick w)) (Date_now env (S (tick w))) [] None.

(** What [getOrCreate] does for a session that is not cached: it fails
    when it has to write the file of a new session and the write does
    not complete; otherwise it returns a new object. *)
Lemma exec_getOrCreate_uncached (sid : string) (w : World) :
  sessions w !! sid = None ->
  coherent w sid ->
  (exists msg w',
     exec (SessionManager.getOrCreate env sid) w = (Throw msg, w') /\
     disk w !! pathOf w sid = None /\
     writeFile env (3 + tick w) (pathOf w sid) <> Completes) \/
  (exists s w',
     exec (SessionManager.getOrCreate env sid) w = (Ok (List.length (sessObjs w)), w') /\
     sessions w' = <[sid := List.length (sessObjs w)]> (sessions w) /\
     sessObjs w' = sessObjs w ++ [s] /\
     disk w' !! pathOf w sid = Some (Written s) /\
     s_id s = sid /\
     match disk w !! pathOf w sid with
     | Some (Written s0) => s = s0
     | _ => messages s = [] /\ createdAt s = Date_now env (tick w)
     end).
Proof.
  intros Hcache Hc. unfold coherent in Hc. rewrite Hcache in Hc.
  unfold SessionManager.getOrCreate.
  rewrite exec_bind, exec_read, Hcache.
  unfold SessionManager.sessionPath.
  rewrite exec_bind, exec_read, exec_bind, exec_read.
  destruct (disk w !! pathOf w sid) as [[s|s]|] eqn:Hdisk; [|contradiction|].
  - right.
    rewrite bool_decide_eq_true_2 by (eexists; reflexivity).
    rewrite exec_bind, exec_await, exec_loadSession, Hdisk.
    cbn iota beta zeta.
    rewrite exec_bind, exec_modify, exec_ret.
    exists s. eexists. split; [reflexivity|]. cbn.
    repeat split; try reflexivity; assumption.
  - rewrite bool_decide_eq_false_2 by (intros [x Hx]; discriminate).
    rewrite exec_bind, exec_dateNow, exec_bind, exec_dateNow.
    rewrite exec_bind, exec_act. cbn [fst snd].
    rewrite exec_bind, exec_modify, exec_bind, exec_await.
    erewrite exec_save by (cbn; apply list_lookup_middle; reflexivity).
    cbn [tick config set_sessions set_sessObjs set_tick s_id workspace].
    change (S (S (S (tick w)))) with (3 + tick w).
    destruct (writeFile env (3 + tick w) (pathOf w sid)) as [|msg|msg] eqn:Hw.
    + right. rewrite exec_ret.
      eexists. eexists. split; [reflexivity|]. cbn.
      split; [rewrite insert_insert_eq; reflexivity|].
      split; [rewrite (alter_app_r_alt _ _ _ (List.length (sessObjs w))) by lia;
              rewrite Nat.sub_diag; reflexivity|].
      split; [rewrite lookup_insert_eq; reflexivity|].
      repeat split; reflexivity.
    + left. eexists _, _. split; [reflexivity|]. split; [reflexivity | discriminate].
    + left. eexists _, _. split; [reflexivity|]. split; [reflexivity | discriminate].
Qed.

(** When the file system accepts the writes, [getOrCreate] returns. *)
Lemma exec_getOrCreate_uncached_ok (sid : string) (w : World) :
  sessions w !! sid = None ->
  coherent w sid ->
  disk w !! pathOf w sid <> None \/ Accepts env ->
  exists s w',
    exec (SessionManager.getOrCreate env sid) w = (Ok (List.length (sessObjs w)), w') /\
    sessions w' = <[sid := List.length (sessObjs w)]> (sessions w) /\
    sessObjs w' = sessObjs w ++ [s] /\
    disk w' !! pathOf w sid = Some (Written s) /\
    s_id s = sid /\
    match disk w !! pathOf w sid with
    | Some (Written s0) => s = s0
    | _ => messages s = [] /\ createdAt s = Date_now env (tick w)
    end.
Proof.
  intros Hcache Hc Hok.
  destruct (exec_getOrCreate_uncached sid w Hcache Hc)
    as [(msg & w' & _ & Hnone & Hw)|H]; [|exact H].
  exfalso. destruct Hok as [Hfile|Hacc]; [contradiction | apply Hw, Hacc].
Qed.

(** Whenever [getOrCreate] returns a session, that session is the one
    cached under the id. *)
Lemma getOrCreate_caches (sid : string) (w w1 : World) (a : nat) :
  exec (SessionManager.getOrCreate env sid) w = (Ok a, w1) ->
  sessions w1 !! sid = Some a.
Proof.
  unfold SessionManager.getOrCreate.
  rewrite exec_bind, exec_read.
  destruct (sessions w !! sid) as [a0|] eqn:Hcache.
  - rewrite exec_ret. intros [= <- <-]. exact Hcache.
  - unfold SessionManager.sessionPath.
    rewrite exec_bind, exec_read, exec_bind, exec_read.
    destruct (disk w !! pathOf w sid) as [f|] eqn:Hdisk.
    + rewrite bool_decide_eq_true_2 by (eexists; reflexivity).
      rewrite exec_bind, exec_await, exec_loadSession, Hdisk.
      cbn iota beta zeta.
      destruct f as [s|s]; [|discriminate].
      rewrite exec_bind, exec_modify, exec_ret.
      intros [= <- <-]. cbn. apply lookup_insert_eq.
    + rewrite bool_decide_eq_false_2 by (intros [x Hx]; discriminate).
      rewrite exec_bind, exec_dateNow, exec_bind, exec_dateNow.
      rewrite exec_bind, exec_act. cbn [fst snd].
      rewrite exec_bind, exec_modify, exec_bind, exec_await.
      erewrite exec_save by (cbn; apply list_lookup_middle; reflexivity).
      cbn zeta.
      destruct (writeFile env _ _); [|discriminate..].
      rewrite exec_ret. intros [= <- <-]. cbn. apply lookup_insert_eq.
Qed.

(** X22: [getOrCreate] is idempotent.  Once it has handed out a session,
    from whatever state of the store, asking again returns the same
    object and does nothing at all: no clock reading, no file access, no
    new object.  It does hand one out when the store is coherent for the
    id and the file system accepts the writes. *)
Theorem getOrCreate_twice_is_once (sid : string) (w : World) :
  (forall a w1,
     exec (SessionManager.getOrCreate env sid) w = (Ok a, w1) ->
     exec (SessionManager.getOrCreate env sid) w1 = (Ok a, w1)) /\
  (coherent w sid -> Accepts env ->
   exists a w1, exec (SessionManager.getOrCreate env sid) w = (Ok a, w1)).
Proof.
  split.
  - intros a w1 E. apply getOrCreate_caches in E.
    unfold SessionManager.getOrCreate. rewrite exec_bind, exec_read, E.
    reflexivity.
  - intros Hc Hacc.
    destruct (exec_getOrCreate env sid w Hc Hacc) as (a & s & w1 & E & _).
    eauto.
Qed.




End Store.

(** *** Removing *)

Section Removing.
Variable env : Env.
Variable unlink : World -> string -> Result unit.

(** The world in which [delete] asks for the file to be removed: the
    cache entry is gone. *)
Definition uncached (sid : string) (w : World) : World :=
  set_sessions (fun c => base.delete sid c) w.

(** [delete], according to the file and to the answer of the system. *)
Lemma exec_delete (sid : string) (w : World) :
  exec (SessionFiles.delete unlink sid) w =
  match disk w !! pathOf w sid with
  | None => (Ok tt, uncached sid w)
  | Some _ =>
      match unlink (uncached sid w) (pathOf w sid) with
      | Ok _ =>
          (Ok tt, set_disk (fun d => base.delete (pathOf w sid) d) (uncached sid w))
      | Throw msg => (Throw msg, uncached sid w)
      end
  end.
Proof.
  unfold SessionFiles.delete, SessionManager.sessionPath, uncached.
  rewrite exec_bind, exec_modify, exec_bind, exec_read, exec_bind, exec_read.
  cbn [config disk set_sessions].
  destruct (disk w !! pathOf w sid) as [f|] eqn:Hdisk.
  - rewrite bool_decide_eq_true_2 by (eexists; reflexivity).
    rewrite exec_await. unfold SessionFiles.fs_unlink. cbn [exec].
    rewrite exec_bind, exec_read. cbn [disk set_sessions]. rewrite Hdisk.
    rewrite exec_bind, exec_read.
    destruct (unlink _ _) as [[]|msg]; reflexivity.
  - rewrite bool_decide_eq_false_2 by (intros [x Hx]; discriminate).
    reflexivity.
Qed.

(** X25: [delete] removes the cache entry of the id in any case, and
    leaves the cache entries of all other ids as they are.  It completes
    exactly when there is no file for the id or the system removes it;
    then the file of the id is gone and the files at all other paths are
    as they were (two ids that name the same file, such as 'main' and
    './main', share it); when it fails, no file has changed.  After a
    [delete] that has completed, and with a file system that accepts
    writes, the next [getOrCreate] for the id starts a new session
    without messages. *)
Theorem delete_forgets_the_session (sid : string) (w : World) :
  exists r w1,
    exec (SessionFiles.delete unlink sid) w = (r, w1) /\
    sessions w1 = base.delete sid (sessions w) /\
    sessObjs w1 = sessObjs w /\
    (r = Ok tt <->
     disk w !! pathOf w sid = None \/
     unlink (uncached sid w) (pathOf w sid) = Ok tt) /\
    (r = Ok tt -> disk w1 = base.delete (pathOf w sid) (disk w)) /\
    (r = Ok tt ->
     forall sid', disk w1 !! pathOf w sid' =
                  if decide (pathOf w sid' = pathOf w sid) then None
                  else disk w !! pathOf w sid') /\
    (r <> Ok tt -> disk w1 = disk w) /\
    (r = Ok tt -> Accepts env ->
     exists s w2,
       exec (SessionManager.getOrCreate env sid) w1
         = (Ok (List.length (sessObjs w)), w2) /\
       sessObjs w2 !! List.length (sessObjs w) = Some s /\
       s_id s = sid /\
       messages s = []).
Proof.
  assert (forall (d : gmap string FileState) sid',
            d = base.delete (pathOf w sid) (disk w) ->
            d !! pathOf w sid' =
            if decide (pathOf w sid' = pathOf w sid) then None
            else disk w !! pathOf w sid') as Hfiles.
  { intros d sid' ->. destruct (decide _) as [->|Hne].
    - apply lookup_delete_eq.
    - apply lookup_delete_ne. congruence. }
  assert (forall w1 : World,
            sessions w1 = base.delete sid (sessions w) ->
            sessObjs w1 = sessObjs w ->
            config w1 = config w ->
            disk w1 = base.delete (pathOf w sid) (disk w) ->
            Accepts env ->
            exists s w2,
              exec (SessionManager.getOrCreate env sid) w1
                = (Ok (List.length (sessObjs w)), w2) /\
              sessObjs w2 !! List.length (sessObjs w) = Some s /\
              s_id s = sid /\
              messages s = []) as Hnext.
  { intros w1 Hs Ho Hg Hd Hacc.
    assert (sessions w1 !! sid = None) as Hcache
      by (rewrite Hs; apply lookup_delete_eq).
    assert (disk w1 !! pathOf w1 sid = None) as Hdisk
      by (rewrite Hg, Hd; apply lookup_delete_eq).
    assert (coherent w1 sid) as Hc.
    { unfold coherent. rewrite Hcache, Hdisk. exact I. }
    destruct (exec_getOrCreate_uncached_ok env sid w1 Hcache Hc (or_intror Hacc))
      as (s & w2 & E & _ & Ho2 & _ & Hid & Hfrom).
    rewrite Hdisk in Hfrom. destruct Hfrom as [Hm _].
    rewrite Ho in E, Ho2.
    exists s, w2. split; [exact E|].
    split; [rewrite Ho2; apply list_lookup_middle; reflexivity|].
    split; assumption. }
  rewrite exec_delete.
  destruct (disk w !! pathOf w sid) as [f|] eqn:Hdisk.
  - destruct (unlink (uncached sid w) (pathOf w sid)) as [[]|msg] eqn:Hun.
    + eexists _, _. split; [reflexivity|].
      split; [reflexivity|]. split; [reflexivity|].
      split; [split; auto|].
      split; [reflexivity|].
      split; [intros _ sid'; apply Hfiles; reflexivity|].
      split; [intros H; contradiction|].
      intros _. apply Hnext; reflexivity.
    + eexists _, _. split; [reflexivity|].
      split; [reflexivity|]. split; [reflexivity|].
      split; [split; [discriminate | intros [H|H]; discriminate]|].
      split; [discriminate|]. split; [discriminate|].
      split; [reflexivity | discriminate].
  - assert (disk (uncached sid w) = base.delete (pathOf w sid) (disk w)) as Hsame.
    { unfold uncached. cbn [disk set_sessions]. symmetry. apply delete_id, Hdisk. }
    eexists _, _. split; [reflexivity|].
    split; [reflexivity|]. split; [reflexivity|].
    split; [split; auto|].
    split; [intros _; exact Hsame|].
    split; [intros _ sid'; apply Hfiles; exact Hsame|].
    split; [intros H; contradiction|].
    intros _. apply Hnext; try reflexivity. exact Hsame.
Qed.

End Removing.

(** Two ids for one file. *)
Example ids_may_share_a_file :
  SessionManager.getSessionPath "./workspace" "./main"
  = SessionManager.getSessionPath "./workspace" "main".
Proof. reflexivity. Qed.

(** *** Listing *)

Section Listing.
Variable readdir : World -> Result (list string).










End Listing.

Definition storedWorld : World :=
  set_sessions (fun _ => ∅)
    (set_disk (fun d => <[SessionManager.getSessionPath
                            (workspace (config Demo.world1)) "main"
                          := Written Demo.session1]> d) Demo.world1).

Lemma getOrCreate_twice_is_once_witness :
  exists a w1,
    exec (SessionManager.getOrCreate (Demo.envWith Demo.toolThenText) "main")
         storedWorld = (Ok a, w1) /\
    exec (SessionManager.getOrCreate (Demo.envWith Demo.toolThenText) "main")
         w1 = (Ok a, w1).
Proof.
  destruct (getOrCreate_twice_is_once (Demo.envWith Demo.toolThenText) "main"
              storedWorld) as [Hsame Hreturns].
  destruct Hreturns as (a & w1 & E).
  - unfold coherent. vm_compute. reflexivity.
  - intros k path. reflexivity.
  - exists a, w1. split; [exact E | apply Hsame, E].
Defined.



End SessionFacts.
